(** * Stellarium, Meteor Showers plug-in: the simulation core of one shower

    A shallow embedding of [plugins/MeteorShowers/src/MeteorShower.cpp]:
    the constructor (catalog record to shower), [enabled], [update],
    [hasGenericShower], [hasConfirmedShower], [calculateZHR] and
    [getDesignation], followed by the properties of the specification that
    concern them and by further properties of the code itself.  The
    drawing functions and the info texts ([draw], [drawRadiant],
    [drawMeteors], [getSolarLongitude], [getInfoColor], [getInfoString])
    talk to the painter, the translator and the text formatter of the
    host and are left out.

    Conventions.
    - C++ [int] is a [Z] kept in the 32-bit range; where the source does
      arithmetic that may leave the range the wrap-around is written
      [wrap32].
    - C++ [float] and [double] are IEEE-754 binary32 and binary64 values,
      taken from the Standard Library's executable specification
      ([SpecFloat]); every operation rounds to nearest even, as the
      hardware does.
    - [QList::at] outside the list is the one way the code can fail; the
      functions that index a list return an [option], [None] standing for
      the out-of-range access.
    - Qt and libm are not part of the repository.  [QDate], [QVariant] and
      [QString] are modelled from the Qt 5 documentation; the numerical
      routines, the random generator and the meteor objects are the fields
      of the class [Platform], so that every theorem holds whatever they
      compute. *)

From Stdlib Require Import ZArith QArith Lia Bool List String Ascii DecimalString.
From Stdlib Require Import SpecFloat.
From Stdlib Require DecimalPos DecimalFacts Qround.
From stdpp Require Import base option list gmap strings.

Open Scope Z_scope.

(** ** Machine integers *)

Definition INT_MIN : Z := - 2 ^ 31.
Definition INT_MAX : Z := 2 ^ 31 - 1.
Definition INT64_MIN : Z := - 2 ^ 63.
Definition INT64_MAX : Z := 2 ^ 63 - 1.

(** Two's complement reduction to 32 bits. *)
Definition wrap32 (z : Z) : Z := (z + 2 ^ 31) mod 2 ^ 32 - 2 ^ 31.

Definition in_int (z : Z) : bool := (INT_MIN <=? z) && (z <=? INT_MAX).

(** ** Floating point *)

Definition double : Type := spec_float.
Definition float : Type := spec_float.

(** The integer part of a finite value, rounded toward zero. *)
Definition SFtrunc (x : spec_float) : option Z :=
  match x with
  | S754_zero _ => Some 0
  | S754_finite s m e =>
      let a := match e with
               | Zneg p => Z.shiftr (Zpos m) (Zpos p)
               | _ => Z.shiftl (Zpos m) e
               end in
      Some (if s then - a else a)
  | S754_infinity _ | S754_nan => None
  end.

(** Conversion to a signed integer of the given range.  Outside the range,
    and for NaN, C++ leaves the result undefined; the model returns what the
    x86-64 conversion instructions return, the least integer. *)
Definition SFto_int (lo hi : Z) (x : spec_float) : Z :=
  match SFtrunc x with
  | Some z => if (lo <=? z) && (z <=? hi) then z else lo
  | None => lo
  end.

(** Re-rounding of a value to a format; exact when the value fits. *)
Definition SFconv (prec emax : Z) (x : spec_float) : spec_float :=
  match x with
  | S754_finite s m e => binary_round prec emax s m e
  | _ => x
  end.

Module D.
Definition prec : Z := 53.
Definition emax : Z := 1024.
Definition of_Z (z : Z) : double := binary_normalize prec emax z 0 false.
Definition of_float (x : float) : double := SFconv prec emax x.
Definition add : double -> double -> double := SFadd prec emax.
Definition sub : double -> double -> double := SFsub prec emax.
Definition mul : double -> double -> double := SFmul prec emax.
Definition div : double -> double -> double := SFdiv prec emax.
Definition opp : double -> double := SFopp.
Definition ltb : double -> double -> bool := SFltb.
Definition geb (x y : double) : bool := SFleb y x.
Definition to_int64 : double -> Z := SFto_int INT64_MIN INT64_MAX.
End D.

Module F.
Definition prec : Z := 24.
Definition emax : Z := 128.
Definition of_Z (z : Z) : float := binary_normalize prec emax z 0 false.
Definition of_double (x : double) : float := SFconv prec emax x.
Definition mul : float -> float -> float := SFmul prec emax.
Definition div : float -> float -> float := SFdiv prec emax.
Definition ltb : float -> float -> bool := SFltb.
Definition zero : float := S754_zero false.
End F.

(** The sign bit is clear (NaN has none). *)
Definition SFnonneg (x : spec_float) : Prop :=
  match x with
  | S754_zero s | S754_infinity s | S754_finite s _ _ => s = false
  | S754_nan => True
  end.

Definition SFzero_or_nan (x : spec_float) : Prop :=
  match x with
  | S754_zero _ | S754_nan => True
  | _ => False
  end.

(** The exact value of a finite float. *)
Definition SFtoQ (x : spec_float) : option Q :=
  match x with
  | S754_zero _ => Some (inject_Z 0)
  | S754_finite s m e =>
      let v := match e with
               | Zneg p => Qmake (Zpos m) (2 ^ p)
               | _ => inject_Z (Zpos m * 2 ^ e)
               end in
      Some (if s then Qopp v else v)
  | S754_infinity _ | S754_nan => None
  end.

(** ** QDate

    A date is null, or a day of the proleptic Gregorian calendar; there is
    no year 0.  Qt 5 stores the Julian day number and keeps the least
    64-bit integer for the null date, and its comparison operators compare
    these numbers, null dates included; [toJulianDay] below is Qt's
    conversion and the comparisons go through it. *)

Inductive QDate : Type :=
| NullDate
| Date (y m d : Z).

Module QDate.

Definition nullJd : Z := INT64_MIN.
Definition minJd : Z := -784350574879.
Definition maxJd : Z := 784354017364.

Definition isLeapYear (y : Z) : bool :=
  let y := if y <? 1 then y + 1 else y in
  ((y mod 4 =? 0) && negb (y mod 100 =? 0)) || (y mod 400 =? 0).

Definition monthDays (m : Z) : Z :=
  match m with
  | 1 => 31 | 2 => 28 | 3 => 31 | 4 => 30 | 5 => 31 | 6 => 30
  | 7 => 31 | 8 => 31 | 9 => 30 | 10 => 31 | 11 => 30 | 12 => 31
  | _ => 0
  end.

(** [QDate::isValid(int, int, int)] *)
Definition isValidYMD (y m d : Z) : bool :=
  if y =? 0 then false
  else (0 <? d) && (0 <? m) && (m <=? 12)
       && ((d <=? monthDays m) || ((d =? 29) && (m =? 2) && isLeapYear y)).

Definition julianDayFromDate (year month day : Z) : Z :=
  let year := if year <? 0 then year + 1 else year in
  let a := (14 - month) / 12 in
  let y := year + 4800 - a in
  let m := month + 12 * a - 3 in
  day + (153 * m + 2) / 5 + 365 * y + y / 4 - y / 100 + y / 400 - 32045.

Definition getDateFromJulianDay (julianDay : Z) : Z * Z * Z :=
  let a := julianDay + 32044 in
  let b := (4 * a + 3) / 146097 in
  let c := a - (146097 * b) / 4 in
  let d := (4 * c + 3) / 1461 in
  let e := c - (1461 * d) / 4 in
  let m := (5 * e + 2) / 153 in
  let day := e - (153 * m + 2) / 5 + 1 in
  let month := m + 3 - 12 * (m / 10) in
  let year := 100 * b + d - 4800 + m / 10 in
  let year := if year <=? 0 then year - 1 else year in
  (year, month, day).

Definition isValid (dt : QDate) : bool :=
  match dt with NullDate => false | Date _ _ _ => true end.

Definition year (dt : QDate) : Z :=
  match dt with NullDate => 0 | Date y _ _ => y end.
Definition month (dt : QDate) : Z :=
  match dt with NullDate => 0 | Date _ m _ => m end.
Definition day (dt : QDate) : Z :=
  match dt with NullDate => 0 | Date _ _ d => d end.

(** [QDate::setDate]: the receiver becomes the given day, or null when
    there is no such day. *)
Definition setDate (y m d : Z) : QDate :=
  if isValidYMD y m d then Date y m d else NullDate.

Definition toJulianDay (dt : QDate) : Z :=
  match dt with
  | NullDate => nullJd
  | Date y m d => julianDayFromDate y m d
  end.

Definition fromJulianDay (jd : Z) : QDate :=
  if (minJd <=? jd) && (jd <=? maxJd)
  then let '(y, m, d) := getDateFromJulianDay jd in Date y m d
  else NullDate.

Definition daysInMonth (y m : Z) : Z :=
  if (m =? 2) && isLeapYear y then 29 else monthDays m.

(** [QDate::addYears]: the same month and day [n] years later, the day
    clamped to the length of the month, skipping the missing year 0. *)
Definition addYears (dt : QDate) (n : Z) : QDate :=
  match dt with
  | NullDate => NullDate
  | Date old_y m d =>
      let y := old_y + n in
      let y := if ((0 <? old_y) && (y <=? 0)) || ((old_y <? 0) && (0 <=? y))
               then (if 0 <? n then y + 1 else y - 1) else y in
      match setDate y m 1 with
      | NullDate => NullDate
      | Date _ _ _ => setDate y m (Z.min d (daysInMonth y m))
      end
  end.

(** [operator<=], [operator>=] and [operator>]. *)
Definition leb (a b : QDate) : bool := toJulianDay a <=? toJulianDay b.
Definition geb (a b : QDate) : bool := toJulianDay b <=? toJulianDay a.
Definition gtb (a b : QDate) : bool := toJulianDay b <? toJulianDay a.

Definition digit (c : ascii) : option Z :=
  let n := Z.of_nat (nat_of_ascii c) in
  if (48 <=? n) && (n <=? 57) then Some (n - 48) else None.

Definition number2 (a b : ascii) : option Z :=
  match digit a, digit b with
  | Some x, Some y => Some (10 * x + y)
  | _, _ => None
  end.

Definition number4 (a b c d : ascii) : option Z :=
  match number2 a b, number2 c d with
  | Some x, Some y => Some (100 * x + y)
  | _, _ => None
  end.

(** [QDate::fromString(s, "MM.dd yyyy")]: two digits, a dot, two digits,
    a space and four digits that name a day of the calendar; anything
    else gives the null date. *)
Definition fromString (s : string) : QDate :=
  match s with
  | String m1 (String m2 (String p (String d1 (String d2
      (String sp (String y1 (String y2 (String y3 (String y4 EmptyString))))))))) =>
      if Ascii.eqb p "." && Ascii.eqb sp " " then
        match number2 m1 m2, number2 d1 d2, number4 y1 y2 y3 y4 with
        | Some m, Some d, Some y => setDate y m d
        | _, _, _ => NullDate
        end
      else NullDate
  | _ => NullDate
  end.

(** The year that a four-digit text names. *)
Definition year_text (ys : string) : option Z :=
  match ys with
  | String y1 (String y2 (String y3 (String y4 EmptyString))) =>
      number4 y1 y2 y3 y4
  | _ => None
  end.

End QDate.

(** ** QString and QVariant *)

Module QString.

Definition isEmpty (s : string) : bool :=
  match s with EmptyString => true | String _ _ => false end.

(** [QString::number(int)] *)
Definition number (n : Z) : string := NilZero.string_of_int (Z.to_int n).

Definition is_space (c : ascii) : bool :=
  let n := Z.of_nat (nat_of_ascii c) in
  (n =? 32) || ((9 <=? n) && (n <=? 13)).

Fixpoint skip_spaces (s : string) : string :=
  match s with
  | String c s' => if is_space c then skip_spaces s' else s
  | EmptyString => s
  end.

Fixpoint all_spaces (s : string) : bool :=
  match s with
  | String c s' => is_space c && all_spaces s'
  | EmptyString => true
  end.

Fixpoint read_digits (s : string) (acc : Z) (seen : bool) : option Z :=
  match s with
  | EmptyString => if seen then Some acc else None
  | String c s' =>
      match QDate.digit c with
      | Some d => read_digits s' (10 * acc + d) true
      | None => if seen && all_spaces s then Some acc else None
      end
  end.

(** [QString::toInt(bool *ok)], base 10: blanks around an optionally
    signed string of digits whose value is an [int].  [None] is
    [ok = false], in which case the call returns 0. *)
Definition toInt (s : string) : option Z :=
  let s := skip_spaces s in
  let '(neg, body) :=
    match s with
    | String c r =>
        if Ascii.eqb c "-" then (true, r)
        else if Ascii.eqb c "+" then (false, r) else (false, s)
    | EmptyString => (false, s)
    end in
  match read_digits body 0 false with
  | Some v => let v := if neg then - v else v in
              if in_int v then Some v else None
  | None => None
  end.

(** [QString::split("-")], empty parts kept. *)
Fixpoint split_dash (s : string) : list string :=
  match s with
  | EmptyString => [EmptyString]
  | String c s' =>
      if Ascii.eqb c "-" then EmptyString :: split_dash s'
      else match split_dash s' with
           | h :: t => String c h :: t
           | [] => [String c EmptyString]
           end
  end.

End QString.

(** A [QVariant] as the JSON catalog produces it; a [QVariantMap] is a
    finite map from keys to variants. *)
#[warnings="-register-all"]
Inductive QVariant : Type :=
| VInvalid
| VInt (z : Z)
| VString (s : string)
| VList (l : list QVariant)
| VMap (m : gmap string QVariant).

Module QVariant.

Definition toInt (v : QVariant) : Z :=
  match v with
  | VInt z => wrap32 z
  | VString s => default 0 (QString.toInt s)
  | _ => 0
  end.

Definition toString (v : QVariant) : string :=
  match v with
  | VString s => s
  | VInt z => QString.number z
  | _ => EmptyString
  end.

Definition toList (v : QVariant) : list QVariant :=
  match v with VList l => l | _ => [] end.

Definition toMap (v : QVariant) : gmap string QVariant :=
  match v with VMap m => m | _ => ∅ end.

End QVariant.

(** [QVariantMap::contains] and [QVariantMap::value]. *)
Definition contains (map : gmap string QVariant) (key : string) : bool :=
  bool_decide (is_Some (map !! key)).

Definition value (map : gmap string QVariant) (key : string) : QVariant :=
  default VInvalid (map !! key).

(** ** Activity windows *)

Record Activity : Type := {
  year : Z;
  zhr : Z;
  variable : list Z;
  start : QDate;
  finish : QDate;
  peak : QDate
}.

(** [Activity()], value-initialised. *)
Definition Activity_default : Activity :=
  {| year := 0; zhr := 0; variable := [];
     start := NullDate; finish := NullDate; peak := NullDate |}.

Definition dates_valid (a : Activity) : bool :=
  QDate.isValid (start a) && QDate.isValid (finish a) && QDate.isValid (peak a).

(** ** What the plug-in takes from its surroundings

    - [qExp], [qPow], [qRound]: Qt's numerical helpers ([qRound] on a
      [float], the other two on [double]);
    - [getDecAngle]: [StelUtils::getDecAngle], a sexagesimal string to
      radians; [toFloat]: [QVariant::toFloat];
    - [RAND_MAX] and the process-wide generator behind [qrand];
    - [MeteorObj]: the meteor entity, its constructor (which may draw from
      the generator), [isAlive] and [update];
    - [m_activity_unset]: what the member [m_activity] holds until
      [update] first assigns it.  The constructor does not initialise the
      member and the declaration of [Activity] is in the header, outside
      the sources, so the value is left open. *)
Class Platform : Type := {
  qExp : double -> double;
  qPow : double -> double -> double;
  qRound : float -> Z;
  getDecAngle : string -> double;
  toFloat : QVariant -> float;
  RAND_MAX : Z;
  Rng : Type;
  qrand : Rng -> Z * Rng;
  MeteorObj : Type;
  MeteorObj_new :
    Z -> float -> float -> float -> list (string * Z) -> Rng -> MeteorObj * Rng;
  MeteorObj_isAlive : MeteorObj -> bool;
  MeteorObj_update : MeteorObj -> double -> MeteorObj * bool;
  m_activity_unset : Activity
}.

(** ** The shower *)

Inductive Status : Type :=
| INVALID | UNDEFINED | INACTIVE | ACTIVE_GENERIC | ACTIVE_CONFIRMED.

#[global] Instance Status_eq_dec : EqDecision Status.
Proof. solve_decision. Defined.

Definition genericYear : Z := 1000.

(** The parts of [StelCore] and of the manager that a tick reads. *)
Record StelCore : Type := {
  getJD : double;
  getRealTimeSpeed : bool
}.

Record MeteorShowersMgr : Type := {
  getActiveRadiantOnly : bool
}.

(** The fields of the class; [M] is the type of the meteor entities. *)
Record MeteorShower (M : Type) : Type := {
  m_status : Status;
  m_showerID : string;
  m_designation : string;
  m_speed : Z;
  m_rAlphaPeak : float;
  m_rDeltaPeak : float;
  m_driftAlpha : float;
  m_driftDelta : float;
  m_parentObj : string;
  m_pidx : float;
  m_radiantAlpha : float;
  m_radiantDelta : float;
  m_activities : list Activity;
  m_activity : Activity;
  m_colors : list (string * Z);
  m_activeMeteors : list M
}.
Arguments m_status {M} _.
Arguments m_showerID {M} _.
Arguments m_designation {M} _.
Arguments m_speed {M} _.
Arguments m_rAlphaPeak {M} _.
Arguments m_rDeltaPeak {M} _.
Arguments m_driftAlpha {M} _.
Arguments m_driftDelta {M} _.
Arguments m_parentObj {M} _.
Arguments m_pidx {M} _.
Arguments m_radiantAlpha {M} _.
Arguments m_radiantDelta {M} _.
Arguments m_activities {M} _.
Arguments m_activity {M} _.
Arguments m_colors {M} _.
Arguments m_activeMeteors {M} _.

(** A shower whose meteors are those of the platform. *)
Abbreviation Shower := (MeteorShower MeteorObj).

Section Shower.

Context {P : Platform}.

Definition set_status (s : Shower) (st : Status) : Shower :=
  {| m_status := st; m_showerID := m_showerID s;
     m_designation := m_designation s; m_speed := m_speed s;
     m_rAlphaPeak := m_rAlphaPeak s; m_rDeltaPeak := m_rDeltaPeak s;
     m_driftAlpha := m_driftAlpha s; m_driftDelta := m_driftDelta s;
     m_parentObj := m_parentObj s; m_pidx := m_pidx s;
     m_radiantAlpha := m_radiantAlpha s; m_radiantDelta := m_radiantDelta s;
     m_activities := m_activities s; m_activity := m_activity s;
     m_colors := m_colors s; m_activeMeteors := m_activeMeteors s |}.

Definition set_activities (s : Shower) (l : list Activity) : Shower :=
  {| m_status := m_status s; m_showerID := m_showerID s;
     m_designation := m_designation s; m_speed := m_speed s;
     m_rAlphaPeak := m_rAlphaPeak s; m_rDeltaPeak := m_rDeltaPeak s;
     m_driftAlpha := m_driftAlpha s; m_driftDelta := m_driftDelta s;
     m_parentObj := m_parentObj s; m_pidx := m_pidx s;
     m_radiantAlpha := m_radiantAlpha s; m_radiantDelta := m_radiantDelta s;
     m_activities := l; m_activity := m_activity s;
     m_colors := m_colors s; m_activeMeteors := m_activeMeteors s |}.

Definition set_activity (s : Shower) (a : Activity) : Shower :=
  {| m_status := m_status s; m_showerID := m_showerID s;
     m_designation := m_designation s; m_speed := m_speed s;
     m_rAlphaPeak := m_rAlphaPeak s; m_rDeltaPeak := m_rDeltaPeak s;
     m_driftAlpha := m_driftAlpha s; m_driftDelta := m_driftDelta s;
     m_parentObj := m_parentObj s; m_pidx := m_pidx s;
     m_radiantAlpha := m_radiantAlpha s; m_radiantDelta := m_radiantDelta s;
     m_activities := m_activities s; m_activity := a;
     m_colors := m_colors s; m_activeMeteors := m_activeMeteors s |}.

Definition set_colors (s : Shower) (c : list (string * Z)) : Shower :=
  {| m_status := m_status s; m_showerID := m_showerID s;
     m_designation := m_designation s; m_speed := m_speed s;
     m_rAlphaPeak := m_rAlphaPeak s; m_rDeltaPeak := m_rDeltaPeak s;
     m_driftAlpha := m_driftAlpha s; m_driftDelta := m_driftDelta s;
     m_parentObj := m_parentObj s; m_pidx := m_pidx s;
     m_radiantAlpha := m_radiantAlpha s; m_radiantDelta := m_radiantDelta s;
     m_activities := m_activities s; m_activity := m_activity s;
     m_colors := c; m_activeMeteors := m_activeMeteors s |}.

Definition set_radiant (s : Shower) (alpha delta : float) : Shower :=
  {| m_status := m_status s; m_showerID := m_showerID s;
     m_designation := m_designation s; m_speed := m_speed s;
     m_rAlphaPeak := m_rAlphaPeak s; m_rDeltaPeak := m_rDeltaPeak s;
     m_driftAlpha := m_driftAlpha s; m_driftDelta := m_driftDelta s;
     m_parentObj := m_parentObj s; m_pidx := m_pidx s;
     m_radiantAlpha := alpha; m_radiantDelta := delta;
     m_activities := m_activities s; m_activity := m_activity s;
     m_colors := m_colors s; m_activeMeteors := m_activeMeteors s |}.

Definition set_activeMeteors (s : Shower) (l : list MeteorObj) : Shower :=
  {| m_status := m_status s; m_showerID := m_showerID s;
     m_designation := m_designation s; m_speed := m_speed s;
     m_rAlphaPeak := m_rAlphaPeak s; m_rDeltaPeak := m_rDeltaPeak s;
     m_driftAlpha := m_driftAlpha s; m_driftDelta := m_driftDelta s;
     m_parentObj := m_parentObj s; m_pidx := m_pidx s;
     m_radiantAlpha := m_radiantAlpha s; m_radiantDelta := m_radiantDelta s;
     m_activities := m_activities s; m_activity := m_activity s;
     m_colors := m_colors s; m_activeMeteors := l |}.

(** *** The constructor *)

(** The object as the member initialisers leave it (lines 34-43): the
    strings and the lists are empty by their own constructors, and
    [m_activity], which is not initialised, holds what it holds. *)
Definition MeteorShower_init : Shower :=
  {| m_status := INVALID; m_showerID := EmptyString;
     m_designation := EmptyString; m_speed := 0;
     m_rAlphaPeak := F.zero; m_rDeltaPeak := F.zero;
     m_driftAlpha := F.zero; m_driftDelta := F.zero;
     m_parentObj := EmptyString; m_pidx := F.zero;
     m_radiantAlpha := F.zero; m_radiantDelta := F.zero;
     m_activities := []; m_activity := m_activity_unset;
     m_colors := []; m_activeMeteors := [] |}.

(** Lines 46-47. *)
Definition mandatory_missing (map : gmap string QVariant) : bool :=
  negb (contains map "showerID") || negb (contains map "activity")
  || negb (contains map "radiantAlpha") || negb (contains map "radiantDelta").

(** Lines 54-67: the scalar fields; [m_activity] is not written. *)
Definition read_header (map : gmap string QVariant) : Shower :=
  let radiantAlpha :=
    F.of_double (getDecAngle (QVariant.toString (value map "radiantAlpha"))) in
  let radiantDelta :=
    F.of_double (getDecAngle (QVariant.toString (value map "radiantDelta"))) in
  let drift key :=
    F.of_double (D.div (getDecAngle (QVariant.toString (value map key)))
                       (D.of_float (F.of_Z 5))) in
  {| m_status := INVALID;
     m_showerID := QVariant.toString (value map "showerID");
     m_designation := QVariant.toString (value map "designation");
     m_speed := QVariant.toInt (value map "speed");
     m_rAlphaPeak := radiantAlpha; m_rDeltaPeak := radiantDelta;
     m_driftAlpha := drift "driftAlpha"%string;
     m_driftDelta := drift "driftDelta"%string;
     m_parentObj := QVariant.toString (value map "parentObj");
     m_pidx := toFloat (value map "pidx");
     m_radiantAlpha := radiantAlpha; m_radiantDelta := radiantDelta;
     m_activities := []; m_activity := m_activity_unset;
     m_colors := []; m_activeMeteors := [] |}.

(** Lines 85-89: [ok] starts as [size == 2] and each of the two
    iterations appends [toInt(&ok)] of one part. *)
Definition read_variable (variable : list string) : list Z * bool :=
  match variable with
  | [a; b] =>
      match QString.toInt a with
      | None => ([0], false)
      | Some x =>
          match QString.toInt b with
          | None => ([x; 0], false)
          | Some y => ([x; y], true)
          end
      end
  | _ => ([], false)
  end.

(** Lines 105-115, one date field. *)
Definition read_date (activityMap : gmap string QVariant) (key year : string) : QDate :=
  let s := QVariant.toString (value activityMap key) in
  let s := if QString.isEmpty s then EmptyString else (s ++ " " ++ year)%string in
  QDate.fromString s.

(** Lines 117-130. *)
Definition fix_years (d : Activity) : Activity :=
  if dates_valid d then
    let fin := if QDate.gtb (start d) (finish d)
               then QDate.addYears (finish d) 1 else finish d in
    let pk := if QDate.gtb (start d) (peak d)
              then QDate.addYears (peak d) 1 else peak d in
    {| year := year d; zhr := zhr d; variable := variable d;
       start := start d; finish := fin; peak := pk |}
  else d.

(** Lines 77-115 of one turn of the first loop: the window as read,
    before its years are fixed; the flag is false when the constructor
    returns at line 95. *)
Definition raw_activity (ms : QVariant) : Activity * bool :=
  let activityMap := QVariant.toMap ms in
  let z := QVariant.toInt (value activityMap "zhr") in
  let variable :=
    QString.split_dash (QVariant.toString (value activityMap "variable")) in
  let '(var, ok) := if z =? -1 then read_variable variable else ([], true) in
  let y := QVariant.toInt (value activityMap "year") in
  let ystr := QString.number (if y =? 0 then genericYear else y) in
  ({| year := y; zhr := z; variable := var;
      start := read_date activityMap "start" ystr;
      finish := read_date activityMap "finish" ystr;
      peak := read_date activityMap "peak" ystr |}, ok).

(** One turn of the first loop (lines 75-132). *)
Definition read_activity (ms : QVariant) : Activity * bool :=
  let '(d, ok) := raw_activity ms in (fix_years d, ok).

Fixpoint build_activities (l : list QVariant) (acc : list Activity)
  : list Activity * bool :=
  match l with
  | [] => (acc, true)
  | ms :: l' =>
      let '(d, ok) := read_activity ms in
      if ok then build_activities l' (acc ++ [d]) else (acc, false)
  end.

(** Lines 140-150: one window filled from the generic one. *)
Definition fill (g a : Activity) : Activity :=
  let '(z, var) := if zhr a =? 0 then (zhr g, variable g)
                   else (zhr a, variable a) in
  let aux := wrap32 (year a - genericYear) in
  {| year := year a; zhr := z; variable := var;
     start := if QDate.isValid (start a) then start a
              else QDate.addYears (start g) aux;
     finish := if QDate.isValid (finish a) then finish a
               else QDate.addYears (finish g) aux;
     peak := if QDate.isValid (peak a) then peak a
             else QDate.addYears (peak g) aux |}.

(** The second loop (lines 138-160): [n] turns are left, the next one at
    index [i]; the flag is false when the loop returns at line 158. *)
Fixpoint fill_loop (g : Activity) (n i : nat) (acts : list Activity)
  : option (list Activity * bool) :=
  match n with
  | O => Some (acts, true)
  | S n' =>
      a0 ← acts !! i;
      let a := fill g a0 in
      let acts := <[i := a]> acts in
      if dates_valid a then fill_loop g n' (S i) acts
      else Some (acts, false)
  end.

(** Lines 162-185. *)
Definition read_colors (map : gmap string QVariant) : list (string * Z) :=
  let colors :=
    if contains map "colors" then
      let l := QVariant.toList (value map "colors") in
      let pairs :=
        (fun ms => let colorMap := QVariant.toMap ms in
                   (QVariant.toString (value colorMap "color"),
                    QVariant.toInt (value colorMap "intensity"))) <$> l in
      let totalIntensity :=
        foldl (fun t p => wrap32 (t + p.2)) 0 pairs in
      if totalIntensity =? 100 then pairs else []
    else [] in
  match colors with
  | [] => [("white"%string, 100)]
  | _ => colors
  end.

(** [MeteorShower::MeteorShower].  [None] is the read of
    [m_activities.at(0)] on an empty list (line 136). *)
Definition MeteorShower_new (map : gmap string QVariant) : option Shower :=
  if mandatory_missing map then Some MeteorShower_init
  else
    let s := read_header map in
    let '(acts, ok) :=
      build_activities (QVariant.toList (value map "activity")) [] in
    let s := set_activities s acts in
    if negb ok then Some s
    else
      g ← acts !! 0%nat;
      r ← fill_loop g (length acts - 1) 1 acts;
      let '(acts, ok) := r in
      let s := set_activities s acts in
      if negb ok then Some s
      else Some (set_status (set_colors s (read_colors map)) UNDEFINED).

(** *** [enabled] *)

Definition enabled (mgr : MeteorShowersMgr) (s : Shower) : bool :=
  if bool_decide (m_status s = INVALID) then false
  else if bool_decide (m_status s = UNDEFINED) then true
  else if getActiveRadiantOnly mgr then
    bool_decide (m_status s = ACTIVE_GENERIC)
    || bool_decide (m_status s = ACTIVE_CONFIRMED)
  else true.

(** *** [getDesignation] *)

(** Lines 480-487.  [toInt()] without its flag is 0 for a text that is
    no number, and the test is on that value. *)
Definition getDesignation (s : Shower) : string :=
  if negb (default 0 (QString.toInt (m_showerID s)) =? 0) then EmptyString
  else m_showerID s.

(** *** The activity resolver *)

(** Does the inclusive range of the window hold the date? (line 431) *)
Definition in_window (date : QDate) (a : Activity) : bool :=
  QDate.geb date (start a) && QDate.leb date (finish a).

(** The loop of [hasConfirmedShower]: [n] turns left, the next at index
    [i].  [found] is the reference parameter: written on a match only. *)
Fixpoint confirmed_loop (acts : list Activity) (date : QDate) (n i : nat)
  (found : bool) : option (Activity * bool) :=
  match n with
  | O => Some (Activity_default, found)
  | S n' =>
      a ← acts !! i;
      if in_window date a then Some (a, true)
      else confirmed_loop acts date n' (S i) found
  end.

Definition hasConfirmedShower (acts : list Activity) (date : QDate)
  (found : bool) : option (Activity * bool) :=
  confirmed_loop acts date (length acts - 1) 1 found.

(** [hasGenericShower]; [found] is assigned on every path, so it is only
    a result here.  [g] is the local copy that the source overwrites
    step by step: the second attempt reads the month and the day of the
    dates left by the first. *)
Definition hasGenericShower (acts : list Activity) (date : QDate)
  : option (Activity * bool) :=
  g ← acts !! 0%nat;
  let y := QDate.year date in
  let peakOnStart := QDate.year (peak g) =? QDate.year (start g) in
  let '(gstart, gfinish, found) :=
    if negb (QDate.year (start g) =? QDate.year (finish g)) then
      let s1 := QDate.setDate y (QDate.month (start g)) (QDate.day (start g)) in
      let f1 := QDate.setDate (wrap32 (y + 1))
                  (QDate.month (finish g)) (QDate.day (finish g)) in
      let found := QDate.geb date s1 && QDate.leb date f1 in
      if negb found then
        let s2 := QDate.setDate (wrap32 (y - 1)) (QDate.month s1) (QDate.day s1) in
        let f2 := QDate.setDate y (QDate.month f1) (QDate.day f1) in
        (s2, f2, QDate.geb date s2 && QDate.leb date f2)
      else (s1, f1, found)
    else
      let s1 := QDate.setDate y (QDate.month (start g)) (QDate.day (start g)) in
      let f1 := QDate.setDate y (QDate.month (finish g)) (QDate.day (finish g)) in
      (s1, f1, QDate.geb date s1 && QDate.leb date f1) in
  if found then
    Some ({| year := QDate.year gstart; zhr := zhr g; variable := variable g;
             start := gstart; finish := gfinish;
             peak := QDate.setDate
                       (if peakOnStart then QDate.year gstart
                        else QDate.year gfinish)
                       (QDate.month (peak g)) (QDate.day (peak g)) |}, true)
  else Some (Activity_default, false).

(** Lines 229-244 of [update]: the new status and activity. *)
Definition resolve (acts : list Activity) (currentDate : QDate)
  : option (Status * Activity) :=
  match hasConfirmedShower acts currentDate false with
  | None => None
  | Some (a, true) => Some (ACTIVE_CONFIRMED, a)
  | Some (_, false) =>
      match hasGenericShower acts currentDate with
      | None => None
      | Some (a, true) => Some (ACTIVE_GENERIC, a)
      | Some (a, false) => Some (INACTIVE, a)
      end
  end.

(** *** The rate model *)

Definition julian (dt : QDate) : double := D.of_Z (QDate.toJulianDay dt).

(** [calculateZHR] on the current activity; [None] is [variable.at]
    outside the list. *)
Definition calculateZHR (a : Activity) (currentJD : double) : option Z :=
  let startJD := julian (start a) in
  let finishJD := julian (finish a) in
  let peakJD := julian (peak a) in
  let sd : float :=
    if D.geb currentJD startJD && D.ltb currentJD peakJD
    then F.of_double (D.div (D.sub peakJD startJD) (D.of_float (F.of_Z 2)))
    else F.of_double (D.div (D.sub finishJD peakJD) (D.of_float (F.of_Z 2))) in
  maxZHR ← (if zhr a =? -1 then F.of_Z <$> variable a !! 1%nat
            else Some (F.of_Z (zhr a)));
  minZHR ← (if zhr a =? -1 then F.of_Z <$> variable a !! 0%nat
            else Some (F.of_Z 0));
  let gaussian : float :=
    F.of_double
      (D.add
         (D.mul (D.of_float maxZHR)
            (qExp (D.div (D.opp (qPow (D.sub currentJD peakJD) (D.of_Z 2)))
                         (D.of_float (F.mul sd sd)))))
         (D.of_float minZHR)) in
  Some (qRound gaussian).

(** *** [update] *)

(** Lines 263-269.  The list holds pointers that are pairwise different,
    so [removeOne(m)] removes the entry being visited; the loop runs over
    a copy of the list. *)
Fixpoint age_meteors (l : list MeteorObj) (deltaTime : double) : list MeteorObj :=
  match l with
  | [] => []
  | m :: l' =>
      let '(m', alive) := MeteorObj_update m deltaTime in
      if alive then m' :: age_meteors l' deltaTime
      else age_meteors l' deltaTime
  end.

(** Lines 293-305: [n] draws are left. *)
Fixpoint spawn_loop (n : nat) (rate : float) (s : Shower) (rng : Rng)
  : Shower * Rng :=
  match n with
  | O => (s, rng)
  | S n' =>
      let '(r, rng) := qrand rng in
      let prob := F.div (F.of_Z r) (F.of_Z RAND_MAX) in
      if F.ltb prob rate then
        let '(m, rng) :=
          MeteorObj_new (m_speed s) (m_radiantAlpha s) (m_radiantDelta s)
            (m_pidx s) (m_colors s) rng in
        let s := if MeteorObj_isAlive m
                 then set_activeMeteors s (m_activeMeteors s ++ [m]) else s in
        spawn_loop n' rate s rng
      else spawn_loop n' rate s rng
  end.

(** Lines 253-260. *)
Definition fix_radiant (s : Shower) (currentJD : double) : Shower :=
  if bool_decide (m_status s <> INACTIVE) then
    let daysToPeak := D.sub currentJD (julian (peak (m_activity s))) in
    set_radiant s
      (F.of_double (D.add (D.of_float (m_rAlphaPeak s))
                          (D.mul (D.of_float (m_driftAlpha s)) daysToPeak)))
      (F.of_double (D.add (D.of_float (m_rDeltaPeak s))
                          (D.mul (D.of_float (m_driftDelta s)) daysToPeak)))
  else set_radiant s (m_rAlphaPeak s) (m_rDeltaPeak s).

(** Lines 286-292: the mean number of meteors of the frame, the number
    of draws and the threshold of each draw. *)
Definition meteorsPerFrame (currentZHR : Z) (deltaTime : double) : float :=
  F.of_double (D.div (D.mul (D.of_Z currentZHR) deltaTime)
                     (D.of_float (F.of_Z 3600))).

Definition maxThisFrame (mpf : float) : Z :=
  let maxMpf := qRound mpf in
  if maxMpf <? 1 then 1 else maxMpf.

Definition update (mgr : MeteorShowersMgr) (core : StelCore) (deltaTime : double)
  (s : Shower) (rng : Rng) : option (Shower * Rng) :=
  if bool_decide (m_status s = INVALID) then Some (s, rng)
  else
    let currentJD := getJD core in
    let currentDate := QDate.fromJulianDay (D.to_int64 currentJD) in
    r ← resolve (m_activities s) currentDate;
    let s := set_activity (set_status s r.1) r.2 in
    if negb (enabled mgr s) then Some (s, rng)
    else
      let s := fix_radiant s currentJD in
      let s := set_activeMeteors s (age_meteors (m_activeMeteors s) deltaTime) in
      if negb (getRealTimeSpeed core) then Some (s, rng)
      else
        currentZHR ← calculateZHR (m_activity s) currentJD;
        if currentZHR <? 1 then Some (s, rng)
        else
          let mpf := meteorsPerFrame currentZHR deltaTime in
          let maxMpf := maxThisFrame mpf in
          let rate := F.div mpf (F.of_Z maxMpf) in
          Some (spawn_loop (Z.to_nat maxMpf) rate s rng).

(** *** A sequence of ticks *)

Record Tick : Type := {
  tick_mgr : MeteorShowersMgr;
  tick_core : StelCore;
  tick_deltaTime : double
}.

Fixpoint run (ticks : list Tick) (s : Shower) (rng : Rng)
  : option (Shower * Rng) :=
  match ticks with
  | [] => Some (s, rng)
  | t :: ticks' =>
      r ← update (tick_mgr t) (tick_core t) (tick_deltaTime t) s rng;
      run ticks' r.1 r.2
  end.

(** *** Notions of the specification *)

(** The windows of a record as the first loop leaves them. *)
Definition windows (map : gmap string QVariant) : list Activity :=
  (fun ms => (read_activity ms).1) <$> QVariant.toList (value map "activity").

(** "Exactly two integers": two parts around one dash, both numbers. *)
Definition two_integers (s : string) : Prop :=
  exists a b x y, QString.split_dash s = [a; b]
                  /\ QString.toInt a = Some x /\ QString.toInt b = Some y.

(** A sub-record with [zhr == -1] whose [variable] is not two integers. *)
Definition malformed_variable (ms : QVariant) : Prop :=
  QVariant.toInt (value (QVariant.toMap ms) "zhr") = -1
  /\ ~ two_integers (QVariant.toString (value (QVariant.toMap ms) "variable")).

(** A window other than the generic one still has an invalid date once
    filled from the generic one. *)
Definition unresolved_date (map : gmap string QVariant) : Prop :=
  exists g (i : nat) a,
    (1 <= i)%nat /\ windows map !! 0%nat = Some g /\ windows map !! i = Some a
    /\ dates_valid (fill g a) = false.

(** Some window, the generic one included, has an invalid date. *)
Definition some_invalid_date (l : list Activity) : Prop :=
  exists (i : nat) a, l !! i = Some a /\ dates_valid a = false.

(** The window at index [i] is the first confirmed one that holds the
    date. *)
Definition first_confirmed (acts : list Activity) (date : QDate)
  (i : nat) (a : Activity) : Prop :=
  (1 <= i)%nat /\ acts !! i = Some a /\ in_window date a = true
  /\ forall (j : nat) b, (1 <= j < i)%nat -> acts !! j = Some b ->
                         in_window date b = false.

(** No confirmed window holds the date. *)
Definition no_confirmed (acts : list Activity) (date : QDate) : Prop :=
  forall (i : nat) a, (1 <= i)%nat -> acts !! i = Some a ->
                      in_window date a = false.

(** The month and day of a date, in another year. *)
Definition project (d : QDate) (y : Z) : QDate :=
  QDate.setDate y (QDate.month d) (QDate.day d).

(** The calendar has no year 0: the year before the year 1 is the year -1,
    and the year after the year -1 is the year 1. *)
Definition year_before (y : Z) : Z := if y =? 1 then -1 else y - 1.

Definition year_after (y : Z) : Z := if y =? -1 then 1 else y + 1.

(** The generic resolution as the specification words it: the template
    [g] is projected on the pair of years of each alignment in turn, and an
    alignment is accepted when its two dates exist and the inclusive range
    between them holds the date.  The years are those of the calendar, not
    machine integers. *)
Definition generic_window (g : Activity) (date : QDate) : Activity * bool :=
  let y := QDate.year date in
  let align ys yf := (project (start g) ys, project (finish g) yf) in
  let holds (w : QDate * QDate) :=
    QDate.isValid w.1 && QDate.isValid w.2
    && QDate.geb date w.1 && QDate.leb date w.2 in
  let choice :=
    if negb (QDate.year (start g) =? QDate.year (finish g)) then
      if holds (align y (year_after y)) then Some (align y (year_after y))
      else if holds (align (year_before y) y) then Some (align (year_before y) y)
      else None
    else
      if holds (align y y) then Some (align y y) else None in
  match choice with
  | Some (s, f) =>
      ({| year := QDate.year s; zhr := zhr g; variable := variable g;
          start := s; finish := f;
          peak := project (peak g)
                    (if QDate.year (peak g) =? QDate.year (start g)
                     then QDate.year s else QDate.year f) |}, true)
  | None => (Activity_default, false)
  end.

(** The rate model as the specification words it: half the span between
    two dates, the side of the curve a time lies on, and the rounded
    Gaussian on a floor. *)
Definition half_span (from to : QDate) : float :=
  F.of_double (D.div (D.sub (julian to) (julian from)) (D.of_float (F.of_Z 2))).

Definition spread (a : Activity) (t : double) : float :=
  if D.ltb t (julian (peak a)) then half_span (start a) (peak a)
  else half_span (peak a) (finish a).

(** The deviation that the code takes: the rising one from the start of
    the window up to the peak, the falling one at any other time, also
    before the start. *)
Definition spread_from_start (a : Activity) (t : double) : float :=
  if D.geb t (julian (start a)) then spread a t
  else half_span (peak a) (finish a).

Definition gaussian_rate (floor amplitude sd : float) (peakJD t : double) : Z :=
  qRound
    (F.of_double
       (D.add (D.of_float floor)
          (D.mul (D.of_float amplitude)
             (qExp (D.div (D.opp (qPow (D.sub t peakJD) (D.of_Z 2)))
                          (D.of_float (F.mul sd sd))))))).

(** The rate of a window can be read: a variable window carries its
    range. *)
Definition rate_readable (a : Activity) : Prop :=
  zhr a = -1 -> (2 <= length (variable a))%nat.

(** [qrand] returns a number between 0 and [RAND_MAX]. *)
Definition rng_in_range : Prop :=
  forall g : Rng, 0 <= (qrand g).1 <= RAND_MAX.

(** The current time of a tick as a calendar date (lines 226-227). *)
Definition currentDate (core : StelCore) : QDate :=
  QDate.fromJulianDay (D.to_int64 (getJD core)).

(** One draw of the spawning loop, for the value [r] of [qrand]. *)
Definition draw_spawns (rate : float) (r : Z) : bool :=
  F.ltb (F.div (F.of_Z r) (F.of_Z RAND_MAX)) rate.

(** The draws of the spawning loop: the value of each one and the meteor
    it creates, if any. *)
Fixpoint spawn_log (n : nat) (rate : float) (s : Shower) (rng : Rng)
  : list (Z * option MeteorObj) :=
  match n with
  | O => []
  | S n' =>
      let '(r, rng) := qrand rng in
      if draw_spawns rate r then
        let '(m, rng) :=
          MeteorObj_new (m_speed s) (m_radiantAlpha s) (m_radiantDelta s)
            (m_pidx s) (m_colors s) rng in
        (r, Some m) :: spawn_log n' rate s rng
      else (r, None) :: spawn_log n' rate s rng
  end.

(** The generator after the draws of the log: each of the [n] rounds calls
    [qrand] once, and the meteor it creates, if any, draws what it needs. *)
Fixpoint spawn_rng (n : nat) (rate : float) (s : Shower) (rng : Rng) : Rng :=
  match n with
  | O => rng
  | S n' =>
      let '(r, rng) := qrand rng in
      if draw_spawns rate r then
        let '(_, rng) :=
          MeteorObj_new (m_speed s) (m_radiantAlpha s) (m_radiantDelta s)
            (m_pidx s) (m_colors s) rng in
        spawn_rng n' rate s rng
      else spawn_rng n' rate s rng
  end.

(** The meteors of a log that pass their viability check. *)
Fixpoint viable (log : list (Z * option MeteorObj)) : list MeteorObj :=
  match log with
  | [] => []
  | (_, Some m) :: log' =>
      if MeteorObj_isAlive m then m :: viable log' else viable log'
  | (_, None) :: log' => viable log'
  end.

(** Status and radiant, what a renderer sees of a shower. *)
Definition observed (s : Shower) : Status * float * float :=
  (m_status s, m_radiantAlpha s, m_radiantDelta s).

(** Two states of one shower: the same windows, peak radiant and drift. *)
Definition same_catalog (s s' : Shower) : Prop :=
  m_activities s' = m_activities s
  /\ m_rAlphaPeak s' = m_rAlphaPeak s /\ m_rDeltaPeak s' = m_rDeltaPeak s
  /\ m_driftAlpha s' = m_driftAlpha s /\ m_driftDelta s' = m_driftDelta s.

(** The values a draw can take, and how many of them spawn a meteor. *)
Definition draw_values : list Z := seqZ 0 (RAND_MAX + 1).

Definition spawning_draws (rate : float) : Z :=
  Z.of_nat (length (List.filter (draw_spawns rate) draw_values)).

(** The mean number of meteors that [n] draws create when every value of
    [qrand] is as likely as any other. *)
Definition mean_spawned (n : Z) (rate : float) : Q :=
  Qmake (n * spawning_draws rate) (Z.to_pos (RAND_MAX + 1)).

(** The window [a'] is the window [a], read from the sub-record [ms],
    with its gaps filled from the generic window [g]. *)
Definition gap_filled (g : Activity) (ms : QVariant) (a a' : Activity) : Prop :=
  let m := QVariant.toMap ms in
  let z := QVariant.toInt (value m "zhr") in
  let y := QVariant.toInt (value m "year") in
  let aux := wrap32 (y - genericYear) in
  let own key :=
    read_date m key (QString.number (if y =? 0 then genericYear else y)) in
  (z = 0 -> zhr a' = zhr g /\ variable a' = variable g)
  /\ (z <> 0 -> zhr a' = z /\ variable a' = variable a)
  /\ (QDate.isValid (own "start"%string) = false ->
      start a' = QDate.addYears (start g) aux)
  /\ (QDate.isValid (own "start"%string) = true -> start a' = start a)
  /\ (QDate.isValid (own "finish"%string) = false ->
      finish a' = QDate.addYears (finish g) aux)
  /\ (QDate.isValid (own "finish"%string) = true -> finish a' = finish a)
  /\ (QDate.isValid (own "peak"%string) = false ->
      peak a' = QDate.addYears (peak g) aux)
  /\ (QDate.isValid (own "peak"%string) = true -> peak a' = peak a).

(** The tick that took [s] to [s1] spawned nothing, and any number of
    further ticks of the same kind leave status and radiant as they are
    and add no meteor. *)
Definition settled (tick : Tick) (s s1 : Shower) : Prop :=
  (m_activeMeteors s1 = m_activeMeteors s
   \/ m_activeMeteors s1 = age_meteors (m_activeMeteors s) (tick_deltaTime tick))
  /\ forall n rng', exists sn rngn,
       run (replicate n tick) s1 rng' = Some (sn, rngn)
       /\ observed sn = observed s1
       /\ (length (m_activeMeteors sn) <= length (m_activeMeteors s1))%nat.

(** The spawning step of a tick on which the window [a] was resolved
    with status [st] and the rate came out as [z]: the list of meteors
    and the generator that [update] leaves. *)
Definition thinned (mgr : MeteorShowersMgr) (core : StelCore) (dt : double)
  (s : Shower) (rng : Rng) (st : Status) (a : Activity) (z : Z) : Prop :=
  let aged := age_meteors (m_activeMeteors s) dt in
  let mpf := meteorsPerFrame z dt in
  let maxMpf := Z.max 1 (qRound mpf) in
  let rate := F.div mpf (F.of_Z maxMpf) in
  let log :=
    spawn_log (Z.to_nat maxMpf) rate
      (fix_radiant (set_activity (set_status s st) a) (getJD core)) rng in
  exists s' rng',
    update mgr core dt s rng = Some (s', rng')
    /\ (z < 1 -> m_activeMeteors s' = aged /\ rng' = rng)
    /\ (1 <= z ->
        Z.of_nat (length log) = maxMpf
        /\ Forall (fun e => is_Some e.2 <-> draw_spawns rate e.1 = true) log
        /\ m_activeMeteors s' = aged ++ viable log
        /\ Z.of_nat (length (viable log)) <= maxMpf
        /\ rng' = spawn_rng (Z.to_nat maxMpf) rate
                    (fix_radiant (set_activity (set_status s st) a) (getJD core))
                    rng).

End Shower.

(** ** Further notions *)

(** The sum that the loop of lines 165-172 keeps, in [int] arithmetic. *)
Definition totalIntensity (colors : list (string * Z)) : Z :=
  foldl (fun t p => wrap32 (t + p.2)) 0 colors.

(** No character of the text is a dash. *)
Fixpoint dash_free (s : string) : bool :=
  match s with
  | EmptyString => true
  | String c s' => negb (Ascii.eqb c "-") && dash_free s'
  end.

(** The range of a variable window is two numbers, none negative. *)
Definition range_nonneg (a : Activity) : Prop :=
  zhr a = -1 -> exists lo hi, variable a = [lo; hi] /\ 0 <= lo /\ 0 <= hi.

(** The number that decimal digits write after the number [acc], as a
    list of digits and as a text. *)
Fixpoint uint_value (u : Decimal.uint) (acc : Z) : Z :=
  match u with
  | Decimal.Nil => acc
  | Decimal.D0 l => uint_value l (10 * acc)
  | Decimal.D1 l => uint_value l (10 * acc + 1)
  | Decimal.D2 l => uint_value l (10 * acc + 2)
  | Decimal.D3 l => uint_value l (10 * acc + 3)
  | Decimal.D4 l => uint_value l (10 * acc + 4)
  | Decimal.D5 l => uint_value l (10 * acc + 5)
  | Decimal.D6 l => uint_value l (10 * acc + 6)
  | Decimal.D7 l => uint_value l (10 * acc + 7)
  | Decimal.D8 l => uint_value l (10 * acc + 8)
  | Decimal.D9 l => uint_value l (10 * acc + 9)
  end.

Fixpoint digits_value (s : string) (acc : Z) : option Z :=
  match s with
  | EmptyString => Some acc
  | String c s' =>
      match QDate.digit c with
      | Some d => digits_value s' (10 * acc + d)
      | None => None
      end
  end.

(** A number of the format binary32: zero, or a finite value in the
    canonical form of the format. *)
Definition is_binary32 (x : float) : bool :=
  match x with
  | S754_zero _ => true
  | S754_finite _ _ _ => valid_binary F.prec F.emax x
  | S754_infinity _ | S754_nan => false
  end.

(** A finite number, of either format. *)
Definition SFfinite (x : spec_float) : bool :=
  match x with
  | S754_zero _ | S754_finite _ _ _ => true
  | S754_infinity _ | S754_nan => false
  end.

(** A normal binary32 number above 1 + 2^-14. *)
Definition above_one (rate : float) : Prop :=
  match rate with
  | S754_finite false m e =>
      2 ^ 23 <= Zpos m < 2 ^ 24
      /\ (-23 < e \/ (e = -23 /\ 2 ^ 23 + 2 ^ 9 < Zpos m))
  | _ => False
  end.

Section Exponent.
Context {P : Platform}.

(** The argument of [qExp] in [calculateZHR] (lines 445-458). *)
Definition gaussian_exponent (a : Activity) (t : double) : double :=
  let sd :=
    if D.geb t (julian (start a)) && D.ltb t (julian (peak a))
    then half_span (start a) (peak a) else half_span (peak a) (finish a) in
  D.div (D.opp (qPow (D.sub t (julian (peak a))) (D.of_Z 2)))
        (D.of_float (F.mul sd sd)).

End Exponent.

(** ** A reference platform

    One concrete choice for the fields of [Platform], used to run the code
    on sample records.  [qRound] is Qt 5's definition on [float]; the
    exponential is a truncated series after range reduction, exact at zero;
    [qPow] is only ever called with the exponent 2 and squares its
    argument; angles are read as whole numbers; [RAND_MAX] is the value of
    the Microsoft C library; the generator is the list of its future
    outputs, each reduced to the range; a meteor is the number of ticks it
    still has to live. *)

Module Reference.

Definition F_add : float -> float -> float := SFadd F.prec F.emax.
Definition F_sub : float -> float -> float := SFsub F.prec F.emax.
Definition F_to_int : float -> Z := SFto_int INT_MIN INT_MAX.

(** [d >= 0.0f ? int(d + 0.5f)
               : int(d - float(int(d-1)) + 0.5f) + int(d-1)] *)
Definition qRound (d : float) : Z :=
  let half := F.div (F.of_Z 1) (F.of_Z 2) in
  if SFleb F.zero d then F_to_int (F_add d half)
  else
    let k := F_to_int (F_sub d (F.of_Z 1)) in
    wrap32 (F_to_int (F_add (F_sub d (F.of_Z k)) half) + k).

Fixpoint exp_series (n : nat) (x term acc : double) (k : Z) : double :=
  match n with
  | O => acc
  | S n' =>
      let term := D.div (D.mul term x) (D.of_Z k) in
      exp_series n' x term (D.add acc term) (k + 1)
  end.

Definition qExp (x : double) : double :=
  match x with
  | S754_nan => S754_nan
  | S754_infinity true => S754_zero false
  | S754_infinity false => x
  | S754_zero _ => D.of_Z 1
  | S754_finite _ _ _ =>
      if D.ltb x (D.of_Z (-746)) then S754_zero false
      else if D.ltb (D.of_Z 710) x then S754_infinity false
      else
        let y := D.div x (D.of_Z 1024) in
        let e := exp_series 16 y (D.of_Z 1) (D.of_Z 1) 1 in
        Nat.iter 10 (fun v => D.mul v v) e
  end.

Definition qPow (x y : double) : double := D.mul x x.

Definition getDecAngle (s : string) : double :=
  D.of_Z (default 0 (QString.toInt s)).

Definition toFloat (v : QVariant) : float := F.of_Z (QVariant.toInt v).

Definition qrand (g : list Z) : Z * list Z :=
  match g with
  | [] => (0, [])
  | r :: g' => (r mod 32768, g')
  end.

Definition MeteorObj_update (m : Z) (deltaTime : double) : Z * bool :=
  (m - 1, 0 <? m - 1).

(** Integers that were never set, no range and no date. *)
Definition m_activity_unset : Activity :=
  {| year := -7; zhr := 3; variable := [];
     start := NullDate; finish := NullDate; peak := NullDate |}.

Definition platform : Platform :=
  Build_Platform qExp qPow qRound getDecAngle toFloat 32767
    (list Z) qrand
    Z (fun _ _ _ _ _ g => (2, g)) (fun m => 0 <? m) MeteorObj_update
    m_activity_unset.

End Reference.

(** ** Sample catalog records *)

Module Samples.

Definition window (fields : list (string * QVariant)) : QVariant :=
  VMap (list_to_map fields).

Definition record (id : string) (activity : list QVariant) : gmap string QVariant :=
  list_to_map
    [("showerID"%string, VString id); ("speed"%string, VInt 41);
     ("radiantAlpha"%string, VString "230"); ("radiantDelta"%string, VString "49");
     ("driftAlpha"%string, VString "5"); ("driftDelta"%string, VString "-10");
     ("pidx"%string, VInt 2); ("activity"%string, VList activity)].

(** A shower that spans the new year, with one confirmed return. *)
Definition quadrantids : gmap string QVariant :=
  record "QUA"
    [window [("year"%string, VString "generic"); ("zhr"%string, VInt 120);
             ("start"%string, VString "12.28"); ("finish"%string, VString "01.12");
             ("peak"%string, VString "01.04")];
     window [("year"%string, VString "2014"); ("peak"%string, VString "01.03")]].

(** Example 1 of the specification. *)
Definition january : gmap string QVariant :=
  record "JAN"
    [window [("year"%string, VString "generic"); ("zhr"%string, VInt 10);
             ("start"%string, VString "01.01"); ("finish"%string, VString "01.20");
             ("peak"%string, VString "01.10")]].

(** A variable shower. *)
Definition variable_shower : gmap string QVariant :=
  record "VAR"
    [window [("year"%string, VString "generic"); ("zhr"%string, VInt (-1));
             ("variable"%string, VString "5-20");
             ("start"%string, VString "06.01"); ("finish"%string, VString "06.30");
             ("peak"%string, VString "06.10")]].

(** The generic window carries no date at all. *)
Definition undated : gmap string QVariant :=
  record "UND" [window [("year"%string, VString "generic"); ("zhr"%string, VInt 10)]].

(** The peak is catalogued after the finish. *)
Definition late_peak : gmap string QVariant :=
  record "LATE"
    [window [("year"%string, VString "generic"); ("zhr"%string, VInt 10);
             ("start"%string, VString "01.01"); ("finish"%string, VString "01.20");
             ("peak"%string, VString "01.25")]].

(** A confirmed window that gives its own start and inherits the rest. *)
Definition late_start : gmap string QVariant :=
  record "LST"
    [window [("year"%string, VString "generic"); ("zhr"%string, VInt 10);
             ("start"%string, VString "01.01"); ("finish"%string, VString "01.20");
             ("peak"%string, VString "01.10")];
     window [("year"%string, VString "2015"); ("start"%string, VString "02.01")]].

(** A strong shower, one hundred meteors an hour at the peak. *)
Definition strong : gmap string QVariant :=
  record "STR"
    [window [("year"%string, VString "generic"); ("zhr"%string, VInt 100);
             ("start"%string, VString "08.01"); ("finish"%string, VString "08.20");
             ("peak"%string, VString "08.10")]].

(** A shower of the days before the first Julian day: the day of Julian
    day -10 is the 14 November of the year -4714. *)
Definition ancient : gmap string QVariant :=
  record "ANC"
    [window [("year"%string, VString "generic"); ("zhr"%string, VInt 10);
             ("start"%string, VString "11.14"); ("finish"%string, VString "11.24");
             ("peak"%string, VString "11.15")]].

(** No activity window at all. *)
Definition no_activity : gmap string QVariant := record "NOA" [].

(** The record of [january] without its right ascension. *)
Definition no_alpha : gmap string QVariant := delete "radiantAlpha"%string january.

(** A variable shower whose range is a single number. *)
Definition bad_window : QVariant :=
  window [("year"%string, VString "generic"); ("zhr"%string, VInt (-1));
          ("variable"%string, VString "5");
          ("start"%string, VString "06.01"); ("finish"%string, VString "06.30");
          ("peak"%string, VString "06.10")].

Definition bad_variable : gmap string QVariant := record "BAD" [bad_window].

(** Neither the generic window nor the confirmed one names a peak. *)
Definition no_peak : gmap string QVariant :=
  record "NPK"
    [window [("year"%string, VString "generic"); ("zhr"%string, VInt 10);
             ("start"%string, VString "01.01"); ("finish"%string, VString "01.20")];
     window [("year"%string, VString "2015")]].

(** The windows that the constructor builds from [quadrantids],
    [january] and [strong], and the window that the resolver returns for
    [january] and [strong] in 2015. *)
Definition quadrantids_generic : Activity :=
  {| year := 0; zhr := 120; variable := [];
     start := Date 1000 12 28; finish := Date 1001 1 12; peak := Date 1001 1 4 |}.

Definition january_2015 : Activity :=
  {| year := 2015; zhr := 10; variable := [];
     start := Date 2015 1 1; finish := Date 2015 1 20; peak := Date 2015 1 10 |}.

Definition strong_2015 : Activity :=
  {| year := 2015; zhr := 100; variable := [];
     start := Date 2015 8 1; finish := Date 2015 8 20; peak := Date 2015 8 10 |}.

(** 50.4 seconds and no time at all. *)
Definition dt_50_4 : double := D.div (D.of_Z 504) (D.of_Z 10).
Definition dt_zero : double := S754_zero false.

(** 10.8 seconds. *)
Definition dt_10_8 : double := D.div (D.of_Z 108) (D.of_Z 10).

(** One second at noon of a day of January 2015, every radiant shown. *)
Definition tick_january : Tick :=
  {| tick_mgr := {| getActiveRadiantOnly := false |};
     tick_core := {| getJD := D.of_Z (QDate.toJulianDay (Date 2015 1 5));
                     getRealTimeSpeed := true |};
     tick_deltaTime := D.of_Z 1 |}.

(** Colours whose intensities sum to 90. *)
Definition pale : gmap string QVariant :=
  insert "colors"%string
    (VList [window [("color"%string, VString "red"); ("intensity"%string, VInt 60)];
            window [("color"%string, VString "blue"); ("intensity"%string, VInt 30)]])
    january.

Definition mgr_all : MeteorShowersMgr := {| getActiveRadiantOnly := false |}.
Definition mgr_active_only : MeteorShowersMgr := {| getActiveRadiantOnly := true |}.

(** Noon of the given day, clock running at real-time speed. *)
Definition core_at (dt : QDate) : StelCore :=
  {| getJD := D.of_Z (QDate.toJulianDay dt); getRealTimeSpeed := true |}.

(** The Julian day -10.5, midnight before the noon of the Julian day -10,
    clock running at real-time speed. *)
Definition core_before_epoch : StelCore :=
  {| getJD := D.div (D.of_Z (-21)) (D.of_Z 2); getRealTimeSpeed := true |}.

(** Noon of the given day, the clock not at real-time speed. *)
Definition core_paused (dt : QDate) : StelCore :=
  {| getJD := D.of_Z (QDate.toJulianDay dt); getRealTimeSpeed := false |}.

(** A template dated in a leap year, from its 29 February on. *)
Definition leap_template : Activity :=
  {| year := 2016; zhr := 5; variable := [];
     start := Date 2016 2 29; finish := Date 2016 3 10; peak := Date 2016 3 1 |}.

(** The generic window of [quadrantids], a thousand years later. *)
Definition quadrantids_2000 : Activity :=
  {| year := 2000; zhr := 120; variable := [];
     start := Date 2000 12 28; finish := Date 2001 1 12; peak := Date 2001 1 4 |}.

(** 1.4, the nearest [float]. *)
Definition rate_1_4 : float := S754_finite false 11744051 (-23).

(** Six in the morning of 24 February 2015, Julian day 2457077.75. *)
Definition core_morning : StelCore :=
  {| getJD := D.div (D.of_Z 9828311) (D.of_Z 4); getRealTimeSpeed := true |}.

End Samples.

(** * Properties *)

(** ** Dates *)

Lemma digit_range c x : QDate.digit c = Some x -> 0 <= x <= 9.
Proof.
  unfold QDate.digit. destruct (_ && _) eqn:E; [|done]. intros [= <-]. lia.
Qed.

Lemma digit_space : QDate.digit " " = None.
Proof. reflexivity. Qed.

Lemma number2_range a b x : QDate.number2 a b = Some x -> 0 <= x <= 99.
Proof.
  unfold QDate.number2.
  destruct (QDate.digit a) as [p|] eqn:Ha; [|done].
  destruct (QDate.digit b) as [q|] eqn:Hb; [|done].
  intros [= <-]. apply digit_range in Ha, Hb. lia.
Qed.

Lemma number4_range a b c d x : QDate.number4 a b c d = Some x -> 0 <= x <= 9999.
Proof.
  unfold QDate.number4.
  destruct (QDate.number2 a b) as [p|] eqn:Ha; [|done].
  destruct (QDate.number2 c d) as [q|] eqn:Hb; [|done].
  intros [= <-]. apply number2_range in Ha, Hb. lia.
Qed.

Lemma setDate_Date y m d y' m' d' :
  QDate.setDate y m d = Date y' m' d' ->
  y' = y /\ m' = m /\ d' = d /\ QDate.isValidYMD y m d = true.
Proof.
  unfold QDate.setDate. destruct (QDate.isValidYMD y m d); [|done].
  by intros [= <- <- <-].
Qed.

Lemma fromString_inv s y m d :
  QDate.fromString s = Date y m d ->
  exists m1 m2 d1 d2 y1 y2 y3 y4,
    s = String m1 (String m2 (String "." (String d1 (String d2
          (String " " (String y1 (String y2 (String y3 (String y4 EmptyString)))))))))
    /\ QDate.number2 m1 m2 = Some m /\ QDate.number2 d1 d2 = Some d
    /\ QDate.number4 y1 y2 y3 y4 = Some y
    /\ QDate.isValidYMD y m d = true.
Proof.
  destruct s as [|m1 [|m2 [|p [|d1 [|d2 [|sp [|y1 [|y2 [|y3 [|y4 [|? ?]]]]]]]]]]];
    try discriminate.
  unfold QDate.fromString.
  destruct (Ascii.eqb p ".") eqn:Hp; [|discriminate].
  destruct (Ascii.eqb sp " ") eqn:Hsp; [|discriminate]. simpl.
  apply Ascii.eqb_eq in Hp, Hsp. subst.
  destruct (QDate.number2 m1 m2) as [mm|] eqn:Hm; [|discriminate].
  destruct (QDate.number2 d1 d2) as [dd|] eqn:Hd; [|discriminate].
  destruct (QDate.number4 y1 y2 y3 y4) as [yy|] eqn:Hy; [|discriminate].
  intros H. apply setDate_Date in H as (-> & -> & -> & Hv).
  by exists m1, m2, d1, d2, y1, y2, y3, y4.
Qed.

Lemma number2_digits a b x :
  QDate.number2 a b = Some x -> QDate.digit a <> None /\ QDate.digit b <> None.
Proof.
  unfold QDate.number2.
  destruct (QDate.digit a); [|done]. destruct (QDate.digit b); done.
Qed.

Lemma number4_digits a b c d x :
  QDate.number4 a b c d = Some x ->
  QDate.digit a <> None /\ QDate.digit b <> None
  /\ QDate.digit c <> None /\ QDate.digit d <> None.
Proof.
  unfold QDate.number4.
  destruct (QDate.number2 a b) eqn:H1; [|done].
  destruct (QDate.number2 c d) eqn:H2; [|done].
  apply number2_digits in H1, H2. tauto.
Qed.

Lemma dated_text s ys y m d :
  QDate.fromString (s ++ " " ++ ys) = Date y m d -> QDate.year_text ys = Some y.
Proof.
  intros H. apply fromString_inv in H
    as (m1 & m2 & d1 & d2 & y1 & y2 & y3 & y4 & Hs & Hm & Hd & Hy & _).
  pose proof (number2_digits _ _ _ Hm) as [Dm1 Dm2].
  pose proof (number2_digits _ _ _ Hd) as [Dd1 Dd2].
  pose proof (number4_digits _ _ _ _ _ Hy) as (Dy1 & Dy2 & Dy3 & Dy4).
  assert (forall c, QDate.digit c <> None -> " "%char <> c) as Hsp.
  { intros c Hc <-. by apply Hc. }
  destruct s as [|c1 s]; simpl in Hs; [injection Hs as E _; by apply Hsp in E|].
  destruct s as [|c2 s]; simpl in Hs; [injection Hs as _ E _; by apply Hsp in E|].
  destruct s as [|c3 s]; simpl in Hs; [injection Hs as _ _ E _; discriminate|].
  destruct s as [|c4 s]; simpl in Hs; [injection Hs as _ _ _ E _; by apply Hsp in E|].
  destruct s as [|c5 s]; simpl in Hs; [injection Hs as _ _ _ _ E _; by apply Hsp in E|].
  destruct s as [|c6 s]; simpl in Hs.
  { injection Hs as _ _ _ _ _ E. change (ys = String y1 (String y2 (String y3 (String y4 EmptyString)))) in E. subst ys. done. }
  destruct s as [|c7 s]; simpl in Hs; [injection Hs as _ _ _ _ _ _ E _; by apply Hsp in E|].
  destruct s as [|c8 s]; simpl in Hs; [injection Hs as _ _ _ _ _ _ _ E _; by apply Hsp in E|].
  destruct s as [|c9 s]; simpl in Hs; [injection Hs as _ _ _ _ _ _ _ _ E _; by apply Hsp in E|].
  destruct s as [|c10 s]; simpl in Hs; [injection Hs as _ _ _ _ _ _ _ _ _ E _; by apply Hsp in E|].
  destruct s as [|c11 s]; simpl in Hs; discriminate.
Qed.

Lemma monthDays_le m : QDate.monthDays m <= 31.
Proof.
  unfold QDate.monthDays.
  destruct m as [|p|p]; try lia.
  do 4 (destruct p as [p|p|]; try lia).
Qed.

Lemma isValidYMD_range y m d :
  QDate.isValidYMD y m d = true -> y <> 0 /\ 1 <= m <= 12 /\ 1 <= d <= 31.
Proof.
  unfold QDate.isValidYMD. destruct (y =? 0) eqn:Hy; [done|].
  intros H. apply andb_true_iff in H as [H Hd].
  apply andb_true_iff in H as [H Hm2]. apply andb_true_iff in H as [Hd0 Hm0].
  pose proof (monthDays_le m).
  apply orb_true_iff in Hd as [Hd|Hd].
  - lia.
  - apply andb_true_iff in Hd as [Hd _]. apply andb_true_iff in Hd as [Hd _]. lia.
Qed.

Lemma julianDay_next_year y m d m' d' :
  1 <= y -> 1 <= m <= 12 -> 1 <= d <= 31 -> 1 <= m' <= 12 -> 1 <= d' <= 31 ->
  QDate.julianDayFromDate y m d < QDate.julianDayFromDate (y + 1) m' d'.
Proof.
  intros Hy Hm Hd Hm' Hd'. unfold QDate.julianDayFromDate.
  replace (y <? 0) with false by lia. replace (y + 1 <? 0) with false by lia.
  cbv zeta.
  Z.div_mod_to_equations; lia.
Qed.

Lemma isValidYMD_intro y m d :
  y <> 0 -> 1 <= m <= 12 -> 1 <= d ->
  d <= QDate.monthDays m \/ (d = 29 /\ m = 2 /\ QDate.isLeapYear y = true) ->
  QDate.isValidYMD y m d = true.
Proof.
  intros Hy Hm Hd H. unfold QDate.isValidYMD.
  replace (y =? 0) with false by lia.
  replace (0 <? d) with true by lia. replace (0 <? m) with true by lia.
  replace (m <=? 12) with true by lia. simpl.
  destruct H as [H|(-> & -> & ->)]; [|by rewrite orb_true_r].
  replace (d <=? QDate.monthDays m) with true by lia. done.
Qed.

Lemma monthDays_ge m : 1 <= m <= 12 -> 28 <= QDate.monthDays m.
Proof.
  intros H.
  assert (m = 1 \/ m = 2 \/ m = 3 \/ m = 4 \/ m = 5 \/ m = 6 \/ m = 7 \/ m = 8
          \/ m = 9 \/ m = 10 \/ m = 11 \/ m = 12) as Hc by lia.
  repeat (destruct Hc as [->|Hc]; [simpl; lia|]). subst. simpl. lia.
Qed.

(** One year after a day of our era is the same day of the following
    year, the 29th of February giving way to the 28th. *)
Lemma addYears_one y m d :
  1 <= y -> QDate.isValidYMD y m d = true ->
  exists d', QDate.addYears (Date y m d) 1 = Date (y + 1) m d'
             /\ QDate.isValidYMD (y + 1) m d' = true.
Proof.
  intros Hy Hv. apply isValidYMD_range in Hv as (_ & Hm & Hd).
  pose proof (monthDays_ge m Hm) as Hmd.
  unfold QDate.addYears.
  replace (0 <? y) with true by lia. replace (y + 1 <=? 0) with false by lia.
  replace (y <? 0) with false by lia. simpl.
  assert (QDate.isValidYMD (y + 1) m 1 = true) as H1.
  { apply isValidYMD_intro; lia. }
  unfold QDate.setDate at 1. rewrite H1.
  set (d' := Z.min d (QDate.daysInMonth (y + 1) m)).
  assert (QDate.isValidYMD (y + 1) m d' = true) as H2.
  { subst d'. unfold QDate.daysInMonth.
    destruct ((m =? 2) && QDate.isLeapYear (y + 1)) eqn:E.
    - apply andb_true_iff in E as [Em El]. apply Z.eqb_eq in Em. subst m.
      apply isValidYMD_intro; [lia|lia|lia|].
      destruct (Z.le_gt_cases d 28) as [Hle|Hgt].
      + left. simpl. lia.
      + right. split; [lia|done].
    - apply isValidYMD_intro; [lia|lia|lia|]. left. lia. }
  exists d'. unfold QDate.setDate. rewrite H2. done.
Qed.

Lemma leb_next_year y m d m' d' :
  1 <= y -> QDate.isValidYMD y m d = true -> QDate.isValidYMD (y + 1) m' d' = true ->
  QDate.leb (Date y m d) (Date (y + 1) m' d') = true.
Proof.
  intros Hy H1 H2. apply isValidYMD_range in H1 as (_ & ? & ?).
  apply isValidYMD_range in H2 as (_ & ? & ?).
  unfold QDate.leb. simpl. apply Z.leb_le.
  pose proof (julianDay_next_year y m d m' d'). lia.
Qed.

(** A later date is pushed past an earlier one of the same year. *)
Lemma push_ordered y m d m' d' :
  1 <= y -> QDate.isValidYMD y m d = true -> QDate.isValidYMD y m' d' = true ->
  let s := Date y m d in
  let f := Date y m' d' in
  let f' := if QDate.gtb s f then QDate.addYears f 1 else f in
  QDate.isValid f' = true /\ QDate.leb s f' = true.
Proof.
  intros Hy H1 H2 s f f'. subst s f f'.
  destruct (QDate.gtb (Date y m d) (Date y m' d')) eqn:E.
  - destruct (addYears_one y m' d' Hy H2) as (d'' & -> & H3). split; [done|].
    by apply leb_next_year.
  - split; [done|]. unfold QDate.gtb in E. unfold QDate.leb. lia.
Qed.

Section Construction.

Context {P : Platform}.

Lemma build_activities_flag l acc :
  (build_activities l acc).2 = forallb (fun ms => (read_activity ms).2) l.
Proof.
  revert acc. induction l as [|ms l IH]; intros acc; simpl; [done|].
  destruct (read_activity ms) as [d ok]; simpl.
  destruct ok; simpl; [apply IH | done].
Qed.

Lemma build_activities_ok l acc :
  (build_activities l acc).2 = true ->
  (build_activities l acc).1 = acc ++ ((fun ms => (read_activity ms).1) <$> l).
Proof.
  revert acc. induction l as [|ms l IH]; intros acc; simpl.
  - intros _. by rewrite app_nil_r.
  - destruct (read_activity ms) as [d ok]; simpl.
    destruct ok; simpl; [|done].
    intros H. rewrite IH by done. by rewrite <- app_assoc.
Qed.

Lemma fill_loop_total g n i acts :
  (i + n = length acts)%nat -> is_Some (fill_loop g n i acts).
Proof.
  revert i acts. induction n as [|n IH]; intros i acts Hlen; simpl; [by eexists|].
  destruct (lookup_lt_is_Some_2 acts i) as [a0 Ha0]; [lia|].
  rewrite Ha0. simpl.
  destruct (dates_valid (fill g a0)); [|by eexists].
  apply IH. rewrite length_insert. lia.
Qed.

Lemma fill_loop_length g n i acts acts' ok :
  fill_loop g n i acts = Some (acts', ok) -> length acts' = length acts.
Proof.
  revert i acts. induction n as [|n IH]; intros i acts; simpl.
  - intros [= <- <-]. done.
  - destruct (acts !! i) as [a0|]; simpl; [|done].
    destruct (dates_valid (fill g a0)).
    + intros H. apply IH in H. by rewrite length_insert in H.
    + intros [= <- <-]. by rewrite length_insert.
Qed.

(** A loop that runs to its end has filled every window from [i] on,
    found each of them dated, and left the ones before [i] alone. *)
Lemma fill_loop_ok g n i acts acts' :
  (i + n = length acts)%nat ->
  fill_loop g n i acts = Some (acts', true) ->
  forall j : nat,
    ((j < i)%nat -> acts' !! j = acts !! j)
    /\ ((i <= j)%nat -> acts' !! j = fill g <$> acts !! j)
    /\ (forall a, (i <= j)%nat -> acts !! j = Some a -> dates_valid (fill g a) = true).
Proof.
  revert i acts. induction n as [|n IH]; intros i acts Hlen; simpl.
  - intros [= <-] j. split; [done|]. split.
    + intros Hj. rewrite (lookup_ge_None_2 acts j) by lia. done.
    + intros a Hj Ha. apply lookup_lt_Some in Ha. lia.
  - destruct (acts !! i) as [a0|] eqn:Ha0; simpl; [|done].
    destruct (dates_valid (fill g a0)) eqn:Hv; [|done].
    intros H j.
    destruct (IH (S i) (<[i:=fill g a0]> acts)) with (j := j) as (H1 & H2 & H3);
      [rewrite length_insert; lia | done |].
    split; [|split].
    + intros Hj. rewrite H1 by lia. apply list_lookup_insert_ne. lia.
    + intros Hj. destruct (decide (j = i)) as [->|Hne].
      * rewrite H1 by lia.
        rewrite list_lookup_insert_eq by (apply lookup_lt_Some in Ha0; lia).
        by rewrite Ha0.
      * rewrite H2 by lia. rewrite list_lookup_insert_ne by lia. done.
    + intros a Hj Ha. destruct (decide (j = i)) as [->|Hne].
      * congruence.
      * apply H3; [lia|]. rewrite list_lookup_insert_ne by lia. done.
Qed.

Lemma fill_loop_stops g n i acts acts' ok (j : nat) a :
  (i + n = length acts)%nat ->
  fill_loop g n i acts = Some (acts', ok) ->
  (i <= j)%nat -> acts !! j = Some a -> dates_valid (fill g a) = false ->
  ok = false.
Proof.
  intros Hlen H Hj Ha Hv. destruct ok; [|done].
  destruct (fill_loop_ok _ _ _ _ _ Hlen H j) as (_ & _ & H3).
  rewrite (H3 a Hj Ha) in Hv. done.
Qed.

Lemma MeteorShower_new_unfold map :
  MeteorShower_new map =
    if mandatory_missing map then Some MeteorShower_init
    else
      let l := QVariant.toList (value map "activity") in
      if negb (forallb (fun ms => (read_activity ms).2) l)
      then Some (set_activities (read_header map) (build_activities l []).1)
      else
        g ← windows map !! 0%nat;
        r ← fill_loop g (length (windows map) - 1) 1 (windows map);
        let s := set_activities (set_activities (read_header map) (windows map)) r.1 in
        if negb r.2 then Some s
        else Some (set_status (set_colors s (read_colors map)) UNDEFINED).
Proof.
  unfold MeteorShower_new. destruct (mandatory_missing map); [done|]. simpl.
  pose proof (build_activities_flag (QVariant.toList (value map "activity")) []) as Hf.
  pose proof (build_activities_ok (QVariant.toList (value map "activity")) []) as Ho.
  destruct (build_activities _ _) as [acts ok]. simpl in *. rewrite <- Hf.
  destruct ok; simpl; [|done].
  rewrite (Ho eq_refl). fold (windows map).
  destruct (windows map !! 0%nat) as [g|]; simpl; [|done].
  destruct (fill_loop _ _ _ _) as [[acts' ok']|]; simpl; done.
Qed.

Lemma read_variable_true l :
  (read_variable l).2 = true <->
  exists a b x y, l = [a; b] /\ QString.toInt a = Some x /\ QString.toInt b = Some y.
Proof.
  split.
  - destruct l as [|a [|b [|c l]]]; simpl; try done.
    destruct (QString.toInt a) as [x|] eqn:Ha; simpl; [|done].
    destruct (QString.toInt b) as [y|] eqn:Hb; simpl; [|done].
    intros _. by exists a, b, x, y.
  - intros (a & b & x & y & -> & Ha & Hb). simpl. by rewrite Ha, Hb.
Qed.

Lemma malformed_flag ms : malformed_variable ms -> (read_activity ms).2 = false.
Proof.
  intros [Hz Hv]. unfold read_activity, raw_activity. rewrite Hz. simpl.
  destruct (read_variable _) as [var ok] eqn:E. simpl.
  destruct ok; [|done]. exfalso. apply Hv.
  apply read_variable_true. by rewrite E.
Qed.

Lemma windows_lookup map (i : nat) a :
  windows map !! i = Some a ->
  exists ms, QVariant.toList (value map "activity") !! i = Some ms
             /\ a = (read_activity ms).1.
Proof.
  unfold windows. rewrite list_lookup_fmap.
  destruct (_ !! i) as [ms|]; simpl; [|done]. intros [= <-]. by exists ms.
Qed.

Lemma enabled_invalid mgr s : m_status s = INVALID -> enabled mgr s = false.
Proof. intros H. unfold enabled. by rewrite bool_decide_eq_true_2. Qed.

Lemma update_invalid mgr core dt s rng :
  m_status s = INVALID -> update mgr core dt s rng = Some (s, rng).
Proof. intros H. unfold update. by rewrite bool_decide_eq_true_2. Qed.

Lemma run_invalid ticks s rng :
  m_status s = INVALID -> run ticks s rng = Some (s, rng).
Proof.
  intros H. induction ticks as [|t ticks IH]; simpl; [done|].
  rewrite update_invalid by done. simpl. done.
Qed.

(** Claim C1, with "any activity window" read as any window other than
    the generic one.  A record that lacks one of [showerID], [activity],
    [radiantAlpha], [radiantDelta], or has a sub-record with [zhr == -1]
    whose [variable] is not exactly two integers, or has a window of
    index 1 or more with an invalid date once filled from the generic
    window, is constructed with status INVALID; such a shower is never
    enabled, whatever the settings, and every sequence of ticks leaves
    it exactly as it is. *)
Theorem C1_fails_closed map :
  mandatory_missing map = true
  \/ (exists ms, ms ∈ QVariant.toList (value map "activity") /\ malformed_variable ms)
  \/ unresolved_date map ->
  exists s, MeteorShower_new map = Some s
            /\ m_status s = INVALID
            /\ (forall mgr, enabled mgr s = false)
            /\ (forall ticks rng, run ticks s rng = Some (s, rng)).
Proof.
  intros H.
  assert (exists s, MeteorShower_new map = Some s /\ m_status s = INVALID) as (s & Hs & Hst).
  { rewrite MeteorShower_new_unfold.
    destruct (mandatory_missing map) eqn:Hm; [by eexists|].
    destruct H as [H|[H|H]]; [done| |].
    - destruct H as (ms & Hin & Hbad). simpl.
      assert (forallb (fun ms => (read_activity ms).2)
                (QVariant.toList (value map "activity")) = false) as ->.
      { apply not_true_is_false. intros Hall. rewrite forallb_forall in Hall.
        apply list_elem_of_In in Hin. specialize (Hall _ Hin).
        rewrite (malformed_flag _ Hbad) in Hall. done. }
      simpl. by eexists.
    - simpl. destruct (forallb _ _); simpl; [|by eexists].
      destruct H as (g & i & a & Hi & Hg & Ha & Hv). rewrite Hg. simpl.
      assert ((1 + (length (windows map) - 1))%nat = length (windows map)) as Hlen.
      { apply lookup_lt_Some in Ha. lia. }
      destruct (fill_loop_total g _ _ _ Hlen) as [[acts' ok] Hfl].
      rewrite Hfl. simpl.
      rewrite (fill_loop_stops _ _ _ _ _ _ _ _ Hlen Hfl Hi Ha Hv). simpl.
      by eexists. }
  exists s. split; [done|]. split; [done|]. split.
  - intros mgr. by apply enabled_invalid.
  - intros ticks rng. by apply run_invalid.
Qed.

(** Claim C9.  When the four mandatory fields are present, the
    constructor reads [m_activities.at(0)] out of bounds exactly when
    the [activity] entry converts to the empty list: there is then no
    INVALID record, and with a non-empty list there is always a
    record. *)
Theorem C9_empty_activity_list map :
  mandatory_missing map = false ->
  (MeteorShower_new map = None <-> QVariant.toList (value map "activity") = []).
Proof.
  intros Hm. rewrite MeteorShower_new_unfold, Hm. simpl. split.
  - destruct (forallb _ _); simpl; [|done].
    destruct (windows map !! 0%nat) as [g|] eqn:Hg; simpl.
    + assert ((1 + (length (windows map) - 1))%nat = length (windows map)) as Hlen.
      { apply lookup_lt_Some in Hg. lia. }
      destruct (fill_loop_total g _ _ _ Hlen) as [[acts' ok] ->]. simpl.
      destruct ok; done.
    + intros _. unfold windows in Hg.
      destruct (QVariant.toList (value map "activity")); [done|]. done.
  - intros Hnil. unfold windows. rewrite Hnil. done.
Qed.
Lemma read_date_Date am key ys y m d :
  read_date am key ys = Date y m d ->
  QDate.year_text ys = Some y /\ QDate.isValidYMD y m d = true /\ 0 <= y <= 9999.
Proof.
  unfold read_date. destruct (QString.isEmpty _); [done|].
  intros H. pose proof (dated_text _ _ _ _ _ H) as Hy.
  apply fromString_inv in H as (? & ? & ? & ? & ? & ? & ? & ? & _ & _ & _ & Hn & Hv).
  apply number4_range in Hn. done.
Qed.

(** A window whose three dates were read comes out of the first loop
    with its dates valid, the start not after the finish nor the peak. *)
Lemma read_activity_dated ms :
  dates_valid (raw_activity ms).1 = true ->
  let a := (read_activity ms).1 in
  dates_valid a = true
  /\ QDate.leb (start a) (finish a) = true /\ QDate.leb (start a) (peak a) = true.
Proof.
  unfold read_activity, raw_activity.
  destruct (if _ =? -1 then _ else _) as [var ok]. simpl.
  set (am := QVariant.toMap ms). set (ys := QString.number _).
  unfold fix_years. intros Hv. rewrite Hv. simpl.
  unfold dates_valid in *. simpl in *.
  destruct (read_date am "start" ys) as [|y m d] eqn:Es; [done|].
  destruct (read_date am "finish" ys) as [|y1 m1 d1] eqn:Ef; [done|].
  destruct (read_date am "peak" ys) as [|y2 m2 d2] eqn:Ep; [done|].
  apply read_date_Date in Es as (Hy & Hs & Hr).
  apply read_date_Date in Ef as (Hy1 & Hf & _).
  apply read_date_Date in Ep as (Hy2 & Hp & _).
  assert (y1 = y) by congruence. assert (y2 = y) by congruence. subst y1 y2.
  assert (1 <= y) as Hpos.
  { apply isValidYMD_range in Hs. lia. }
  destruct (push_ordered y m d m1 d1 Hpos Hs Hf) as [V1 L1].
  destruct (push_ordered y m d m2 d2 Hpos Hs Hp) as [V2 L2].
  simpl in *. rewrite V1, V2, L1, L2. done.
Qed.

Lemma fill_dated g a :
  dates_valid a = true ->
  start (fill g a) = start a /\ finish (fill g a) = finish a
  /\ peak (fill g a) = peak a.
Proof.
  unfold dates_valid, fill. intros H.
  apply andb_true_iff in H as [H Hp]. apply andb_true_iff in H as [Hs Hf].
  destruct (if zhr a =? 0 then _ else _) as [z var]. simpl.
  by rewrite Hs, Hf, Hp.
Qed.

(** What a completed construction leaves in [m_activities]. *)
Lemma constructed map s :
  MeteorShower_new map = Some s -> m_status s <> INVALID ->
  m_status s = UNDEFINED
  /\ forallb (fun ms => (read_activity ms).2)
       (QVariant.toList (value map "activity")) = true
  /\ exists g, windows map !! 0%nat = Some g
      /\ m_activities s !! 0%nat = Some g
      /\ length (m_activities s) = length (windows map)
      /\ forall i : nat, (1 <= i)%nat ->
           m_activities s !! i = fill g <$> windows map !! i.
Proof.
  rewrite MeteorShower_new_unfold.
  destruct (mandatory_missing map); [by intros [= <-]|]. simpl.
  destruct (forallb _ _); simpl; [|by intros [= <-]].
  destruct (windows map !! 0%nat) as [g|] eqn:Hg; simpl; [|done].
  destruct (fill_loop _ _ _ _) as [[acts' ok]|] eqn:Hfl; simpl; [|done].
  destruct ok; simpl; [|by intros [= <-]].
  intros [= <-] _. simpl. split; [done|]. split; [done|].
  assert ((1 + (length (windows map) - 1))%nat = length (windows map)) as Hlen.
  { apply lookup_lt_Some in Hg. lia. }
  exists g. split; [done|].
  pose proof (fill_loop_ok _ _ _ _ _ Hlen Hfl) as H.
  split; [|split].
  - destruct (H 0%nat) as (H0 & _). rewrite H0 by lia. done.
  - by apply fill_loop_length in Hfl.
  - intros i Hi. destruct (H i) as (_ & H1 & _). by apply H1.
Qed.


Lemma fix_years_zhr d :
  zhr (fix_years d) = zhr d /\ variable (fix_years d) = variable d
  /\ year (fix_years d) = year d /\ start (fix_years d) = start d.
Proof. unfold fix_years. destruct (dates_valid d); done. Qed.

Lemma fix_years_isValid ms :
  let d := (raw_activity ms).1 in
  QDate.isValid (finish (fix_years d)) = QDate.isValid (finish d)
  /\ QDate.isValid (peak (fix_years d)) = QDate.isValid (peak d).
Proof.
  intros d. destruct (dates_valid d) eqn:Hv.
  - pose proof (read_activity_dated ms Hv) as (Hv' & _).
    unfold read_activity in Hv'. fold d in Hv'.
    destruct (raw_activity ms) as [d0 ok] eqn:E. simpl in *. subst d.
    unfold dates_valid in Hv, Hv'.
    apply andb_true_iff in Hv as [Hv Hp]. apply andb_true_iff in Hv as [Hs Hf].
    apply andb_true_iff in Hv' as [Hv' Hp']. apply andb_true_iff in Hv' as [Hs' Hf'].
    by rewrite Hf, Hp, Hf', Hp'.
  - unfold fix_years. by rewrite Hv.
Qed.

Lemma fill_field g a :
  let aux := wrap32 (year a - genericYear) in
  ((zhr a = 0 -> zhr (fill g a) = zhr g /\ variable (fill g a) = variable g)
   /\ (zhr a <> 0 -> zhr (fill g a) = zhr a /\ variable (fill g a) = variable a))
  /\ ((QDate.isValid (start a) = false -> start (fill g a) = QDate.addYears (start g) aux)
      /\ (QDate.isValid (start a) = true -> start (fill g a) = start a))
  /\ ((QDate.isValid (finish a) = false -> finish (fill g a) = QDate.addYears (finish g) aux)
      /\ (QDate.isValid (finish a) = true -> finish (fill g a) = finish a))
  /\ ((QDate.isValid (peak a) = false -> peak (fill g a) = QDate.addYears (peak g) aux)
      /\ (QDate.isValid (peak a) = true -> peak (fill g a) = peak a)).
Proof.
  intros aux. unfold fill. fold aux.
  destruct (zhr a =? 0) eqn:Hz; simpl.
  - apply Z.eqb_eq in Hz. repeat split; try done; intros H; by rewrite H.
  - apply Z.eqb_neq in Hz. repeat split; try done; intros H; by rewrite H.
Qed.

(** Claim C10.  In a constructed shower the window at index 0 is the
    generic template, whatever its year, and every window of index 1 or
    more takes the rate and the range of the template exactly when its
    own [zhr] reads 0, and each of its three dates from the template,
    moved by [year - 1000] years, exactly when its own date is invalid. *)
Theorem C10_gap_filling map s :
  MeteorShower_new map = Some s -> m_status s <> INVALID ->
  exists g, windows map !! 0%nat = Some g /\
    forall (i : nat) ms,
      (1 <= i)%nat -> QVariant.toList (value map "activity") !! i = Some ms ->
      exists a a', windows map !! i = Some a /\ m_activities s !! i = Some a'
                   /\ gap_filled g ms a a'.
Proof.
  intros Hnew Hst.
  destruct (constructed map s Hnew Hst) as (_ & _ & g & Hg & _ & _ & Hfill).
  exists g. split; [done|]. intros i ms Hi Hms. unfold gap_filled.
  set (m := QVariant.toMap ms). set (z := QVariant.toInt (value m "zhr")).
  set (y := QVariant.toInt (value m "year")).
  set (aux := wrap32 (y - genericYear)).
  set (own := fun key =>
         read_date m key (QString.number (if y =? 0 then genericYear else y))).
  set (a := (read_activity ms).1).
  assert (windows map !! i = Some a) as Ha.
  { unfold windows. rewrite list_lookup_fmap, Hms. done. }
  exists a, (fill g a). split; [done|]. split; [by rewrite Hfill, Ha|].
  pose proof (fill_field g a) as Hf. 
  pose proof (fix_years_isValid ms) as [Vf Vp].
  pose proof (fix_years_zhr (raw_activity ms).1) as (Ez & Ev & Ey & Es).
  assert (a = fix_years (raw_activity ms).1) as Ea.
  { subst a. unfold read_activity. by destruct (raw_activity ms). }
  rewrite <- Ea in Vf, Vp, Ez, Ev, Ey, Es.
  assert (zhr a = z) as Hz.
  { rewrite Ez. unfold raw_activity. fold m. fold z.
    by destruct (if z =? -1 then _ else _). }
  assert (year a = y) as Hy.
  { rewrite Ey. unfold raw_activity. fold m. fold z.
    by destruct (if z =? -1 then _ else _). }
  assert (QDate.isValid (start a) = QDate.isValid (own "start"%string)
          /\ QDate.isValid (finish a) = QDate.isValid (own "finish"%string)
          /\ QDate.isValid (peak a) = QDate.isValid (own "peak"%string)) as (Hs & Hfi & Hp).
  { rewrite Es, Vf, Vp. unfold raw_activity. fold m. fold z.
    by destruct (if z =? -1 then _ else _). }
  simpl in Hf. rewrite Hz, Hy, Hs, Hfi, Hp in Hf. fold aux in Hf. tauto.
Qed.

(** Claim C6, restricted to what the code establishes.  In a
    constructed shower, a window whose own three dates were all read
    from the record has its start not after its finish and not after
    its peak; nothing orders peak and finish, and nothing is promised of
    a window that inherits a date. *)
Theorem C6_dated_windows_ordered map s (i : nat) ms :
  MeteorShower_new map = Some s -> m_status s <> INVALID ->
  QVariant.toList (value map "activity") !! i = Some ms ->
  dates_valid (raw_activity ms).1 = true ->
  exists a, m_activities s !! i = Some a
            /\ QDate.leb (start a) (finish a) = true
            /\ QDate.leb (start a) (peak a) = true.
Proof.
  intros Hnew Hst Hms Hv.
  destruct (constructed map s Hnew Hst) as (_ & _ & g & Hg & Hg' & _ & Hfill).
  pose proof (read_activity_dated ms Hv) as (Hva & L1 & L2). simpl in *.
  set (a := (read_activity ms).1) in *.
  assert (windows map !! i = Some a) as Ha.
  { unfold windows. rewrite list_lookup_fmap, Hms. done. }
  destruct i as [|i].
  - exists a. split; [congruence|done].
  - exists (fill g a). split; [rewrite Hfill by lia; by rewrite Ha|].
    destruct (fill_dated g a Hva) as (-> & -> & ->). done.
Qed.

End Construction.

Section Resolver.

Context {P : Platform}.

Lemma confirmed_loop_spec acts date n i found :
  (i + n = length acts)%nat ->
  (exists (j : nat) a,
      (i <= j)%nat /\ acts !! j = Some a /\ in_window date a = true
      /\ (forall (k : nat) b, (i <= k < j)%nat -> acts !! k = Some b ->
                              in_window date b = false)
      /\ confirmed_loop acts date n i found = Some (a, true))
  \/ ((forall (k : nat) b, (i <= k)%nat -> acts !! k = Some b ->
                           in_window date b = false)
      /\ confirmed_loop acts date n i found = Some (Activity_default, found)).
Proof.
  revert i. induction n as [|n IH]; intros i Hlen; simpl.
  - right. split; [|done]. intros k b Hk Hb. apply lookup_lt_Some in Hb. lia.
  - destruct (lookup_lt_is_Some_2 acts i) as [a Ha]; [lia|]. rewrite Ha. simpl.
    destruct (in_window date a) eqn:Hw.
    + left. exists i, a. split; [lia|]. do 2 (split; [done|]).
      split; [|done]. intros k b Hk. lia.
    + destruct (IH (S i)) as [(j & a' & Hj & Ha' & Hw' & Hfirst & Hloop)|[Hnone Hloop]];
        [lia| |].
      * left. exists j, a'. split; [lia|]. do 2 (split; [done|]).
        split; [|done]. intros k b Hk Hb. destruct (decide (k = i)) as [->|Hne]; [congruence|].
        apply (Hfirst k b); [lia|done].
      * right. split; [|done]. intros k b Hk Hb.
        destruct (decide (k = i)) as [->|Hne]; [congruence|].
        apply (Hnone k b); [lia|done].
Qed.

Lemma hasConfirmedShower_spec acts date :
  (exists (i : nat) a, first_confirmed acts date i a
                       /\ hasConfirmedShower acts date false = Some (a, true))
  \/ (no_confirmed acts date
      /\ hasConfirmedShower acts date false = Some (Activity_default, false)).
Proof.
  unfold hasConfirmedShower. destruct acts as [|g rest].
  - right. split; [|done]. intros i a _ Ha. done.
  - destruct (confirmed_loop_spec (g :: rest) date (length (g :: rest) - 1) 1 false)
      as [(j & a & Hj & Ha & Hw & Hfirst & Hloop)|[Hnone Hloop]]; [simpl; lia| |].
    + left. exists j, a. split; [|done]. do 3 (split; [done|]).
      intros k b Hk. apply Hfirst. lia.
    + right. split; [|done]. intros i a Hi. by apply Hnone.
Qed.

Lemma first_confirmed_unique acts date i a i' a' :
  first_confirmed acts date i a -> first_confirmed acts date i' a' ->
  i = i' /\ a = a'.
Proof.
  intros (Hi & Ha & Hw & Hf) (Hi' & Ha' & Hw' & Hf').
  assert (i = i') as <-.
  { destruct (Nat.lt_total i i') as [Hlt|[->|Hlt]]; [|done|].
    - rewrite (Hf' i a) in Hw; [done|lia|done].
    - rewrite (Hf i' a') in Hw'; [done|lia|done]. }
  split; [done|congruence].
Qed.

(** Claim C2.  The resolver returns the first window of index 1 or more
    whose inclusive range holds the date, with status ACTIVE_CONFIRMED;
    only when no such window exists does the result come from the
    generic template; so ACTIVE_CONFIRMED is reported exactly when a
    confirmed window holds the date, and ACTIVE_GENERIC only when none
    does. *)
Theorem C2_confirmed_precedence acts date :
  (forall i a, first_confirmed acts date i a ->
               resolve acts date = Some (ACTIVE_CONFIRMED, a))
  /\ (no_confirmed acts date ->
      resolve acts date =
        match hasGenericShower acts date with
        | Some (a, true) => Some (ACTIVE_GENERIC, a)
        | Some (a, false) => Some (INACTIVE, a)
        | None => None
        end)
  /\ (forall st a, resolve acts date = Some (st, a) ->
        (st = ACTIVE_CONFIRMED <-> exists i, first_confirmed acts date i a)
        /\ (st = ACTIVE_GENERIC ->
            no_confirmed acts date /\ hasGenericShower acts date = Some (a, true))).
Proof.
  unfold resolve.
  destruct (hasConfirmedShower_spec acts date)
    as [(i & a & Hfc & ->)|[Hnone ->]].
  - split; [|split].
    + intros i' a' Hfc'.
      by destruct (first_confirmed_unique _ _ _ _ _ _ Hfc Hfc') as [_ ->].
    + intros Hnone. destruct Hfc as (Hi & Ha & Hw & _).
      rewrite (Hnone i a Hi Ha) in Hw. done.
    + intros st a' [= <- <-]. split; [|done]. split; [by exists i|done].
  - split; [|split].
    + intros i a (Hi & Ha & Hw & _). rewrite (Hnone i a Hi Ha) in Hw. done.
    + done.
    + intros st a H. split.
      * split.
        -- intros ->. destruct (hasGenericShower acts date) as [[? []]|]; done.
        -- intros (i & Hi & Ha & Hw & _). rewrite (Hnone i a Hi Ha) in Hw. done.
      * intros ->. split; [done|].
        destruct (hasGenericShower acts date) as [[? []]|]; congruence.
Qed.

End Resolver.

(** ** Floating point *)

Lemma binary_round_aux_sign prec emax sx mx ex lx :
  match binary_round_aux prec emax sx mx ex lx with
  | S754_zero s | S754_infinity s | S754_finite s _ _ => s = sx
  | S754_nan => True
  end.
Proof.
  unfold binary_round_aux.
  destruct (shr_fexp prec emax mx ex lx) as [mrs' e'].
  destruct (shr_fexp prec emax _ e' loc_Exact) as [mrs'' e''].
  destruct (shr_m mrs''); [done| |done].
  destruct (e'' <=? emax - prec); done.
Qed.

Lemma binary_normalize_nonneg prec emax z e :
  0 <= z -> SFnonneg (binary_normalize prec emax z e false).
Proof.
  intros Hz. destruct z as [|p|p]; [done| |lia].
  unfold binary_normalize, binary_round.
  destruct (shl_align _ _ _) as [mz ez].
  pose proof (binary_round_aux_sign prec emax false (Z.pos mz) ez loc_Exact) as H.
  unfold SFnonneg. by destruct (binary_round_aux _ _ _ _ _ _).
Qed.

Lemma SFdiv_nonneg prec emax x y :
  SFnonneg x -> SFnonneg y -> SFnonneg (SFdiv prec emax x y).
Proof.
  destruct x as [sx|sx| |sx mx ex], y as [sy|sy| |sy my ey]; simpl;
    try done; try (by intros -> ->).
  intros -> ->. destruct (SFdiv_core_binary _ _ _ _ _ _) as [[mz ez] lz].
  pose proof (binary_round_aux_sign prec emax (xorb false false) mz ez lz) as H.
  by destruct (binary_round_aux _ _ _ _ _ _).
Qed.

Lemma SFltb_nonneg_zero x y : SFnonneg x -> SFzero_or_nan y -> SFltb x y = false.
Proof.
  destruct x as [sx|sx| |sx mx ex], y as [sy|sy| |sy my ey]; simpl;
    try done; by intros ->.
Qed.

Lemma SFmul_zero prec emax x s : SFzero_or_nan (SFmul prec emax x (S754_zero s)).
Proof. by destruct x. Qed.

Lemma SFdiv_zero_or_nan prec emax x y :
  SFzero_or_nan x -> SFzero_or_nan (SFdiv prec emax x y).
Proof. destruct x, y; done. Qed.

Lemma SFconv_zero_or_nan prec emax x :
  SFzero_or_nan x -> SFzero_or_nan (SFconv prec emax x).
Proof. by destruct x. Qed.

Lemma SFadd_comm prec emax x y : SFadd prec emax x y = SFadd prec emax y x.
Proof.
  destruct x as [sx|sx| |sx mx ex], y as [sy|sy| |sy my ey]; simpl; try done;
    try (by destruct sx, sy).
  rewrite (Z.min_comm ey ex). f_equal. apply Z.add_comm.
Qed.


Section Rate.
Context {P : Platform}.

(** Claim C4, corrected.  The rate is the rounded sum of a floor and of an
    amplitude times [exp (- (t - peak)^2 / sd^2)]; floor and amplitude
    are 0 and [zhr], or the two bounds of the range when [zhr] is -1.
    The deviation [sd] is half the span from start to peak for a time
    from the start of the window up to the peak, and half the span from
    peak to finish at any other time: from the peak on, and also before
    the start, where the claim has the rising side.  Every operation is
    the IEEE operation of the source. *)
Theorem C4_rate_model a t :
  (zhr a <> -1 ->
   calculateZHR a t =
     Some (gaussian_rate (F.of_Z 0) (F.of_Z (zhr a)) (spread_from_start a t)
             (julian (peak a)) t))
  /\ (forall lo hi rest, zhr a = -1 -> variable a = lo :: hi :: rest ->
      calculateZHR a t =
        Some (gaussian_rate (F.of_Z lo) (F.of_Z hi) (spread_from_start a t)
                (julian (peak a)) t)).
Proof.
  unfold calculateZHR, gaussian_rate, spread_from_start, spread, half_span.
  split.
  - intros Hz. apply Z.eqb_neq in Hz. rewrite Hz. simpl.
    do 2 f_equal. unfold D.add. rewrite SFadd_comm.
    by destruct (D.geb t (julian (start a))), (D.ltb t (julian (peak a))).
  - intros lo hi rest -> ->. simpl.
    do 2 f_equal. unfold D.add. rewrite SFadd_comm.
    by destruct (D.geb t (julian (start a))), (D.ltb t (julian (peak a))).
Qed.
End Rate.

(** ** Rounding to binary32

    The conversion of a small integer and the rounding of a quotient of 24
    or 25 binary digits, as [SpecFloat] computes them. *)

Lemma digits2_pos_size p : digits2_pos p = Pos.size p.
Proof. induction p as [p IH|p IH|]; simpl; congruence. Qed.

Lemma digits2_pos_bounds p :
  2 ^ (Zpos (digits2_pos p) - 1) <= Zpos p < 2 ^ Zpos (digits2_pos p).
Proof.
  rewrite digits2_pos_size.
  pose proof (Pos.size_gt p) as Hgt. pose proof (Pos.size_le p) as Hle.
  apply Pos2Z.pos_lt_pos in Hgt. apply Pos2Z.pos_le_pos in Hle.
  rewrite Pos2Z.inj_pow in Hgt, Hle.
  change (Z.pos 2) with 2 in Hgt, Hle.
  split; [|exact Hgt].
  replace (Z.pos (Pos.size p)) with (Z.succ (Z.pos (Pos.size p) - 1)) in Hle by lia.
  rewrite Z.pow_succ_r in Hle by lia. lia.
Qed.

Lemma digits2_pos_unique p k :
  2 ^ (k - 1) <= Zpos p < 2 ^ k -> Zpos (digits2_pos p) = k.
Proof.
  intros [Hlo Hhi]. pose proof (digits2_pos_bounds p) as [Blo Bhi].
  set (d := Zpos (digits2_pos p)) in *.
  assert (0 < d) by (subst d; lia).
  destruct (Z.lt_trichotomy d k) as [Hlt|[Heq|Hgt]]; [|exact Heq|].
  - assert (2 ^ d <= 2 ^ (k - 1)) by (apply Z.pow_le_mono_r; lia). lia.
  - assert (0 <= k).
    { destruct (Z.le_gt_cases 0 k) as [?|Hneg]; [done|].
      rewrite (Z.pow_neg_r 2 k) in Hhi by lia. lia. }
    assert (2 ^ k <= 2 ^ (d - 1)) by (apply Z.pow_le_mono_r; lia). lia.
Qed.

Lemma iter_xO_mul p k : Zpos (Pos.iter xO p k) = Zpos p * 2 ^ Zpos k.
Proof.
  induction k as [|k IH] using Pos.peano_ind.
  - simpl. lia.
  - rewrite Pos.iter_succ, Pos2Z.inj_xO, IH, Pos2Z.inj_succ, Z.pow_succ_r by lia. lia.
Qed.

Lemma loc_of_shr_record_of_loc m l :
  loc_of_shr_record (shr_record_of_loc m l) = l.
Proof. destruct l as [|[]]; reflexivity. Qed.

Lemma shr_m_of_loc m l : shr_m (shr_record_of_loc m l) = m.
Proof. destruct l as [|[]]; reflexivity. Qed.

Lemma round_nearest_even_bounds m l :
  m <= round_nearest_even m l <= m + 1.
Proof.
  unfold round_nearest_even. destruct l as [|[]]; try lia.
  destruct (Z.even m); lia.
Qed.

Lemma Zdigits2_unique m k :
  2 ^ (k - 1) <= m < 2 ^ k -> 0 < m -> Zdigits2 m = k.
Proof.
  intros H Hm. destruct m as [|p|p]; try lia.
  simpl. now apply digits2_pos_unique.
Qed.

Lemma shr_m_shr_1 mrs : 0 <= shr_m mrs -> shr_m (shr_1 mrs) = shr_m mrs / 2.
Proof.
  destruct mrs as [m r s]. simpl. intros Hm.
  destruct m as [|[p|p|]|p]; simpl; [reflexivity| | |reflexivity|lia].
  - apply Z.div_unique with 1; lia.
  - apply Z.div_unique with 0; lia.
Qed.

Lemma shr_fexp_keep m e l :
  2 ^ 23 <= m < 2 ^ 24 -> -149 <= e ->
  shr_fexp 24 128 m e l = (shr_record_of_loc m l, e).
Proof.
  intros Hm He. unfold shr_fexp.
  rewrite (Zdigits2_unique m 24) by (simpl; lia).
  replace (fexp 24 128 (24 + e) - e) with 0 by (unfold fexp, emin; lia).
  reflexivity.
Qed.

Lemma shr_fexp_one m e l :
  2 ^ 24 <= m < 2 ^ 25 -> -150 <= e ->
  shr_fexp 24 128 m e l = (shr_1 (shr_record_of_loc m l), e + 1).
Proof.
  intros Hm He. unfold shr_fexp.
  rewrite (Zdigits2_unique m 25) by (simpl; lia).
  replace (fexp 24 128 (25 + e) - e) with 1 by (unfold fexp, emin; lia).
  reflexivity.
Qed.

(** Rounding a quotient of 24 or 25 binary digits to binary32. *)
Lemma binary_round_aux_24 sx mx ex lx :
  2 ^ 23 <= mx < 2 ^ 24 + 2 ^ 10 -> -149 <= ex <= 103 ->
  exists m e,
    binary_round_aux 24 128 sx mx ex lx = S754_finite sx m e
    /\ (e = ex \/ (e = ex + 1 /\ Zpos m <= 2 ^ 23 + 2 ^ 9)).
Proof.
  intros Hm He. unfold binary_round_aux.
  destruct (Z.lt_ge_cases mx (2 ^ 24)) as [Hlt|Hge].
  - rewrite shr_fexp_keep by lia.
    rewrite shr_m_of_loc, loc_of_shr_record_of_loc.
    pose proof (round_nearest_even_bounds mx lx) as Hr.
    set (m' := round_nearest_even mx lx) in *.
    destruct (Z.lt_ge_cases m' (2 ^ 24)) as [Hlt'|Hge'].
    + rewrite shr_fexp_keep by lia. simpl shr_m.
      destruct m' as [|p|p]; try lia.
      replace (ex <=? 128 - 24) with true by (symmetry; apply Z.leb_le; lia).
      eauto.
    + assert (m' = 2 ^ 24) as -> by lia.
      rewrite shr_fexp_one by lia. simpl shr_m.
      replace (ex + 1 <=? 128 - 24) with true by (symmetry; apply Z.leb_le; lia).
      eexists _, _. split; [reflexivity|]. right. split; [reflexivity|]. simpl. lia.
  - rewrite shr_fexp_one by (simpl in *; lia).
    set (mrs := shr_1 (shr_record_of_loc mx lx)).
    assert (shr_m mrs = mx / 2) as Hmrs.
    { subst mrs. rewrite shr_m_shr_1; rewrite shr_m_of_loc; [reflexivity|lia]. }
    pose proof (round_nearest_even_bounds (shr_m mrs) (loc_of_shr_record mrs)) as Hr.
    set (m' := round_nearest_even (shr_m mrs) (loc_of_shr_record mrs)) in *.
    rewrite Hmrs in Hr.
    assert (2 ^ 23 <= mx / 2 < 2 ^ 23 + 2 ^ 9) as Hhalf.
    { split; [apply Z.div_le_lower_bound|apply Z.div_lt_upper_bound]; simpl in *; lia. }
    rewrite shr_fexp_keep by (simpl in *; lia). simpl shr_m.
    destruct m' as [|p|p]; try (simpl in *; lia).
    replace (ex + 1 <=? 128 - 24) with true by (symmetry; apply Z.leb_le; lia).
    eexists _, _. split; [reflexivity|]. right. split; [reflexivity|]. simpl in *; lia.
Qed.

Lemma binary_round_aux_exact sx m ex :
  2 ^ 23 <= Zpos m < 2 ^ 24 -> -149 <= ex <= 104 ->
  binary_round_aux 24 128 sx (Zpos m) ex loc_Exact = S754_finite sx m ex.
Proof.
  intros Hm He. unfold binary_round_aux.
  rewrite shr_fexp_keep by lia. simpl.
  rewrite shr_fexp_keep by lia. simpl.
  replace (ex <=? 128 - 24) with true by (symmetry; apply Z.leb_le; lia).
  reflexivity.
Qed.

(** A positive integer below 2^24 converts to binary32 exactly. *)
Lemma binary_normalize_small r :
  0 < r < 2 ^ 24 ->
  exists m e,
    binary_normalize 24 128 r 0 false = S754_finite false m e
    /\ 2 ^ 23 <= Zpos m < 2 ^ 24 /\ -23 <= e <= 0 /\ Zpos m = r * 2 ^ (- e).
Proof.
  intros Hr. destruct r as [|p|p]; try lia. simpl binary_normalize.
  unfold binary_round.
  pose proof (digits2_pos_bounds p) as Hd.
  set (d := Zpos (digits2_pos p)) in *.
  assert (0 < d) as Hd0 by (subst d; lia).
  assert (d <= 24) as Hd24.
  { destruct (Z.le_gt_cases d 24) as [?|Hgt]; [assumption|].
    assert (2 ^ 24 <= 2 ^ (d - 1)) by (apply Z.pow_le_mono_r; lia). lia. }
  replace (fexp 24 128 (d + 0)) with (d - 24) by (unfold fexp, emin; lia).
  unfold shl_align.
  destruct (d - 24 - 0) as [|q|q] eqn:E.
  - assert (d = 24) as Hd' by lia. rewrite Hd' in Hd.
    rewrite binary_round_aux_exact by (simpl in *; lia).
    exists p, 0. repeat split; simpl in *; lia.
  - lia.
  - assert (Zpos (Pos.iter xO p q) = Zpos p * 2 ^ (24 - d)) as Hi.
    { rewrite iter_xO_mul. f_equal. f_equal. lia. }
    assert (2 ^ 23 <= Zpos p * 2 ^ (24 - d) < 2 ^ 24) as Hb.
    { assert (2 ^ 23 = 2 ^ (d - 1) * 2 ^ (24 - d)) as ->
        by (rewrite <- Z.pow_add_r by lia; f_equal; lia).
      assert (2 ^ 24 = 2 ^ d * 2 ^ (24 - d)) as ->
        by (rewrite <- Z.pow_add_r by lia; f_equal; lia).
      assert (0 < 2 ^ (24 - d)) by (apply Z.pow_pos_nonneg; lia).
      split; [apply Z.mul_le_mono_nonneg_r|apply Z.mul_lt_mono_pos_r]; lia. }
    rewrite binary_round_aux_exact by lia.
    eexists _, _. split; [reflexivity|]. split; [lia|]. split; [lia|].
    rewrite Hi. f_equal. f_equal. lia.
Qed.

(** The division of a binary32 value by 32767, before rounding. *)
Lemma SFdiv_core_binary_rand m1 e1 :
  2 ^ 23 <= Zpos m1 < 2 ^ 24 -> -23 <= e1 <= 0 ->
  SFdiv_core_binary 24 128 (Zpos m1) e1 16776704 (-9)
  = (Zpos m1 * 2 ^ 24 / 16776704, e1 - 15,
     new_location 16776704 ((Zpos m1 * 2 ^ 24) mod 16776704)).
Proof.
  intros Hm He. unfold SFdiv_core_binary.
  rewrite (Zdigits2_unique (Zpos m1) 24) by (simpl; lia).
  change (Zdigits2 16776704) with 24.
  replace (Z.min (fexp 24 128 (24 + e1 - (24 + -9))) (e1 - -9)) with (e1 - 15)
    by (unfold fexp, emin; lia).
  replace (e1 - -9 - (e1 - 15)) with 24 by lia.
  cbv zeta iota. rewrite Z.shiftl_mul_pow2 by lia.
  unfold Z.div, Z.modulo.
  destruct (Z.div_eucl (Zpos m1 * 2 ^ 24) 16776704) as [q r]. reflexivity.
Qed.


Section Ticks.
Context {P : Platform}.

(** *** The windows of a constructed shower can be read *)

Lemma raw_activity_readable ms :
  (raw_activity ms).2 = true -> rate_readable (raw_activity ms).1.
Proof.
  unfold raw_activity, rate_readable.
  destruct (QVariant.toInt (value (QVariant.toMap ms) "zhr") =? -1) eqn:Hz.
  - destruct (read_variable _) as [var ok] eqn:E. simpl. intros -> _.
    pose proof (read_variable_true
                  (QString.split_dash
                     (QVariant.toString (value (QVariant.toMap ms) "variable")))) as [H _].
    rewrite E in H. destruct (H eq_refl) as (a & b & x & y & Hl & Ha & Hb).
    rewrite Hl in E. simpl in E. rewrite Ha, Hb in E. injection E as <-. simpl. lia.
  - simpl. intros _. apply Z.eqb_neq in Hz. done.
Qed.

Lemma fix_years_readable d : rate_readable d -> rate_readable (fix_years d).
Proof.
  unfold rate_readable. destruct (fix_years_zhr d) as (-> & -> & _). done.
Qed.

Lemma read_activity_readable ms :
  (read_activity ms).2 = true -> rate_readable (read_activity ms).1.
Proof.
  pose proof (raw_activity_readable ms) as H. unfold read_activity.
  destruct (raw_activity ms) as [d ok]. simpl in *.
  intros Hok. apply fix_years_readable. by apply H.
Qed.

Lemma fill_readable g a :
  rate_readable g -> rate_readable a -> rate_readable (fill g a).
Proof.
  unfold rate_readable, fill. intros Hg Ha.
  destruct (zhr a =? 0) eqn:Hz; simpl; done.
Qed.

Lemma Activity_default_readable : rate_readable Activity_default.
Proof. unfold rate_readable. simpl. lia. Qed.

Lemma constructed_readable map s :
  MeteorShower_new map = Some s -> m_status s <> INVALID ->
  m_activities s <> [] /\ Forall rate_readable (m_activities s).
Proof.
  intros Hnew Hst.
  destruct (constructed map s Hnew Hst) as (_ & Hall & g & Hg & Hg' & Hlen & Hfill).
  split; [by destruct (m_activities s)|].
  assert (forall (i : nat) a, windows map !! i = Some a -> rate_readable a) as Hw.
  { intros i a Ha. apply windows_lookup in Ha as (ms & Hms & ->).
    apply read_activity_readable. rewrite forallb_forall in Hall.
    apply Hall. apply list_elem_of_In. by eapply list_elem_of_lookup_2. }
  apply Forall_lookup. intros i a Ha.
  destruct i as [|i].
  - rewrite Hg' in Ha. injection Ha as <-. by apply (Hw 0%nat).
  - rewrite Hfill in Ha by lia.
    destruct (windows map !! S i) as [a0|] eqn:E; [|done].
    injection Ha as <-. apply fill_readable; [by apply (Hw 0%nat)|by apply (Hw (S i))].
Qed.

(** *** The resolver never fails on a non-empty list *)

Lemma hasGenericShower_readable acts :
  acts <> [] -> Forall rate_readable acts ->
  forall date, exists a found,
    hasGenericShower acts date = Some (a, found) /\ rate_readable a.
Proof.
  intros Hne Hall date. destruct acts as [|g rest]; [done|].
  apply Forall_cons in Hall as [Hg _].
  unfold hasGenericShower. simpl.
  destruct (if negb _ then _ else _) as [[gs gf] found].
  destruct found; eexists _, _; (split; [done|]);
    [exact Hg | apply Activity_default_readable].
Qed.

Lemma resolve_readable acts date :
  acts <> [] -> Forall rate_readable acts ->
  exists st a, resolve acts date = Some (st, a) /\ rate_readable a
               /\ st <> INVALID /\ st <> UNDEFINED.
Proof.
  intros Hne Hall. unfold resolve.
  destruct (hasConfirmedShower_spec acts date)
    as [(i & a & (Hi & Ha & _) & ->)|[_ ->]].
  - exists ACTIVE_CONFIRMED, a. split; [done|]. split; [|done].
    rewrite Forall_lookup in Hall. by apply (Hall i).
  - destruct (hasGenericShower_readable acts Hne Hall date) as (a & found & -> & Ha).
    destruct found; eexists _, a; done.
Qed.

Lemma calculateZHR_readable a t : rate_readable a -> is_Some (calculateZHR a t).
Proof.
  unfold rate_readable, calculateZHR. intros H.
  destruct (zhr a =? -1) eqn:Hz; simpl; [|by eexists].
  apply Z.eqb_eq in Hz. specialize (H Hz).
  destruct (variable a) as [|lo [|hi rest]]; simpl in *; [lia|lia|by eexists].
Qed.

(** *** What [update] leaves alone *)

Lemma spawn_loop_appends n rate s rng :
  exists new, (spawn_loop n rate s rng).1
              = set_activeMeteors s (m_activeMeteors s ++ new)
              /\ (length new <= n)%nat.
Proof.
  revert s rng. induction n as [|n IH]; intros s rng; simpl.
  - exists []. split; [|done]. rewrite app_nil_r. by destruct s.
  - destruct (qrand rng) as [r rng1].
    destruct (F.ltb _ rate).
    + destruct (MeteorObj_new _ _ _ _ _ rng1) as [m rng2].
      destruct (MeteorObj_isAlive m).
      * destruct (IH (set_activeMeteors s (m_activeMeteors s ++ [m])) rng2)
          as (new & -> & Hlen).
        exists (m :: new). simpl. split; [|lia].
        rewrite <- app_assoc. done.
      * destruct (IH s rng2) as (new & -> & Hlen). exists new. split; [done|lia].
    + destruct (IH s rng1) as (new & -> & Hlen). exists new. split; [done|lia].
Qed.

Lemma fix_radiant_fields s t :
  m_status (fix_radiant s t) = m_status s
  /\ m_activities (fix_radiant s t) = m_activities s
  /\ m_activity (fix_radiant s t) = m_activity s
  /\ m_activeMeteors (fix_radiant s t) = m_activeMeteors s.
Proof. unfold fix_radiant. destruct (bool_decide _); done. Qed.

Lemma update_resolved mgr core dt s rng st a :
  m_status s <> INVALID ->
  resolve (m_activities s) (currentDate core) = Some (st, a) ->
  let s1 := set_activity (set_status s st) a in
  let s2 := set_activeMeteors (fix_radiant s1 (getJD core))
              (age_meteors (m_activeMeteors s) dt) in
  update mgr core dt s rng =
    if negb (enabled mgr s1) then Some (s1, rng)
    else if negb (getRealTimeSpeed core) then Some (s2, rng)
    else match calculateZHR a (getJD core) with
         | None => None
         | Some z =>
             if z <? 1 then Some (s2, rng)
             else
               let mpf := meteorsPerFrame z dt in
               Some (spawn_loop (Z.to_nat (maxThisFrame mpf))
                       (F.div mpf (F.of_Z (maxThisFrame mpf))) s2 rng)
         end.
Proof.
  intros Hst Hres s1 s2. unfold update.
  rewrite bool_decide_eq_false_2 by done.
  unfold currentDate in Hres. rewrite Hres. simpl. fold s1.
  destruct (enabled mgr s1); simpl; [|done].
  destruct (fix_radiant_fields s1 (getJD core)) as (_ & _ & Ha & Hm).
  rewrite Hm. simpl. fold s2.
  destruct (getRealTimeSpeed core); simpl; [|done].
  rewrite Ha. simpl. done.
Qed.

Lemma update_total mgr core dt s rng :
  m_activities s <> [] -> Forall rate_readable (m_activities s) ->
  exists s' rng', update mgr core dt s rng = Some (s', rng')
                  /\ m_activities s' = m_activities s.
Proof.
  intros Hne Hall.
  destruct (decide (m_status s = INVALID)) as [Hi|Hi].
  { exists s, rng. by rewrite update_invalid. }
  destruct (resolve_readable (m_activities s) (currentDate core) Hne Hall)
    as (st & a & Hres & Ha & _).
  rewrite (update_resolved mgr core dt s rng st a Hi Hres).
  destruct (negb _); [by eexists _, _|].
  destruct (fix_radiant_fields (set_activity (set_status s st) a) (getJD core))
    as (_ & Hacts & _).
  destruct (negb _); [by eexists _, _|].
  destruct (calculateZHR_readable a (getJD core) Ha) as [z ->].
  destruct (z <? 1); [by eexists _, _|]. simpl.
  match goal with |- context [spawn_loop ?n ?r ?s ?g] =>
    destruct (spawn_loop_appends n r s g) as (new & Hs & _);
    destruct (spawn_loop n r s g) as [s' rng'] end.
  simpl in Hs. exists s', rng'. split; [done|]. rewrite Hs. simpl. done.
Qed.

(** Claim C7.  A shower that the constructor returns with a status
    other than INVALID completes every sequence of ticks, whatever the
    dates, the elapsed times, the settings and the random numbers: no
    list is read out of bounds, on inactive ticks as on active ones. *)
Theorem C7_ticks_complete map s :
  MeteorShower_new map = Some s -> m_status s <> INVALID ->
  forall ticks rng, is_Some (run ticks s rng).
Proof.
  intros Hnew Hst ticks.
  destruct (constructed_readable map s Hnew Hst) as [Hne Hall].
  clear Hnew Hst. revert s Hne Hall.
  induction ticks as [|t ticks IH]; intros s Hne Hall rng; simpl; [by eexists|].
  destruct (update_total (tick_mgr t) (tick_core t) (tick_deltaTime t) s rng Hne Hall)
    as (s' & rng' & -> & Hacts). simpl.
  apply IH; by rewrite Hacts.
Qed.

Lemma resolve_status acts date st a :
  resolve acts date = Some (st, a) -> st <> INVALID /\ st <> UNDEFINED.
Proof.
  unfold resolve.
  destruct (hasConfirmedShower acts date false) as [[? []]|]; [|  |done].
  - by intros [= <- <-].
  - destruct (hasGenericShower acts date) as [[? []]|]; [| |done];
      by intros [= <- <-].
Qed.

Lemma age_meteors_length l dt : (length (age_meteors l dt) <= length l)%nat.
Proof.
  induction l as [|m l IH]; simpl; [done|].
  destruct (MeteorObj_update m dt) as [m' alive]. destruct alive; simpl; lia.
Qed.

Lemma draw_misses rate r :
  0 <= r -> 0 <= RAND_MAX -> SFzero_or_nan rate -> draw_spawns rate r = false.
Proof.
  intros Hr Hmax Hrate. unfold draw_spawns, F.ltb.
  apply SFltb_nonneg_zero; [|done].
  apply SFdiv_nonneg; by apply binary_normalize_nonneg.
Qed.

Lemma spawn_loop_quiet n rate s rng :
  rng_in_range -> SFzero_or_nan rate -> (spawn_loop n rate s rng).1 = s.
Proof.
  intros Hrng Hrate. revert rng. induction n as [|n IH]; intros rng; simpl; [done|].
  pose proof (Hrng rng) as Hr. destruct (qrand rng) as [r rng1]. simpl in Hr.
  fold (draw_spawns rate r). rewrite draw_misses by (done || lia). apply IH.
Qed.

Lemma rate_at_rest z sign n :
  SFzero_or_nan (F.div (meteorsPerFrame z (S754_zero sign)) n).
Proof.
  unfold F.div, meteorsPerFrame, F.of_double, D.div, D.mul.
  apply SFdiv_zero_or_nan, SFconv_zero_or_nan, SFdiv_zero_or_nan, SFmul_zero.
Qed.

(** With no time elapsed a tick spawns nothing: the new state is the one
    that resolution, radiant and ageing determine, and the tick completes
    unless it has to read a rate that cannot be read. *)
Lemma update_at_rest mgr core sign s rng st a :
  rng_in_range -> m_status s <> INVALID ->
  resolve (m_activities s) (currentDate core) = Some (st, a) ->
  let sb := set_activity (set_status s st) a in
  let result :=
    if enabled mgr sb
    then set_activeMeteors (fix_radiant sb (getJD core))
           (age_meteors (m_activeMeteors s) (S754_zero sign))
    else sb in
  if negb (enabled mgr sb) || negb (getRealTimeSpeed core)
     || bool_decide (is_Some (calculateZHR a (getJD core)))
  then exists rng1, update mgr core (S754_zero sign) s rng = Some (result, rng1)
  else update mgr core (S754_zero sign) s rng = None.
Proof.
  intros Hrng Hst Hres sb result. subst result.
  rewrite (update_resolved _ _ _ _ _ _ _ Hst Hres). fold sb.
  destruct (enabled mgr sb); simpl; [|by eexists].
  destruct (getRealTimeSpeed core); simpl; [|by eexists].
  destruct (calculateZHR a (getJD core)) as [z|].
  - assert (bool_decide (is_Some (Some z)) = true) as ->
      by (apply bool_decide_eq_true_2; by eexists).
    simpl. destruct (z <? 1); [by eexists|].
    match goal with |- context [spawn_loop ?n ?r ?s0 ?g] =>
      pose proof (spawn_loop_quiet n r s0 g Hrng (rate_at_rest _ _ _)) as Hq;
      destruct (spawn_loop n r s0 g) as [s' rng'] end.
    simpl in Hq. subst s'. by eexists.
  - assert (bool_decide (is_Some (@None Z)) = false) as ->
      by (apply bool_decide_eq_false_2; by intros [? ?]).
    done.
Qed.

Lemma update_resolves mgr core dt s rng r :
  m_status s <> INVALID -> update mgr core dt s rng = Some r ->
  exists st a, resolve (m_activities s) (currentDate core) = Some (st, a).
Proof.
  intros Hst Hup. unfold update in Hup.
  rewrite bool_decide_eq_false_2 in Hup by done. unfold currentDate.
  destruct (resolve _ _) as [[st a]|]; [by eexists _, _|done].
Qed.

Lemma enabled_status mgr s s' :
  m_status s = m_status s' -> enabled mgr s = enabled mgr s'.
Proof. unfold enabled. by intros ->. Qed.

Lemma fix_radiant_observed s s' t :
  m_status s = m_status s' -> m_activity s = m_activity s' ->
  m_rAlphaPeak s' = m_rAlphaPeak s -> m_rDeltaPeak s' = m_rDeltaPeak s ->
  m_driftAlpha s' = m_driftAlpha s -> m_driftDelta s' = m_driftDelta s ->
  observed (fix_radiant s' t) = observed (fix_radiant s t).
Proof.
  unfold observed, fix_radiant. intros H1 H2 H3 H4 H5 H6.
  rewrite H1. destruct (bool_decide _); simpl; congruence.
Qed.

Lemma fix_radiant_catalog s t :
  m_rAlphaPeak (fix_radiant s t) = m_rAlphaPeak s
  /\ m_rDeltaPeak (fix_radiant s t) = m_rDeltaPeak s
  /\ m_driftAlpha (fix_radiant s t) = m_driftAlpha s
  /\ m_driftDelta (fix_radiant s t) = m_driftDelta s.
Proof. unfold fix_radiant. destruct (bool_decide _); done. Qed.

(** A further tick at the same instant leaves what is observed as it is. *)
Lemma update_again mgr core sign s rng s1 rng1 s' rng' :
  rng_in_range -> m_status s <> INVALID ->
  update mgr core (S754_zero sign) s rng = Some (s1, rng1) ->
  same_catalog s s' -> observed s' = observed s1 ->
  exists s'' rng'',
    update mgr core (S754_zero sign) s' rng' = Some (s'', rng'')
    /\ same_catalog s s'' /\ observed s'' = observed s1
    /\ (length (m_activeMeteors s'') <= length (m_activeMeteors s'))%nat.
Proof.
  intros Hrng Hst Hup (Hacts & Hap & Hdp & Hda & Hdd) Hobs.
  destruct (update_resolves _ _ _ _ _ _ Hst Hup) as (st & a & Hres).
  destruct (resolve_status _ _ _ _ Hres) as [Hst1 _].
  pose proof (update_at_rest mgr core sign s rng st a Hrng Hst Hres) as H1.
  simpl in H1.
  assert (resolve (m_activities s') (currentDate core) = Some (st, a)) as Hres'
      by (by rewrite Hacts).
  rewrite (enabled_status mgr (set_activity (set_status s st) a)
             (set_activity (set_status s' st) a)) in H1 by done.
  destruct (negb (enabled mgr (set_activity (set_status s' st) a))
            || negb (getRealTimeSpeed core)
            || bool_decide (is_Some (calculateZHR a (getJD core)))) eqn:Hok;
    [|congruence].
  destruct H1 as (rng1' & H1). rewrite Hup in H1. injection H1 as Hs1 _.
  assert (m_status s1 = st) as Hs1st.
  { rewrite Hs1. destruct (enabled mgr _); [|done].
    simpl. by destruct (fix_radiant_fields (set_activity (set_status s st) a) (getJD core))
      as (-> & _). }
  assert (m_status s' <> INVALID) as Hst'.
  { unfold observed in Hobs. injection Hobs as -> _ _. by rewrite Hs1st. }
  pose proof (update_at_rest mgr core sign s' rng' st a Hrng Hst' Hres') as H2.
  simpl in H2. rewrite Hok in H2. destruct H2 as (rng'' & H2).
  eexists _, rng''. split; [exact H2|].
  destruct (enabled mgr (set_activity (set_status s' st) a)) eqn:Hen.
  - subst s1.
    destruct (fix_radiant_fields (set_activity (set_status s' st) a) (getJD core))
      as (_ & Eacts & _).
    destruct (fix_radiant_catalog (set_activity (set_status s' st) a) (getJD core))
      as (Ea & Ed & Eda & Edd).
    split; [|split].
    + unfold same_catalog. simpl. rewrite Eacts, Ea, Ed, Eda, Edd. simpl. done.
    + change (observed (fix_radiant (set_activity (set_status s' st) a) (getJD core))
              = observed (fix_radiant (set_activity (set_status s st) a) (getJD core))).
      by apply fix_radiant_observed.
    + simpl. apply age_meteors_length.
  - subst s1. split; [|split].
    + done.
    + unfold observed in *. simpl in *. injection Hobs as _ -> ->. done.
    + done.
Qed.

Lemma update_settles mgr core sign s rng s1 rng1 :
  rng_in_range -> m_status s <> INVALID ->
  update mgr core (S754_zero sign) s rng = Some (s1, rng1) ->
  settled {| tick_mgr := mgr; tick_core := core;
             tick_deltaTime := S754_zero sign |} s s1.
Proof.
  intros Hrng Hst Hup. unfold settled. simpl tick_deltaTime.
  set (dt := S754_zero sign) in *.
  set (tick := {| tick_mgr := mgr; tick_core := core; tick_deltaTime := dt |}).
  destruct (update_resolves _ _ _ _ _ _ Hst Hup) as (st & a & Hres).
  pose proof (update_at_rest mgr core sign s rng st a Hrng Hst Hres) as H1.
  simpl in H1.
  destruct (negb _ || negb _ || bool_decide _); [|subst dt; congruence].
  destruct H1 as (rng1' & H1). subst dt. rewrite Hup in H1. injection H1 as Hs1 _.
  split.
  - destruct (enabled mgr _); subst s1; [by right|by left].
  - intros n.
    assert (forall s', same_catalog s s' -> observed s' = observed s1 ->
            forall rng', exists sn rngn,
              run (replicate n tick) s' rng' = Some (sn, rngn)
              /\ observed sn = observed s1
              /\ (length (m_activeMeteors sn) <= length (m_activeMeteors s'))%nat) as H.
    { induction n as [|n IH]; intros s' Hcat Hobs rng'; simpl.
      - by exists s', rng'.
      - destruct (update_again _ _ _ _ _ _ _ s' rng' Hrng Hst Hup Hcat Hobs)
          as (s'' & rng'' & -> & Hcat' & Hobs' & Hlen). simpl.
        destruct (IH s'' Hcat' Hobs' rng'') as (sn & rngn & -> & ? & ?).
        exists sn, rngn. split; [done|]. split; [done|lia]. }
    apply H; [|done].
    unfold same_catalog. rewrite Hs1.
    destruct (enabled mgr _); [|done]. simpl.
    destruct (fix_radiant_fields (set_activity (set_status s st) a) (getJD core))
      as (_ & -> & _).
    destruct (fix_radiant_catalog (set_activity (set_status s st) a) (getJD core))
      as (-> & -> & -> & ->). done.
Qed.
Lemma update_keeps mgr core dt s rng s' rng' :
  update mgr core dt s rng = Some (s', rng') ->
  m_activities s' = m_activities s
  /\ (m_status s <> INVALID -> m_status s' <> INVALID).
Proof.
  intros Hup. destruct (decide (m_status s = INVALID)) as [Hi|Hi].
  { rewrite update_invalid in Hup by done. injection Hup as <- <-. done. }
  destruct (update_resolves _ _ _ _ _ _ Hi Hup) as (st & a & Hres).
  destruct (resolve_status _ _ _ _ Hres) as [Hst _].
  rewrite (update_resolved _ _ _ _ _ _ _ Hi Hres) in Hup.
  destruct (fix_radiant_fields (set_activity (set_status s st) a) (getJD core))
    as (Es & Ea & _).
  destruct (negb (enabled mgr _)); [injection Hup as <- <-; done|].
  destruct (negb (getRealTimeSpeed core));
    [injection Hup as <- <-; simpl; by rewrite Es, Ea|].
  destruct (calculateZHR a (getJD core)) as [z|]; [|done].
  destruct (z <? 1); [injection Hup as <- <-; simpl; by rewrite Es, Ea|].
  simpl in Hup.
  match type of Hup with Some (spawn_loop ?n ?r ?s0 ?g) = _ =>
    destruct (spawn_loop_appends n r s0 g) as (new & Hs & _);
    destruct (spawn_loop n r s0 g) as [s'' rng''] end.
  injection Hup as <- <-. simpl in Hs. rewrite Hs. simpl. by rewrite Es, Ea.
Qed.

Lemma run_keeps ticks s rng s' rng' :
  run ticks s rng = Some (s', rng') ->
  m_activities s' = m_activities s
  /\ (m_status s <> INVALID -> m_status s' <> INVALID).
Proof.
  revert s rng. induction ticks as [|t ticks IH]; intros s rng; simpl.
  - intros [= <- <-]. done.
  - destruct (update _ _ _ s rng) as [[s1 rng1]|] eqn:Hup; [|done]. simpl.
    intros Hrun. destruct (update_keeps _ _ _ _ _ _ _ Hup) as [E1 H1].
    destruct (IH _ _ Hrun) as [E2 H2]. split; [congruence|auto].
Qed.

(** Claim C8.  Take a constructed, non-INVALID shower after any
    history of ticks.  A tick with zero elapsed time completes and
    spawns no meteor, and any number of further ticks at the same
    instant, with the same settings, leave status and radiant position
    as that tick left them and add no meteor. *)
Theorem C8_update_idempotent map s0 history rng0 s rng mgr core sign :
  rng_in_range ->
  MeteorShower_new map = Some s0 -> m_status s0 <> INVALID ->
  run history s0 rng0 = Some (s, rng) ->
  exists s1 rng1,
    update mgr core (S754_zero sign) s rng = Some (s1, rng1)
    /\ settled {| tick_mgr := mgr; tick_core := core;
                  tick_deltaTime := S754_zero sign |} s s1.
Proof.
  intros Hrng Hnew Hst Hrun.
  destruct (constructed_readable map s0 Hnew Hst) as [Hne Hall].
  destruct (run_keeps _ _ _ _ _ Hrun) as [Eacts Hst'].
  rewrite <- Eacts in Hne, Hall.
  destruct (update_total mgr core (S754_zero sign) s rng Hne Hall)
    as (s1 & rng1 & Hup & _).
  exists s1, rng1. split; [done|].
  by apply (update_settles mgr core sign s rng s1 rng1 Hrng (Hst' Hst)).
Qed.

Lemma spawn_log_set n rate s l rng :
  spawn_log n rate (set_activeMeteors s l) rng = spawn_log n rate s rng.
Proof.
  revert rng. induction n as [|n IH]; intros rng; simpl; [done|].
  destruct (qrand rng) as [r rng1]. destruct (draw_spawns rate r).
  - destruct (MeteorObj_new _ _ _ _ _ rng1) as [m rng2]. by rewrite IH.
  - by rewrite IH.
Qed.

Lemma spawn_loop_log n rate s rng :
  (spawn_loop n rate s rng).1
  = set_activeMeteors s (m_activeMeteors s ++ viable (spawn_log n rate s rng)).
Proof.
  revert s rng. induction n as [|n IH]; intros s rng; simpl.
  - rewrite app_nil_r. by destruct s.
  - destruct (qrand rng) as [r rng1]. fold (draw_spawns rate r).
    destruct (draw_spawns rate r).
    + destruct (MeteorObj_new _ _ _ _ _ rng1) as [m rng2].
      simpl. destruct (MeteorObj_isAlive m).
      * rewrite IH, spawn_log_set. simpl. by rewrite <- app_assoc.
      * apply IH.
    + simpl. apply IH.
Qed.

Lemma spawn_rng_set n rate s l rng :
  spawn_rng n rate (set_activeMeteors s l) rng = spawn_rng n rate s rng.
Proof.
  revert rng. induction n as [|n IH]; intros rng; simpl; [done|].
  destruct (qrand rng) as [r rng1]. destruct (draw_spawns rate r).
  - destruct (MeteorObj_new _ _ _ _ _ rng1) as [m rng2]. by rewrite IH.
  - by rewrite IH.
Qed.

Lemma spawn_loop_rng n rate s rng :
  (spawn_loop n rate s rng).2 = spawn_rng n rate s rng.
Proof.
  revert s rng. induction n as [|n IH]; intros s rng; simpl; [done|].
  destruct (qrand rng) as [r rng1]. fold (draw_spawns rate r).
  destruct (draw_spawns rate r).
  - destruct (MeteorObj_new _ _ _ _ _ rng1) as [m rng2].
    simpl. destruct (MeteorObj_isAlive m).
    + by rewrite IH, spawn_rng_set.
    + apply IH.
  - apply IH.
Qed.

Lemma spawn_log_draws n rate s rng :
  length (spawn_log n rate s rng) = n
  /\ Forall (fun e => is_Some e.2 <-> draw_spawns rate e.1 = true)
       (spawn_log n rate s rng).
Proof.
  revert rng. induction n as [|n IH]; intros rng; simpl; [done|].
  destruct (qrand rng) as [r rng1]. destruct (draw_spawns rate r) eqn:E.
  - destruct (MeteorObj_new _ _ _ _ _ rng1) as [m rng2].
    destruct (IH rng2) as [Hl Hf]. simpl. split; [lia|].
    constructor; [|done]. simpl. split; [done|by eexists].
  - destruct (IH rng1) as [Hl Hf]. simpl. split; [lia|].
    constructor; [|done]. simpl. rewrite E. split; [by intros [? ?]|done].
Qed.

Lemma viable_length log : (length (viable log) <= length log)%nat.
Proof.
  induction log as [|[r [m|]] log IH]; simpl; [done| |lia].
  destruct (MeteorObj_isAlive m); simpl; lia.
Qed.

Lemma maxThisFrame_max mpf : maxThisFrame mpf = Z.max 1 (qRound mpf).
Proof. unfold maxThisFrame. destruct (qRound mpf <? 1) eqn:E; lia. Qed.

(** X26.  The spawning step of [update], lines 278-306.  On a tick of an
    enabled shower with the clock at real-time speed: a rate below 1
    spawns nothing and draws nothing; otherwise, with
    [meteorsPerFrame = rate * dt / 3600] and
    [maxThisFrame = max 1 (round meteorsPerFrame)], exactly
    [maxThisFrame] draws are made, a draw creates a meteor exactly when
    [qrand() / RAND_MAX < meteorsPerFrame / maxThisFrame], the meteors
    created that are alive are appended in order, so at most
    [maxThisFrame] are added, and the generator is left as these draws
    and the meteors they create leave it. *)
Theorem X26_update_spawning mgr core dt s rng st a z :
  m_status s <> INVALID ->
  resolve (m_activities s) (currentDate core) = Some (st, a) ->
  enabled mgr (set_status s st) = true ->
  getRealTimeSpeed core = true ->
  calculateZHR a (getJD core) = Some z ->
  thinned mgr core dt s rng st a z.
Proof.
  intros Hst Hres Hen Hrt Hz. unfold thinned.
  set (aged := age_meteors (m_activeMeteors s) dt).
  set (mpf := meteorsPerFrame z dt).
  set (maxMpf := Z.max 1 (qRound mpf)).
  set (rate := F.div mpf (F.of_Z maxMpf)).
  set (log := spawn_log (Z.to_nat maxMpf) rate
                (fix_radiant (set_activity (set_status s st) a) (getJD core)) rng).
  rewrite (update_resolved _ _ _ _ _ _ _ Hst Hres).
  rewrite (enabled_status mgr (set_activity (set_status s st) a) (set_status s st))
    by done.
  rewrite Hen, Hrt, Hz. simpl.
  destruct (z <? 1) eqn:E.
  - eexists _, _. split; [done|]. split; [done|lia].
  - fold aged. fold mpf. rewrite maxThisFrame_max. fold maxMpf. fold rate.
    match goal with |- context [spawn_loop ?n ?r ?s0 ?g] =>
      pose proof (spawn_loop_log n r s0 g) as Hlog;
      pose proof (spawn_loop_rng n r s0 g) as Hrng;
      destruct (spawn_loop n r s0 g) as [s' rng'] end.
    simpl in Hlog, Hrng. rewrite spawn_log_set in Hlog. fold log in Hlog.
    rewrite spawn_rng_set in Hrng.
    exists s', rng'. split; [done|]. split; [lia|]. intros _.
    destruct (spawn_log_draws (Z.to_nat maxMpf) rate
                (fix_radiant (set_activity (set_status s st) a) (getJD core)) rng)
      as [Hlen Hall].
    fold log in Hlen, Hall.
    assert (Z.of_nat (length log) = maxMpf) as Hl by (subst maxMpf; lia).
    split; [done|]. split; [done|]. split; [by rewrite Hlog|].
    split; [|done].
    pose proof (viable_length log). lia.
Qed.
End Ticks.

(** ** Thresholds above one

    With [RAND_MAX] = 32767 the quotient [qrand / RAND_MAX] of line 295 is
    at most 1: a threshold above 1 + 2^-14 lets every draw spawn. *)

Section Saturation.
Context {P : Platform}.
Hypothesis HRAND : RAND_MAX = 32767.

Lemma draw_spawns_above_one m e r :
  (-23 < e \/ (e = -23 /\ 2 ^ 23 + 2 ^ 9 < Zpos m)) ->
  0 <= r <= 32767 ->
  draw_spawns (S754_finite false m e) r = true.
Proof.
  intros Hrate Hr. unfold draw_spawns, F.ltb, F.div, F.of_Z. rewrite HRAND.
  change (binary_normalize F.prec F.emax 32767 0 false)
    with (S754_finite false 16776704 (-9)).
  destruct (Z.eq_dec r 0) as [->|Hr0]; [reflexivity|].
  change F.prec with 24. change F.emax with 128.
  destruct (binary_normalize_small r) as (m1 & e1 & -> & Hm1 & He1 & Hv); [simpl; lia|].
  assert (e1 <= -9) as He9.
  { destruct (Z.le_gt_cases e1 (-9)) as [?|Hgt]; [assumption|].
    assert (2 ^ (- e1) <= 2 ^ 8) as Hp by (apply Z.pow_le_mono_r; lia).
    assert (0 < 2 ^ (- e1)) by (apply Z.pow_pos_nonneg; lia).
    simpl in Hp, Hm1. nia. }
  unfold SFdiv. rewrite SFdiv_core_binary_rand by assumption.
  destruct (binary_round_aux_24 (xorb false false)
              (Zpos m1 * 2 ^ 24 / 16776704) (e1 - 15)
              (new_location 16776704 ((Zpos m1 * 2 ^ 24) mod 16776704)))
    as (m2 & e2 & -> & He2); [|lia|].
  { split; [apply Z.div_le_lower_bound|apply Z.div_lt_upper_bound]; simpl in *; lia. }
  unfold SFltb, SFcompare. simpl xorb. cbv iota.
  destruct (Z.compare_spec e2 e) as [Heq|Hlt|Hgt]; [|reflexivity|lia].
  rewrite Pos.compare_cont_spec. simpl.
  assert (Zpos m2 < Zpos m) as Hlt by lia.
  change (Z.pos m2 < Z.pos m) with ((m2 ?= m)%positive = Lt) in Hlt.
  rewrite Hlt. reflexivity.
Qed.

Lemma filter_all {A} (f : A -> bool) (l : list A) :
  Forall (fun x => f x = true) l -> List.filter f l = l.
Proof.
  induction 1 as [|x l Hx _ IH]; simpl; [done|]. by rewrite Hx, IH.
Qed.

Lemma spawning_draws_above_one m e :
  (-23 < e \/ (e = -23 /\ 2 ^ 23 + 2 ^ 9 < Zpos m)) ->
  spawning_draws (S754_finite false m e) = 32768.
Proof.
  intros Hrate. unfold spawning_draws, draw_values. rewrite HRAND.
  rewrite filter_all.
  - rewrite length_seqZ. reflexivity.
  - apply Forall_seqZ. intros r Hr. apply draw_spawns_above_one; [done|lia].
Qed.

End Saturation.

(** * Further properties *)

(** ** Decimal texts and years *)

Lemma of_uint_acc_value u acc :
  Zpos (Pos.of_uint_acc u acc) = uint_value u (Zpos acc).
Proof.
  revert acc. induction u as [|u IH|u IH|u IH|u IH|u IH|u IH|u IH|u IH|u IH|u IH];
    intros acc; simpl; [done|..]; rewrite IH;
    apply (f_equal (uint_value u)); lia.
Qed.

Lemma of_uint_value u : Z.of_N (Pos.of_uint u) = uint_value u 0.
Proof.
  induction u as [|u IH|u IH|u IH|u IH|u IH|u IH|u IH|u IH|u IH|u IH];
    simpl; [done|exact IH|..]; by rewrite of_uint_acc_value.
Qed.

Lemma digits_value_cons c s acc d :
  QDate.digit c = Some d ->
  digits_value (String c s) acc = digits_value s (10 * acc + d).
Proof. intros H. simpl. by rewrite H. Qed.

Lemma string_of_uint_value u acc :
  digits_value (NilEmpty.string_of_uint u) acc = Some (uint_value u acc).
Proof.
  revert acc. induction u as [|u IH|u IH|u IH|u IH|u IH|u IH|u IH|u IH|u IH|u IH];
    intros acc; [done|..];
    simpl NilEmpty.string_of_uint;
    match goal with |- context [String ?c _] =>
      let d := eval vm_compute in (QDate.digit c) in
      match d with Some ?k => rewrite (digits_value_cons c _ _ k eq_refl) end
    end;
    rewrite IH; simpl uint_value;
    apply (f_equal (fun x => Some (uint_value u x))); lia.
Qed.

Lemma to_uint_value p : uint_value (Pos.to_uint p) 0 = Zpos p.
Proof. by rewrite <- of_uint_value, DecimalPos.Unsigned.of_to. Qed.

(** The first digit of a positive number is no zero. *)
Lemma to_uint_head p l : Pos.to_uint p <> Decimal.D0 l.
Proof.
  intros E.
  assert (Decimal.unorm (Pos.to_uint p) = Pos.to_uint p) as Hn.
  { rewrite <- DecimalPos.Unsigned.to_of, DecimalPos.Unsigned.of_to. done. }
  rewrite E, DecimalFacts.unorm_D0 in Hn.
  destruct l as [|l|l|l|l|l|l|l|l|l|l];
    [apply (DecimalPos.Unsigned.to_uint_nonzero p); by rewrite E|..].
  all: match type of Hn with Decimal.unorm ?u = _ =>
         pose proof (DecimalFacts.nb_digits_unorm u) as Hd end;
       rewrite Hn in Hd; simpl in Hd;
       specialize (Hd ltac:(discriminate)); apply Nat.nle_succ_diag_l in Hd; done.
Qed.

Lemma year_text_value s y :
  QDate.year_text s = Some y ->
  exists c1 c2 c3 c4 d1 d2 d3 d4,
    s = String c1 (String c2 (String c3 (String c4 EmptyString)))
    /\ QDate.digit c1 = Some d1 /\ QDate.digit c2 = Some d2
    /\ QDate.digit c3 = Some d3 /\ QDate.digit c4 = Some d4
    /\ y = 1000 * d1 + 100 * d2 + 10 * d3 + d4.
Proof.
  destruct s as [|c1 [|c2 [|c3 [|c4 [|? ?]]]]]; try done. simpl.
  unfold QDate.number4, QDate.number2.
  destruct (QDate.digit c1) as [d1|] eqn:E1; [|done].
  destruct (QDate.digit c2) as [d2|] eqn:E2; [|done].
  destruct (QDate.digit c3) as [d3|] eqn:E3; [|done].
  destruct (QDate.digit c4) as [d4|] eqn:E4; [|done].
  intros [= <-]. exists c1, c2, c3, c4, d1, d2, d3, d4.
  repeat split; try done. lia.
Qed.

(** The text of a number names a year of four digits exactly when the
    number is between 1000 and 9999, and the year is that number. *)
Lemma number_year z y :
  QDate.year_text (QString.number z) = Some y -> y = z /\ 1000 <= z <= 9999.
Proof.
  intros H. apply year_text_value in H
    as (c1 & c2 & c3 & c4 & d1 & d2 & d3 & d4 & Hs & H1 & H2 & H3 & H4 & ->).
  unfold QString.number in Hs. destruct z as [|p|p]; simpl in Hs.
  - discriminate Hs.
  - unfold NilZero.string_of_uint in Hs.
    pose proof (string_of_uint_value (Pos.to_uint p) 0) as Hv.
    pose proof (to_uint_head p) as Hh.
    rewrite to_uint_value in Hv.
    assert (NilEmpty.string_of_uint (Pos.to_uint p)
            = String c1 (String c2 (String c3 (String c4 EmptyString)))) as Hs'
      by (destruct (Pos.to_uint p); [discriminate Hs|done..]).
    rewrite Hs' in Hv. simpl in Hv. rewrite H1, H2, H3, H4 in Hv.
    injection Hv as Hv.
    pose proof (digit_range _ _ H1). pose proof (digit_range _ _ H2).
    pose proof (digit_range _ _ H3). pose proof (digit_range _ _ H4).
    split; [lia|]. split; [|lia].
    destruct (Z.eq_dec d1 0) as [->|?]; [|lia].
    exfalso. destruct (Pos.to_uint p) as [|l|l|l|l|l|l|l|l|l|l]; simpl in Hs';
      try (injection Hs' as <- _; vm_compute in H1; discriminate H1).
    + discriminate Hs'.
    + by apply (Hh l).
  - injection Hs as <- _. vm_compute in H1. discriminate H1.
Qed.

Lemma wrap32_range z : INT_MIN <= wrap32 z <= INT_MAX.
Proof.
  unfold wrap32, INT_MIN, INT_MAX.
  pose proof (Z.mod_pos_bound (z + 2 ^ 31) (2 ^ 32) ltac:(lia)). lia.
Qed.

Lemma wrap32_id z : INT_MIN <= z <= INT_MAX -> wrap32 z = z.
Proof.
  unfold wrap32, INT_MIN, INT_MAX. intros H.
  rewrite Z.mod_small by lia. lia.
Qed.

Lemma QString_toInt_range s v : QString.toInt s = Some v -> INT_MIN <= v <= INT_MAX.
Proof.
  unfold QString.toInt.
  destruct (match QString.skip_spaces s with
            | EmptyString => _ | String c r => _ end) as [neg body].
  destruct (QString.read_digits body 0 false) as [w|]; [|done].
  destruct (in_int _) eqn:E; [|done]. intros [= <-].
  unfold in_int in E. apply andb_prop in E as [?%Z.leb_le ?%Z.leb_le]. done.
Qed.

Lemma QVariant_toInt_range v : INT_MIN <= QVariant.toInt v <= INT_MAX.
Proof.
  destruct v as [|z|s|l|m]; simpl; try (unfold INT_MIN, INT_MAX; lia).
  - apply wrap32_range.
  - destruct (QString.toInt s) as [w|] eqn:E; simpl;
      [by eapply QString_toInt_range|unfold INT_MIN, INT_MAX; lia].
Qed.

(** A day of a year that is not a leap year lies within the plain
    length of its month. *)
Lemma isValidYMD_plain y m d :
  QDate.isValidYMD y m d = true -> QDate.isLeapYear y = false ->
  1 <= m <= 12 /\ 1 <= d <= QDate.monthDays m.
Proof.
  unfold QDate.isValidYMD. destruct (y =? 0); [done|]. intros H Hl.
  rewrite Hl, andb_false_r, orb_false_r in H.
  repeat (apply andb_prop in H as [H ?]). lia.
Qed.

(** [addYears] from a year that is not a leap year, staying after the
    year 0: the same month and day. *)
Lemma addYears_plain y m d n :
  1 <= y -> 1 <= y + n ->
  QDate.isValidYMD y m d = true -> QDate.isLeapYear y = false ->
  QDate.addYears (Date y m d) n = Date (y + n) m d.
Proof.
  intros Hy Hn Hv Hl. destruct (isValidYMD_plain _ _ _ Hv Hl) as [Hm Hd].
  unfold QDate.addYears.
  replace ((0 <? y) && (y + n <=? 0) || (y <? 0) && (0 <=? y + n)) with false
    by (symmetry; apply orb_false_iff; split; apply andb_false_iff; lia).
  assert (forall d', 1 <= d' <= QDate.monthDays m ->
                     QDate.setDate (y + n) m d' = Date (y + n) m d') as Hset.
  { intros d' Hd'. unfold QDate.setDate.
    rewrite isValidYMD_intro; [done|lia|lia|lia|left; lia]. }
  rewrite Hset by (pose proof (monthDays_ge m Hm); lia).
  assert (QDate.monthDays m <= QDate.daysInMonth (y + n) m) as Hdm.
  { unfold QDate.daysInMonth. destruct (_ && _) eqn:E; [|lia].
    apply andb_prop in E as [->%Z.eqb_eq _]. simpl. lia. }
  rewrite Z.min_l by lia. by apply Hset.
Qed.

Lemma fromJulianDay_not_below_null jd :
  QDate.nullJd <= QDate.toJulianDay (QDate.fromJulianDay jd).
Proof.
  unfold QDate.fromJulianDay.
  destruct (_ && _) eqn:E; [|done].
  apply andb_prop in E as [H1%Z.leb_le H2%Z.leb_le].
  unfold QDate.minJd, QDate.maxJd in *.
  unfold QDate.getDateFromJulianDay. cbv zeta.
  unfold QDate.toJulianDay, QDate.julianDayFromDate, QDate.nullJd, INT64_MIN.
  cbv zeta.
  repeat match goal with |- context [if ?c then _ else _] => destruct c end;
  Z.div_mod_to_equations; lia.
Qed.


(** ** Between binary32 and binary64 *)

Lemma digits2_pos_shift m k :
  0 <= k -> Z.pos (digits2_pos m) + k
            = Zdigits2 (Z.pos m * 2 ^ k).
Proof.
  intros Hk. pose proof (digits2_pos_bounds m) as [Hlo Hhi].
  set (d := Z.pos (digits2_pos m)) in *.
  assert (0 < 2 ^ k) by (apply Z.pow_pos_nonneg; lia).
  symmetry. apply Zdigits2_unique; [|lia].
  replace (d + k - 1) with (d - 1 + k) by lia.
  rewrite !Z.pow_add_r by (subst d; lia).
  split; [apply Z.mul_le_mono_nonneg_r|apply Z.mul_lt_mono_pos_r]; lia.
Qed.

Lemma shr_1_double m :
  shr_1 {| shr_m := Z.pos m~0; shr_r := false; shr_s := false |}
  = {| shr_m := Z.pos m; shr_r := false; shr_s := false |}.
Proof. reflexivity. Qed.

Lemma pow2_double p : (2 ^ p~0 = 2 ^ p * 2 ^ p)%positive.
Proof.
  apply Pos2Z.inj. rewrite Pos2Z.inj_mul, !Pos2Z.inj_pow.
  replace (Z.pos p~0) with (Z.pos p + Z.pos p) by lia.
  by rewrite Z.pow_add_r by lia.
Qed.

(** Shifting out zeros is exact. *)
Lemma iter_pos_shr_exact p m :
  SpecFloat.iter_pos shr_1 p
    {| shr_m := Z.pos (m * 2 ^ p); shr_r := false; shr_s := false |}
  = {| shr_m := Z.pos m; shr_r := false; shr_s := false |}.
Proof.
  revert m. induction p as [p IH|p IH|]; intros m.
  - change (SpecFloat.iter_pos shr_1 p
              (SpecFloat.iter_pos shr_1 p
                 (shr_1 {| shr_m := Z.pos (m * 2 ^ p~1); shr_r := false;
                           shr_s := false |}))
            = {| shr_m := Z.pos m; shr_r := false; shr_s := false |}).
    replace (m * 2 ^ p~1)%positive with ((m * 2 ^ p * 2 ^ p)~0)%positive.
    + rewrite shr_1_double, IH, IH. done.
    + rewrite Pos.xI_succ_xO, Pos.pow_succ_r, pow2_double. lia.
  - change (SpecFloat.iter_pos shr_1 p
              (SpecFloat.iter_pos shr_1 p
                 {| shr_m := Z.pos (m * 2 ^ p~0); shr_r := false;
                    shr_s := false |})
            = {| shr_m := Z.pos m; shr_r := false; shr_s := false |}).
    replace (m * 2 ^ p~0)%positive with (m * 2 ^ p * 2 ^ p)%positive.
    + rewrite IH, IH. done.
    + rewrite pow2_double. lia.
  - change (shr_1 {| shr_m := Z.pos (m * 2 ^ 1); shr_r := false; shr_s := false |}
            = {| shr_m := Z.pos m; shr_r := false; shr_s := false |}).
    replace (m * 2 ^ 1)%positive with (m~0)%positive by lia.
    apply shr_1_double.
Qed.

Lemma shr_fexp_53 m e l :
  Zdigits2 m = 53 -> -1074 <= e ->
  shr_fexp 53 1024 m e l = (shr_record_of_loc m l, e).
Proof.
  intros Hm He. unfold shr_fexp. rewrite Hm.
  replace (fexp 53 1024 (53 + e) - e) with 0 by (unfold fexp, emin; lia).
  reflexivity.
Qed.

(** A finite binary32 number, in binary64: the mantissa is shifted to 53
    digits. *)
Lemma SFconv_up s m e :
  valid_binary 24 128 (S754_finite s m e) = true ->
  exists k : positive,
    SFconv 53 1024 (S754_finite s m e)
    = S754_finite s (m * 2 ^ k) (e - Z.pos k)
    /\ Z.pos (digits2_pos m) + Z.pos k = 53.
Proof.
  unfold valid_binary, bounded, canonical_mantissa. intros H.
  apply andb_prop in H as [Hc%Z.eqb_eq He%Z.leb_le].
  set (d := Z.pos (digits2_pos m)) in *.
  assert (0 < d) as Hd by (subst d; lia).
  assert (d <= 24 /\ -149 <= e) as [Hd24 Hemin]
    by (unfold fexp, emin in Hc; lia).
  unfold SFconv, binary_round. fold d.
  replace (fexp 53 1024 (d + e)) with (d + e - 53) by (unfold fexp, emin; lia).
  unfold shl_align.
  destruct (d + e - 53 - e) as [|k|k] eqn:Ek; try lia.
  exists k. split; [|lia].
  assert (Z.pos (Pos.iter xO m k) = Z.pos m * 2 ^ Z.pos k) as Hm by apply iter_xO_mul.
  assert (Pos.iter xO m k = (m * 2 ^ k)%positive) as ->.
  { apply Pos2Z.inj. rewrite Hm, Pos2Z.inj_mul, Pos2Z.inj_pow. done. }
  assert (Zdigits2 (Z.pos (m * 2 ^ k)) = 53) as Hdig.
  { rewrite Pos2Z.inj_mul, Pos2Z.inj_pow. rewrite <- digits2_pos_shift by lia.
    fold d. lia. }
  replace (d + e - 53) with (e - Z.pos k) by lia.
  unfold binary_round_aux. rewrite shr_fexp_53 by (done || lia).
  rewrite shr_m_of_loc, loc_of_shr_record_of_loc.
  change (round_nearest_even (Z.pos (m * 2 ^ k)) loc_Exact) with (Z.pos (m * 2 ^ k)).
  rewrite shr_fexp_53 by (done || lia). rewrite shr_m_of_loc.
  replace (e - Z.pos k <=? 1024 - 53) with true by (symmetry; apply Z.leb_le; lia).
  done.
Qed.

(** And back: the zeros are shifted out again. *)
Lemma SFconv_down s m e k :
  valid_binary 24 128 (S754_finite s m e) = true ->
  Z.pos (digits2_pos m) + Z.pos k = 53 ->
  SFconv 24 128 (S754_finite s (m * 2 ^ k) (e - Z.pos k)) = S754_finite s m e.
Proof.
  unfold valid_binary, bounded, canonical_mantissa. intros H Hk.
  apply andb_prop in H as [Hc%Z.eqb_eq He%Z.leb_le].
  set (d := Z.pos (digits2_pos m)) in *.
  assert (Z.pos (digits2_pos (m * 2 ^ k)) = 53) as Hdig.
  { change (Zdigits2 (Z.pos (m * 2 ^ k)) = 53).
    rewrite Pos2Z.inj_mul, Pos2Z.inj_pow. rewrite <- digits2_pos_shift by lia.
    fold d. lia. }
  unfold SFconv, binary_round. rewrite Hdig.
  replace (53 + (e - Z.pos k)) with (d + e) by lia. rewrite Hc.
  unfold shl_align.
  replace (e - (e - Z.pos k)) with (Z.pos k) by lia.
  unfold binary_round_aux, shr_fexp.
  change (Zdigits2 (Z.pos (m * 2 ^ k))) with (Z.pos (digits2_pos (m * 2 ^ k))).
  rewrite Hdig.
  replace (53 + (e - Z.pos k)) with (d + e) by lia. rewrite Hc.
  replace (e - (e - Z.pos k)) with (Z.pos k) by lia.
  unfold shr. simpl shr_record_of_loc. rewrite iter_pos_shr_exact.
  simpl shr_m. simpl loc_of_shr_record. simpl round_nearest_even.
  change (Zdigits2 (Z.pos m)) with d.
  replace (e - Z.pos k + Z.pos k) with e by lia. rewrite Hc.
  replace (e - e) with 0 by lia. simpl.
  replace (e <=? 128 - 24) with true by (symmetry; by apply Z.leb_le).
  done.
Qed.

(** A binary32 number survives the way to binary64 and back. *)
Lemma of_double_of_float x :
  is_binary32 x = true -> F.of_double (D.of_float x) = x.
Proof.
  destruct x as [s|s| |s m e]; try done. intros Hv.
  change (valid_binary 24 128 (S754_finite s m e) = true) in Hv.
  change (SFconv 24 128 (SFconv 53 1024 (S754_finite s m e)) = S754_finite s m e).
  destruct (SFconv_up s m e Hv) as (k & -> & Hk).
  by apply SFconv_down.
Qed.

Lemma SFcompare_refl x : SFfinite x = true -> SFcompare x x = Some Eq.
Proof.
  destruct x as [s|s| |s m e]; try done. intros _. simpl.
  rewrite Z.compare_refl, Pos.compare_cont_refl. by destruct s.
Qed.

Lemma SFsub_diag prec emax x :
  SFfinite x = true -> SFsub prec emax x x = S754_zero false.
Proof.
  destruct x as [[|]|s| |s m e]; try done. intros _. simpl.
  by rewrite Z.sub_diag.
Qed.

Lemma SFmul_zero_r prec emax x s :
  SFfinite x = true -> exists s', SFmul prec emax x (S754_zero s) = S754_zero s'.
Proof. destruct x as [sx|sx| |sx m e]; try done; intros _; simpl; eauto. Qed.

(** The sum of a binary32 number, taken to binary64, and a zero is the
    number again, up to the sign of a zero. *)
Lemma of_double_add_zero x s :
  is_binary32 x = true ->
  SFcompare (F.of_double (D.add (D.of_float x) (S754_zero s))) x = Some Eq.
Proof.
  intros Hx. destruct x as [sx|sx| |sx m e]; try done.
  - by destruct sx, s.
  - pose proof (of_double_of_float _ Hx) as Hrt.
    change (valid_binary 24 128 (S754_finite sx m e) = true) in Hx.
    destruct (SFconv_up sx m e Hx) as (k & Hup & _).
    unfold D.add, D.of_float, D.prec, D.emax in *. rewrite Hup in *.
    simpl SFadd. rewrite Hrt. by apply SFcompare_refl.
Qed.

Lemma D_of_float_finite x : is_binary32 x = true -> SFfinite (D.of_float x) = true.
Proof.
  destruct x as [sx|sx| |sx m e]; try done. intros Hx.
  change (valid_binary 24 128 (S754_finite sx m e) = true) in Hx.
  destruct (SFconv_up sx m e Hx) as (k & Hup & _).
  unfold D.of_float, D.prec, D.emax. by rewrite Hup.
Qed.

(** The integer part of a finite number that is not negative is the
    floor of its value. *)
Lemma SFtrunc_floor x q :
  SFtoQ x = Some q -> (0 <= q)%Q -> SFtrunc x = Some (Qround.Qfloor q).
Proof.
  destruct x as [s|s| |s m e]; try done; simpl.
  - intros [= <-] _. done.
  - intros [= <-] Hq. destruct s.
    { exfalso. unfold Qle in Hq.
      destruct e as [|p|p]; cbn [Qopp Qnum Qden inject_Z] in Hq; [lia| |lia].
      assert (0 < Z.pos m * 2 ^ Z.pos p)
        by (apply Z.mul_pos_pos; [lia|apply Z.pow_pos_nonneg; lia]).
      lia. }
    f_equal. destruct e as [|p|p]; simpl.
    + rewrite Z.div_1_r, Z.shiftl_mul_pow2 by lia. done.
    + rewrite Z.div_1_r, Z.shiftl_mul_pow2 by lia. done.
    + rewrite Z.shiftr_div_pow2 by lia. rewrite Pos2Z.inj_pow. done.
Qed.


Section Further.
Context {P : Platform}.

(** ** The constructor *)

(** X1.  The constructor, lines 33-190: whatever the record, the shower
    starts INVALID or UNDEFINED, without a meteor, its radiant at the
    peak position; an INVALID one has no colour. *)
Theorem X1_constructed_initial map s :
  MeteorShower_new map = Some s ->
  (m_status s = INVALID \/ m_status s = UNDEFINED)
  /\ m_activeMeteors s = []
  /\ m_radiantAlpha s = m_rAlphaPeak s /\ m_radiantDelta s = m_rDeltaPeak s
  /\ (m_status s = INVALID -> m_colors s = []).
Proof.
  rewrite MeteorShower_new_unfold.
  destruct (mandatory_missing map); [intros [= <-]; simpl; tauto|]. simpl.
  destruct (forallb _ _); simpl; [|intros [= <-]; simpl; tauto].
  destruct (windows map !! 0%nat) as [g|]; simpl; [|done].
  destruct (fill_loop _ _ _ _) as [[acts' ok]|]; simpl; [|done].
  destruct ok; simpl; intros [= <-]; simpl; [|tauto].
  repeat split; try done. by right.
Qed.

(** X2.  The constructor, lines 75-160: a shower that is not INVALID has one
    window for each sub-record of the catalog, in the order of the
    catalog, and each window keeps the year that its sub-record names
    (0 for a text that is no number, such as the word generic). *)
Theorem X2_constructed_windows map s :
  MeteorShower_new map = Some s -> m_status s <> INVALID ->
  length (m_activities s) = length (QVariant.toList (value map "activity"))
  /\ forall (i : nat) ms,
       QVariant.toList (value map "activity") !! i = Some ms ->
       exists a, m_activities s !! i = Some a
                 /\ year a = QVariant.toInt (value (QVariant.toMap ms) "year").
Proof.
  intros Hnew Hst.
  destruct (constructed map s Hnew Hst) as (_ & _ & g & Hg & Hg' & Hlen & Hfill).
  split; [rewrite Hlen; unfold windows; by rewrite length_fmap|].
  intros i ms Hms.
  assert (windows map !! i = Some (read_activity ms).1) as Hw
    by (unfold windows; by rewrite list_lookup_fmap, Hms).
  assert (year (read_activity ms).1 = QVariant.toInt (value (QVariant.toMap ms) "year"))
    as Hy.
  { unfold read_activity. destruct (raw_activity ms) as [d ok] eqn:E. simpl.
    destruct (fix_years_zhr d) as (_ & _ & -> & _).
    unfold raw_activity in E.
    destruct (if _ =? -1 then _ else _) as [var ok'] in E.
    inversion E; subst. done. }
  destruct i as [|i].
  - exists (read_activity ms).1. split; [congruence|done].
  - exists (fill g (read_activity ms).1).
    split; [|unfold fill; destruct (_ =? 0); exact Hy].
    rewrite Hfill by lia. by rewrite Hw.
Qed.

Lemma split_dash_free s : Forall (fun p => dash_free p = true) (QString.split_dash s).
Proof.
  induction s as [|c s IH]; simpl; [by constructor|].
  destruct (Ascii.eqb c "-") eqn:E; [by constructor|].
  destruct (QString.split_dash s) as [|h t]; [constructor; [simpl; by rewrite E|done]|].
  inversion IH as [|? ? Hh Ht]; subst.
  constructor; [simpl; by rewrite E, Hh|done].
Qed.

Lemma skip_spaces_dash_free s :
  dash_free s = true -> dash_free (QString.skip_spaces s) = true.
Proof.
  induction s as [|c s IH]; simpl; [done|].
  intros [Hc Hs]%andb_prop. destruct (QString.is_space c); [by apply IH|].
  simpl. by rewrite Hc, Hs.
Qed.

Lemma read_digits_nonneg s acc seen v :
  0 <= acc -> QString.read_digits s acc seen = Some v -> 0 <= v.
Proof.
  revert acc seen. induction s as [|c s IH]; intros acc seen Hacc; simpl.
  - destruct seen; [by intros [= <-]|done].
  - destruct (QDate.digit c) as [d|] eqn:Hd.
    + apply IH. apply digit_range in Hd. lia.
    + destruct (seen && _); [by intros [= <-]|done].
Qed.

Lemma toInt_dash_free s v :
  dash_free s = true -> QString.toInt s = Some v -> 0 <= v.
Proof.
  intros Hs%skip_spaces_dash_free. unfold QString.toInt.
  destruct (QString.skip_spaces s) as [|c r]; simpl in *.
  - done.
  - apply andb_prop in Hs as [Hc Hr]. apply negb_true_iff in Hc. rewrite Hc.
    destruct (Ascii.eqb c "+");
      (destruct (QString.read_digits _ 0 false) as [w|] eqn:E; [|done]);
      apply read_digits_nonneg in E; [|lia| |lia];
      (destruct (in_int w); [by intros [= <-]|done]).
Qed.

Lemma raw_activity_range ms :
  (raw_activity ms).2 = true -> range_nonneg (raw_activity ms).1.
Proof.
  unfold raw_activity, range_nonneg.
  destruct (QVariant.toInt (value (QVariant.toMap ms) "zhr") =? -1) eqn:Hz.
  - destruct (read_variable _) as [var ok] eqn:E. simpl. intros -> _.
    pose proof (read_variable_true
                  (QString.split_dash
                     (QVariant.toString (value (QVariant.toMap ms) "variable")))) as [H _].
    rewrite E in H. destruct (H eq_refl) as (a & b & x & y & Hl & Ha & Hb).
    pose proof (split_dash_free
                  (QVariant.toString (value (QVariant.toMap ms) "variable"))) as Hfree.
    rewrite Hl in Hfree, E. simpl in E. rewrite Ha, Hb in E. injection E as <-.
    inversion Hfree as [|? ? Hfa Hfree']; subst.
    inversion Hfree' as [|? ? Hfb _]; subst.
    exists x, y. split; [done|]. split; eauto using toInt_dash_free.
  - simpl. intros _. apply Z.eqb_neq in Hz. done.
Qed.

Lemma fill_range g a : range_nonneg g -> range_nonneg a -> range_nonneg (fill g a).
Proof.
  unfold range_nonneg, fill. intros Hg Ha.
  destruct (zhr a =? 0) eqn:E; [exact Hg|exact Ha].
Qed.

(** X3.  The constructor, lines 79-97: a dash separates the two bounds of a
    variable rate, so neither can carry a sign: in a shower that is not
    INVALID every variable window has a range of two numbers that are
    not negative. *)
Theorem X3_constructed_range map s (i : nat) a :
  MeteorShower_new map = Some s -> m_status s <> INVALID ->
  m_activities s !! i = Some a -> range_nonneg a.
Proof.
  intros Hnew Hst.
  destruct (constructed map s Hnew Hst) as (_ & Hall & g & Hg & Hg' & Hlen & Hfill).
  assert (forall (j : nat) b, windows map !! j = Some b -> range_nonneg b) as Hw.
  { intros j b Hb. apply windows_lookup in Hb as (ms & Hms & ->).
    rewrite forallb_forall in Hall.
    assert ((read_activity ms).2 = true) as Hok
      by (apply Hall, list_elem_of_In; by eapply list_elem_of_lookup_2).
    pose proof (raw_activity_range ms) as Hr. unfold read_activity in *.
    destruct (raw_activity ms) as [d ok]. simpl in *.
    unfold range_nonneg. destruct (fix_years_zhr d) as (-> & -> & _). by apply Hr. }
  destruct i as [|i].
  - rewrite Hg'. intros [= <-]. by apply (Hw 0%nat).
  - rewrite Hfill by lia.
    destruct (windows map !! S i) as [a0|] eqn:E; [|done].
    intros [= <-]. apply fill_range; [by apply (Hw 0%nat)|by apply (Hw (S i))].
Qed.

Lemma raw_activity_year ms :
  year (raw_activity ms).1 = QVariant.toInt (value (QVariant.toMap ms) "year").
Proof.
  unfold raw_activity. by destruct (if _ =? -1 then _ else _) as [var ok].
Qed.

Lemma read_date_year am key z y m d :
  read_date am key (QString.number z) = Date y m d ->
  y = z /\ 1000 <= z <= 9999 /\ QDate.isValidYMD z m d = true.
Proof.
  intros H. apply read_date_Date in H as (Hy & Hv & _).
  apply number_year in Hy as [-> ?]. done.
Qed.

(** The dates of a window as the first loop leaves them, when its
    sub-record gave all three. *)
Lemma read_activity_years ms :
  dates_valid (raw_activity ms).1 = true ->
  let a := (read_activity ms).1 in
  let y := if year a =? 0 then genericYear else year a in
  1000 <= y <= 9999
  /\ (exists m d, start a = Date y m d /\ QDate.isValidYMD y m d = true)
  /\ (exists y' m d, finish a = Date y' m d /\ QDate.isValidYMD y' m d = true
                     /\ (y' = y \/ y' = y + 1))
  /\ (exists y' m d, peak a = Date y' m d /\ QDate.isValidYMD y' m d = true
                     /\ (y' = y \/ y' = y + 1)).
Proof.
  intros Hv. pose proof (raw_activity_year ms) as Hyr. revert Hv Hyr.
  unfold read_activity, raw_activity.
  destruct (if _ =? -1 then _ else _) as [var ok]. simpl.
  set (am := QVariant.toMap ms).
  set (z := if QVariant.toInt (value am "year") =? 0 then genericYear
            else QVariant.toInt (value am "year")).
  unfold fix_years. intros Hv _. rewrite Hv. simpl.
  unfold dates_valid in Hv. simpl in Hv.
  destruct (read_date am "start" (QString.number z)) as [|y m d] eqn:Es; [done|].
  destruct (read_date am "finish" (QString.number z)) as [|y1 m1 d1] eqn:Ef; [done|].
  destruct (read_date am "peak" (QString.number z)) as [|y2 m2 d2] eqn:Ep; [done|].
  apply read_date_year in Es as (-> & Hz & Hs).
  apply read_date_year in Ef as (-> & _ & Hf).
  apply read_date_year in Ep as (-> & _ & Hp).
  split; [done|]. split; [by eauto|].
  split.
  - destruct (QDate.gtb _ _); [|by eauto 10].
    destruct (addYears_one z m1 d1) as (d' & -> & Hv'); [lia|done|]. eauto 10.
  - destruct (QDate.gtb _ _); [|by eauto 10].
    destruct (addYears_one z m2 d2) as (d' & -> & Hv'); [lia|done|]. eauto 10.
Qed.

(** X4.  The constructor, lines 99-130: a window whose sub-record gives its
    three dates lies in the year that the sub-record names, or in the
    year 1000 when it names none; that year is between 1000 and 9999,
    the start is in it, the finish and the peak in it or in the next. *)
Theorem X4_constructed_dated_years map s (i : nat) ms :
  MeteorShower_new map = Some s -> m_status s <> INVALID ->
  QVariant.toList (value map "activity") !! i = Some ms ->
  dates_valid (raw_activity ms).1 = true ->
  exists a,
    m_activities s !! i = Some a
    /\ (let y := if year a =? 0 then genericYear else year a in
        1000 <= y <= 9999
        /\ QDate.year (start a) = y
        /\ (QDate.year (finish a) = y \/ QDate.year (finish a) = y + 1)
        /\ (QDate.year (peak a) = y \/ QDate.year (peak a) = y + 1)).
Proof.
  intros Hnew Hst Hms Hv.
  destruct (constructed map s Hnew Hst) as (_ & _ & g & Hg & Hg' & _ & Hfill).
  pose proof (read_activity_dated ms Hv) as (Hva & _).
  pose proof (read_activity_years ms Hv)
    as (Hy & (m & d & Es & _) & (y1 & m1 & d1 & Ef & _ & Hy1)
        & (y2 & m2 & d2 & Ep & _ & Hy2)).
  simpl in *. set (a := (read_activity ms).1) in *.
  assert (windows map !! i = Some a) as Ha.
  { unfold windows. rewrite list_lookup_fmap, Hms. done. }
  destruct i as [|i].
  - exists a. split; [congruence|]. rewrite Es, Ef, Ep. done.
  - exists (fill g a). split; [rewrite Hfill by lia; by rewrite Ha|].
    destruct (fill_dated g a Hva) as (-> & -> & ->).
    assert (year (fill g a) = year a) as ->
      by (unfold fill; by destruct (zhr a =? 0)).
    rewrite Es, Ef, Ep. done.
Qed.

(** X5.  The constructor, lines 146-150: under a template without a year
    that gives its three dates, a date that a later window does not
    give itself is the date of the template, month and day, moved to
    the year of the window: as many years after it as the date of the
    template is after the year 1000. *)
Theorem X5_constructed_inherited_dates map s (i : nat) ms0 ms :
  MeteorShower_new map = Some s -> m_status s <> INVALID ->
  QVariant.toList (value map "activity") !! 0%nat = Some ms0 ->
  QVariant.toInt (value (QVariant.toMap ms0) "year") = 0 ->
  dates_valid (raw_activity ms0).1 = true ->
  (1 <= i)%nat -> QVariant.toList (value map "activity") !! i = Some ms ->
  1 <= QVariant.toInt (value (QVariant.toMap ms) "year") ->
  exists g a,
    m_activities s !! 0%nat = Some g /\ m_activities s !! i = Some a
    /\ (let moved (own inherited template : QDate) :=
          QDate.isValid own = false ->
          inherited = Date (year a + (QDate.year template - genericYear))
                        (QDate.month template) (QDate.day template) in
        moved (start (raw_activity ms).1) (start a) (start g)
        /\ moved (finish (raw_activity ms).1) (finish a) (finish g)
        /\ moved (peak (raw_activity ms).1) (peak a) (peak g)).
Proof.
  intros Hnew Hst Hms0 Hy0 Hv0 Hi Hms Hy.
  destruct (constructed map s Hnew Hst) as (_ & _ & g & Hg & Hg' & _ & Hfill).
  assert (g = (read_activity ms0).1) as ->.
  { unfold windows in Hg. rewrite list_lookup_fmap, Hms0 in Hg. by injection Hg. }
  set (a0 := (read_activity ms).1).
  assert (windows map !! i = Some a0) as Ha
    by (unfold windows; by rewrite list_lookup_fmap, Hms).
  exists (read_activity ms0).1, (fill (read_activity ms0).1 a0).
  split; [done|]. split; [rewrite Hfill by lia; by rewrite Ha|].
  pose proof (read_activity_years ms0 Hv0)
    as (_ & (m & d & Es & Vs) & (y1 & m1 & d1 & Ef & Vf & Hy1)
        & (y2 & m2 & d2 & Ep & Vp & Hy2)).
  simpl in Es, Vs, Ef, Vf, Hy1, Ep, Vp, Hy2.
  assert (year (read_activity ms0).1 = 0) as Hg0.
  { unfold read_activity. destruct (raw_activity ms0) as [d0 ok] eqn:E. simpl.
    destruct (fix_years_zhr d0) as (_ & _ & -> & _).
    pose proof (raw_activity_year ms0) as H. rewrite E in H. simpl in H. congruence. }
  rewrite Hg0 in *. simpl in Es, Vs, Ef, Vf, Hy1, Ep, Vp, Hy2.
  assert (year a0 = QVariant.toInt (value (QVariant.toMap ms) "year")
          /\ start a0 = start (raw_activity ms).1
          /\ QDate.isValid (finish a0) = QDate.isValid (finish (raw_activity ms).1)
          /\ QDate.isValid (peak a0) = QDate.isValid (peak (raw_activity ms).1))
    as (Hya & Hsa & Hfa & Hpa).
  { subst a0. pose proof (raw_activity_year ms) as H.
    pose proof (fix_years_isValid ms) as [H1 H2]. simpl in H1, H2.
    unfold read_activity. destruct (raw_activity ms) as [d0 ok]. simpl in *.
    destruct (fix_years_zhr d0) as (_ & _ & -> & ->). done. }
  assert (year (fill (read_activity ms0).1 a0) = year a0) as ->
    by (unfold fill; by destruct (zhr a0 =? 0)).
  pose proof (QVariant_toInt_range (value (QVariant.toMap ms) "year")) as Hr.
  assert (wrap32 (year a0 - genericYear) = year a0 - genericYear) as Haux.
  { apply wrap32_id. unfold INT_MIN, INT_MAX, genericYear in *. lia. }
  destruct (fill_field (read_activity ms0).1 a0) as (_ & (Hs & _) & (Hf & _) & (Hp & _)).
  simpl in Hs, Hf, Hp. rewrite Haux in Hs, Hf, Hp.
  unfold genericYear in *.
  split; [|split]; intros Hown.
  - rewrite Hs by (by rewrite Hsa). rewrite Es. cbn [QDate.year QDate.month QDate.day].
    rewrite addYears_plain; [f_equal; lia|lia|lia|done|done].
  - rewrite Hf by (by rewrite Hfa). rewrite Ef. cbn [QDate.year QDate.month QDate.day].
    destruct Hy1 as [-> | ->];
      (rewrite addYears_plain; [f_equal; lia|lia|lia|done|done]).
  - rewrite Hp by (by rewrite Hpa). rewrite Ep. cbn [QDate.year QDate.month QDate.day].
    destruct Hy2 as [-> | ->];
      (rewrite addYears_plain; [f_equal; lia|lia|lia|done|done]).
Qed.

Lemma read_colors_total map :
  read_colors map <> [] /\ totalIntensity (read_colors map) = 100
  /\ (contains map "colors" = false -> read_colors map = [("white"%string, 100)]).
Proof.
  unfold read_colors, totalIntensity.
  destruct (contains map "colors"); [|done].
  match goal with |- context [foldl ?f 0 ?l =? 100] =>
    destruct (foldl f 0 l =? 100) eqn:E; [|done];
    destruct l as [|p l'] eqn:El; [done|] end.
  apply Z.eqb_eq in E. done.
Qed.

(** X6.  The constructor, lines 162-185: a shower that is not INVALID has
    colours, their intensities add up to 100, and they are the single
    colour white when the record names none. *)
Theorem X6_constructed_colors map s :
  MeteorShower_new map = Some s -> m_status s <> INVALID ->
  m_colors s <> [] /\ totalIntensity (m_colors s) = 100
  /\ (contains map "colors" = false -> m_colors s = [("white"%string, 100)]).
Proof.
  rewrite MeteorShower_new_unfold.
  destruct (mandatory_missing map); [by intros [= <-]|]. simpl.
  destruct (forallb _ _); simpl; [|by intros [= <-]].
  destruct (windows map !! 0%nat) as [g|]; simpl; [|done].
  destruct (fill_loop _ _ _ _) as [[acts' ok]|]; simpl; [|done].
  destruct ok; simpl; [|by intros [= <-]].
  intros [= <-] _. simpl. apply read_colors_total.
Qed.

(** ** [enabled] and the resolver *)

(** X7.  [enabled], lines 198-216: a shower is hidden exactly when it is
    INVALID, or INACTIVE while the manager shows active radiants only;
    one that was never updated is shown. *)
Theorem X7_enabled_iff mgr s :
  enabled mgr s = true <->
  m_status s <> INVALID
  /\ (getActiveRadiantOnly mgr = true -> m_status s <> INACTIVE).
Proof.
  unfold enabled.
  destruct (m_status s), (getActiveRadiantOnly mgr); simpl; split;
    try done; try (intros [? H]; try done; by destruct H).
  all: intros _; split; done.
Qed.

(** The loop of [hasConfirmedShower] is a search in the rest of the list. *)
Lemma confirmed_loop_find acts date n i found :
  (i + n = length acts)%nat ->
  confirmed_loop acts date n i found =
    match List.find (in_window date) (drop i acts) with
    | Some a => Some (a, true)
    | None => Some (Activity_default, found)
    end.
Proof.
  revert i. induction n as [|n IH]; intros i Hlen; simpl.
  - rewrite drop_ge by lia. done.
  - destruct (lookup_lt_is_Some_2 acts i) as [a Ha]; [lia|]. rewrite Ha. simpl.
    rewrite (drop_S _ _ _ Ha). simpl.
    destruct (in_window date a); [done|]. apply IH. lia.
Qed.

(** X8.  [hasConfirmedShower], lines 425-438: the scan is a search for the
    first window after the template whose range holds the date; the
    template itself never counts, and the flag of the caller is left as
    it was when nothing is found. *)
Theorem X8_hasConfirmedShower_find g rest date found :
  hasConfirmedShower (g :: rest) date found =
    match List.find (in_window date) rest with
    | Some a => Some (a, true)
    | None => Some (Activity_default, found)
    end.
Proof.
  unfold hasConfirmedShower. rewrite confirmed_loop_find; [done|].
  simpl. lia.
Qed.

(** X9.  [hasGenericShower], lines 383-423: a window that is found holds the
    date, carries the rate and the range of the template, and has the
    year of its start for its year; nothing found is the empty
    window. *)
Theorem X9_hasGenericShower_result acts g date a found :
  acts !! 0%nat = Some g ->
  hasGenericShower acts date = Some (a, found) ->
  if found
  then in_window date a = true /\ zhr a = zhr g /\ variable a = variable g
       /\ year a = QDate.year (start a)
  else a = Activity_default.
Proof.
  unfold hasGenericShower. intros ->. simpl.
  repeat match goal with
         | |- context [if ?c then _ else _] => destruct c eqn:?; simpl
         end;
    intros H; inversion H; subst; done.
Qed.

(** X10.  [hasGenericShower], lines 408-412: the comparison with a start that
    has no day in the year of the date (29 February) is a comparison
    with the null date, which every date passes: the window of a
    template within one year is then open at its start. *)
Theorem X10_hasGenericShower_open_start acts g jd :
  let date := QDate.fromJulianDay jd in
  acts !! 0%nat = Some g ->
  QDate.year (start g) = QDate.year (finish g) ->
  QDate.isValid (project (start g) (QDate.year date)) = false ->
  exists a,
    hasGenericShower acts date
    = Some (a, QDate.leb date (project (finish g) (QDate.year date))).
Proof.
  intros date. unfold hasGenericShower, project. intros -> Hy Hs. simpl.
  apply Z.eqb_eq in Hy. rewrite Hy. simpl.
  destruct (QDate.setDate (QDate.year date) (QDate.month (start g))
              (QDate.day (start g))) eqn:E; [|done].
  assert (QDate.geb date NullDate = true) as ->
    by apply Z.leb_le, fromJulianDay_not_below_null.
  simpl. destruct (QDate.leb date _); eauto.
Qed.

(** X11.  [hasGenericShower], lines 383-423: of the template the function
    reads the month and the day of its three dates, the rate and the
    range, and whether start and finish, and peak and start, share a
    year; the years themselves play no part, nor do the later
    windows. *)
Theorem X11_hasGenericShower_template_years g g' rest rest' date :
  QDate.month (start g') = QDate.month (start g) ->
  QDate.day (start g') = QDate.day (start g) ->
  QDate.month (finish g') = QDate.month (finish g) ->
  QDate.day (finish g') = QDate.day (finish g) ->
  QDate.month (peak g') = QDate.month (peak g) ->
  QDate.day (peak g') = QDate.day (peak g) ->
  zhr g' = zhr g -> variable g' = variable g ->
  (QDate.year (start g') =? QDate.year (finish g'))
  = (QDate.year (start g) =? QDate.year (finish g)) ->
  (QDate.year (peak g') =? QDate.year (start g'))
  = (QDate.year (peak g) =? QDate.year (start g)) ->
  hasGenericShower (g' :: rest') date = hasGenericShower (g :: rest) date.
Proof.
  intros Hsm Hsd Hfm Hfd Hpm Hpd Hz Hv Hsf Hps. unfold hasGenericShower. simpl.
  by rewrite Hsm, Hsd, Hfm, Hfd, Hpm, Hpd, Hz, Hv, Hsf, Hps.
Qed.

(** X12.  [hasGenericShower], lines 383-423, away from the turn of the era:
    for a date whose year is neither 1 nor -1 (and is inside the range of
    [int] with its two neighbours), and a template whose start and finish
    are days that every year has, the result is the resolution by the two
    alignments (year, year + 1) and (year - 1, year), or by the year of
    the date alone for a template within one year. *)
Theorem X12_hasGenericShower_alignments acts g date :
  acts !! 0%nat = Some g ->
  INT_MIN < QDate.year date < INT_MAX ->
  QDate.year date < -1 \/ 1 < QDate.year date ->
  1 <= QDate.month (start g) <= 12 ->
  1 <= QDate.day (start g) <= QDate.monthDays (QDate.month (start g)) ->
  1 <= QDate.month (finish g) <= 12 ->
  1 <= QDate.day (finish g) <= QDate.monthDays (QDate.month (finish g)) ->
  hasGenericShower acts date = Some (generic_window g date).
Proof.
  intros Hg Hr Hy Hsm Hsd Hfm Hfd.
  unfold hasGenericShower, generic_window, project, year_before, year_after.
  rewrite Hg. simpl.
  set (y := QDate.year date) in *.
  rewrite !wrap32_id by (unfold INT_MIN, INT_MAX in *; lia).
  replace (y =? 1) with false by lia. replace (y =? -1) with false by lia.
  unfold QDate.setDate.
  rewrite (isValidYMD_intro y (QDate.month (start g)) (QDate.day (start g)))
    by (try done; try lia; left; lia).
  destruct (QDate.year (start g) =? QDate.year (finish g)) eqn:E; simpl.
  - rewrite (isValidYMD_intro y (QDate.month (finish g)) (QDate.day (finish g)))
      by (try done; try lia; left; lia).
    simpl. by destruct (_ && _).
  - rewrite (isValidYMD_intro (y + 1) (QDate.month (finish g)) (QDate.day (finish g)))
      by (try done; try lia; left; lia).
    simpl.
    destruct (QDate.geb date _ && QDate.leb date _); simpl; [done|].
    rewrite (isValidYMD_intro (y - 1) (QDate.month (start g)) (QDate.day (start g)))
      by (try done; try lia; left; lia).
    rewrite (isValidYMD_intro y (QDate.month (finish g)) (QDate.day (finish g)))
      by (try done; try lia; left; lia).
    simpl. by destruct (_ && _).
Qed.

(** ** [calculateZHR] *)

(** X13.  [calculateZHR], lines 455-456: the one way to fail is a variable
    window ([zhr] -1) whose range has fewer than two bounds. *)
Theorem X13_calculateZHR_fails_iff a t :
  calculateZHR a t = None <-> zhr a = -1 /\ (length (variable a) < 2)%nat.
Proof.
  unfold calculateZHR.
  destruct (zhr a =? -1) eqn:Hz; simpl.
  - apply Z.eqb_eq in Hz.
    destruct (variable a) as [|lo [|hi rest]]; simpl; split; try done;
      try (intros _; split; [done|lia]); intros [_ ?]; lia.
  - apply Z.eqb_neq in Hz. split; [done|]. by intros [? _].
Qed.

(** X14.  [calculateZHR], lines 445-453: for a time before the start of the
    window (or a time that is no number) the falling side of the curve
    is used, whatever the side of the peak. *)
Theorem X14_calculateZHR_before_start a t :
  D.geb t (julian (start a)) = false ->
  (zhr a <> -1 ->
   calculateZHR a t =
     Some (gaussian_rate (F.of_Z 0) (F.of_Z (zhr a))
             (half_span (peak a) (finish a)) (julian (peak a)) t))
  /\ (forall lo hi rest, zhr a = -1 -> variable a = lo :: hi :: rest ->
      calculateZHR a t =
        Some (gaussian_rate (F.of_Z lo) (F.of_Z hi)
                (half_span (peak a) (finish a)) (julian (peak a)) t)).
Proof.
  intros Hstart. unfold calculateZHR, gaussian_rate, half_span.
  rewrite Hstart. simpl andb. split.
  - intros Hz. apply Z.eqb_neq in Hz. rewrite Hz. simpl.
    do 2 f_equal. unfold D.add. by rewrite SFadd_comm.
  - intros lo hi rest -> ->. simpl.
    do 2 f_equal. unfold D.add. by rewrite SFadd_comm.
Qed.

(** ** [update] *)

(** X15.  [update], lines 225-227: the Julian day, a [double], is cut to its
    integer part when it is made a date, so the current date is that
    of the day number below: it changes when the Julian day passes an
    integer, at noon. *)
Theorem X15_currentDate_floor core q :
  SFtoQ (getJD core) = Some q -> (0 <= q)%Q -> (q < inject_Z (2 ^ 63))%Q ->
  currentDate core = QDate.fromJulianDay (Qround.Qfloor q).
Proof.
  intros Hq H0 H1. unfold currentDate, D.to_int64, SFto_int.
  rewrite (SFtrunc_floor _ _ Hq H0).
  assert (0 <= Qround.Qfloor q < 2 ^ 63) as [Hlo Hhi].
  { split.
    - change 0 with (Qround.Qfloor (inject_Z 0)). by apply Qround.Qfloor_resp_le.
    - destruct (Z.lt_ge_cases (Qround.Qfloor q) (2 ^ 63)) as [?|Hge]; [done|].
      exfalso. apply (Qlt_irrefl q). eapply Qlt_le_trans; [exact H1|].
      eapply Qle_trans; [|apply Qround.Qfloor_le].
      rewrite <- Zle_Qle. exact Hge. }
  replace ((INT64_MIN <=? Qround.Qfloor q) && (Qround.Qfloor q <=? INT64_MAX))
    with true; [done|].
  symmetry. apply andb_true_iff. unfold INT64_MIN, INT64_MAX.
  split; apply Z.leb_le; lia.
Qed.

(** The outcomes of a tick of a shower that is not INVALID. *)
Lemma update_cases mgr core dt s rng s' rng' :
  m_status s <> INVALID ->
  update mgr core dt s rng = Some (s', rng') ->
  exists st a,
    resolve (m_activities s) (currentDate core) = Some (st, a)
    /\ let s1 := set_activity (set_status s st) a in
       (enabled mgr s1 = false /\ s' = s1 /\ rng' = rng)
       \/ (enabled mgr s1 = true
           /\ exists new,
               s' = set_activeMeteors (fix_radiant s1 (getJD core))
                      (age_meteors (m_activeMeteors s) dt ++ new)
               /\ (getRealTimeSpeed core = false -> new = [] /\ rng' = rng)).
Proof.
  intros Hi Hup.
  destruct (update_resolves _ _ _ _ _ _ Hi Hup) as (st & a & Hres).
  exists st, a. split; [done|].
  rewrite (update_resolved _ _ _ _ _ _ _ Hi Hres) in Hup. cbv zeta in *.
  destruct (enabled mgr _); simpl in Hup; [right|left; by injection Hup as <- <-].
  split; [done|].
  destruct (getRealTimeSpeed core); simpl in Hup;
    [|injection Hup as <- <-; exists []; by rewrite app_nil_r].
  destruct (calculateZHR a (getJD core)) as [z|]; [|done].
  destruct (z <? 1); [injection Hup as <- <-; exists []; by rewrite app_nil_r|].
  match type of Hup with Some (spawn_loop ?n ?r ?s0 ?g) = _ =>
    destruct (spawn_loop_appends n r s0 g) as (new & Hs & _);
    destruct (spawn_loop n r s0 g) as [s'' rng''] end.
  injection Hup as <- <-. simpl in Hs. exists new. by rewrite Hs.
Qed.

(** The window that the resolver returns holds the date, and there is
    none when the status is INACTIVE. *)
Lemma hasGenericShower_found acts date a found :
  hasGenericShower acts date = Some (a, found) ->
  if found then in_window date a = true else a = Activity_default.
Proof.
  unfold hasGenericShower. destruct (acts !! 0%nat) as [g|]; [|done]. simpl.
  repeat match goal with
         | |- context [if ?c then _ else _] => destruct c eqn:?; simpl
         end;
    intros H; inversion H; subst; done.
Qed.

Lemma resolve_window acts date st a :
  resolve acts date = Some (st, a) ->
  match st with
  | ACTIVE_CONFIRMED | ACTIVE_GENERIC => in_window date a = true
  | INACTIVE => a = Activity_default
  | _ => False
  end.
Proof.
  unfold resolve.
  destruct (hasConfirmedShower_spec acts date)
    as [(i & b & (_ & _ & Hin & _) & ->)|(_ & ->)].
  - by intros [= <- <-].
  - destruct (hasGenericShower acts date) as [[b found]|] eqn:Hg; [|done].
    apply hasGenericShower_found in Hg.
    destruct found; by intros [= <- <-].
Qed.

(** A tick never leaves a shower UNDEFINED. *)
Lemma update_decides mgr core dt s rng s' rng' :
  m_status s <> INVALID ->
  update mgr core dt s rng = Some (s', rng') ->
  m_status s' <> INVALID /\ m_status s' <> UNDEFINED.
Proof.
  intros Hi Hup.
  destruct (update_cases _ _ _ _ _ _ _ Hi Hup)
    as (st & a & Hres & [(_ & -> & _)|(_ & new & -> & _)]);
    apply resolve_status in Hres; [done|].
  simpl.
  destruct (fix_radiant_fields (set_activity (set_status s st) a) (getJD core))
    as (-> & _).
  done.
Qed.

(** X16.  [update], lines 229-244: after a tick of a shower that is not
    INVALID the status is INACTIVE, ACTIVE_GENERIC or ACTIVE_CONFIRMED;
    an active status comes with a current window that holds the current
    date, an inactive one with the empty window. *)
Theorem X16_update_status_window mgr core dt s rng s' rng' :
  m_status s <> INVALID ->
  update mgr core dt s rng = Some (s', rng') ->
  match m_status s' with
  | ACTIVE_CONFIRMED | ACTIVE_GENERIC =>
      in_window (currentDate core) (m_activity s') = true
  | INACTIVE => m_activity s' = Activity_default
  | INVALID | UNDEFINED => False
  end.
Proof.
  intros Hi Hup.
  destruct (update_cases _ _ _ _ _ _ _ Hi Hup)
    as (st & a & Hres & [(_ & -> & _)|(_ & new & -> & _)]);
    apply resolve_window in Hres; [done|].
  simpl.
  destruct (fix_radiant_fields (set_activity (set_status s st) a) (getJD core))
    as (-> & _ & -> & _).
  done.
Qed.

(** X17.  [update], lines 246-250: a tick that leaves the shower hidden has
    only resolved the status and the window; the meteors in flight are
    not aged, the radiant is not moved and no random number is drawn. *)
Theorem X17_update_hidden mgr core dt s rng s' rng' :
  update mgr core dt s rng = Some (s', rng') ->
  enabled mgr s' = false ->
  rng' = rng /\ m_activeMeteors s' = m_activeMeteors s
  /\ m_radiantAlpha s' = m_radiantAlpha s
  /\ m_radiantDelta s' = m_radiantDelta s.
Proof.
  intros Hup Hen. destruct (decide (m_status s = INVALID)) as [Hi|Hi].
  { rewrite update_invalid in Hup by done. by injection Hup as <- <-. }
  destruct (update_cases _ _ _ _ _ _ _ Hi Hup)
    as (st & a & _ & [(_ & -> & ->)|(Hen' & new & -> & _)]); [done|].
  exfalso. rewrite (enabled_status mgr _ (set_activity (set_status s st) a)) in Hen.
  - congruence.
  - simpl. by destruct (fix_radiant_fields (set_activity (set_status s st) a)
                          (getJD core)) as (-> & _).
Qed.

(** X18.  [update], lines 253-260: a tick that leaves a shower shown and
    INACTIVE puts the radiant back at its peak position. *)
Theorem X18_update_inactive_radiant mgr core dt s rng s' rng' :
  update mgr core dt s rng = Some (s', rng') ->
  m_status s' = INACTIVE -> enabled mgr s' = true ->
  m_radiantAlpha s' = m_rAlphaPeak s' /\ m_radiantDelta s' = m_rDeltaPeak s'.
Proof.
  intros Hup Hst Hen. destruct (decide (m_status s = INVALID)) as [Hi|Hi].
  { rewrite update_invalid in Hup by done. injection Hup as <- <-. congruence. }
  destruct (update_cases _ _ _ _ _ _ _ Hi Hup)
    as (st & a & _ & [(Hen' & -> & _)|(_ & new & -> & _)]); [congruence|].
  simpl in *. unfold fix_radiant in *.
  destruct (bool_decide _) eqn:E; simpl in *; [|done].
  apply bool_decide_eq_true in E. simpl in E. done.
Qed.

(** X19.  [update], lines 252-260, at the instant of the peak: when the
    current time is the day number of the peak of the current window,
    the drift contributes nothing and the radiant of a shown shower is
    its peak radiant (the two compare equal; they differ at most in the
    sign of a zero). *)
Theorem X19_update_at_peak mgr core dt s rng s' rng' :
  is_binary32 (m_rAlphaPeak s) = true -> is_binary32 (m_rDeltaPeak s) = true ->
  is_binary32 (m_driftAlpha s) = true -> is_binary32 (m_driftDelta s) = true ->
  update mgr core dt s rng = Some (s', rng') ->
  enabled mgr s' = true ->
  SFfinite (getJD core) = true ->
  getJD core = julian (peak (m_activity s')) ->
  SFcompare (m_radiantAlpha s') (m_rAlphaPeak s') = Some Eq
  /\ SFcompare (m_radiantDelta s') (m_rDeltaPeak s') = Some Eq.
Proof.
  intros Ha Hd Hda Hdd Hup Hen Hfin Hjd.
  destruct (decide (m_status s = INVALID)) as [Hi|Hi].
  { rewrite update_invalid in Hup by done. injection Hup as <- <-.
    by rewrite enabled_invalid in Hen. }
  destruct (update_cases _ _ _ _ _ _ _ Hi Hup)
    as (st & a & _ & [(Hen' & -> & _)|(_ & new & -> & _)]); [congruence|].
  revert Hjd. simpl. unfold fix_radiant.
  destruct (bool_decide _); simpl; intros Hjd.
  - rewrite <- Hjd. unfold D.sub, D.mul. rewrite SFsub_diag by done.
    destruct (SFmul_zero_r D.prec D.emax (D.of_float (m_driftAlpha s)) false)
      as [s1 ->]; [by apply D_of_float_finite|].
    destruct (SFmul_zero_r D.prec D.emax (D.of_float (m_driftDelta s)) false)
      as [s2 ->]; [by apply D_of_float_finite|].
    split; by apply of_double_add_zero.
  - split; apply SFcompare_refl.
    + by destruct (m_rAlphaPeak s).
    + by destruct (m_rDeltaPeak s).
Qed.

(** X20.  [update], lines 271-276: while the clock does not run at real-time
    speed a tick draws no random number and creates no meteor; the
    meteors in flight are aged if the shower is shown, and left alone
    if it is not. *)
Theorem X20_update_off_real_time mgr core dt s rng s' rng' :
  getRealTimeSpeed core = false ->
  update mgr core dt s rng = Some (s', rng') ->
  rng' = rng
  /\ m_activeMeteors s'
     = (if enabled mgr s' then age_meteors (m_activeMeteors s) dt
        else m_activeMeteors s)
  /\ (length (m_activeMeteors s') <= length (m_activeMeteors s))%nat.
Proof.
  intros Hrt Hup.
  assert (rng' = rng
          /\ m_activeMeteors s'
             = (if enabled mgr s' then age_meteors (m_activeMeteors s) dt
                else m_activeMeteors s)) as [-> Hm].
  { destruct (decide (m_status s = INVALID)) as [Hi|Hi].
    { rewrite update_invalid in Hup by done. injection Hup as <- <-.
      by rewrite enabled_invalid. }
    destruct (update_cases _ _ _ _ _ _ _ Hi Hup)
      as (st & a & _ & [(Hen & -> & ->)|(Hen & new & -> & Hnew)]).
    - by rewrite Hen.
    - destruct (Hnew Hrt) as [-> ->]. rewrite app_nil_r. split; [done|].
      rewrite (enabled_status mgr _ (set_activity (set_status s st) a)).
      + by rewrite Hen.
      + simpl. by destruct (fix_radiant_fields (set_activity (set_status s st) a)
                              (getJD core)) as (-> & _). }
  split; [done|]. split; [done|]. rewrite Hm.
  destruct (enabled mgr s'); [apply age_meteors_length|done].
Qed.

(** A window without a rate gives the rate that [qRound] makes of zero,
    where the exponential is a finite number. *)
Lemma calculateZHR_unset a t :
  zhr a = 0 -> SFfinite (qExp (gaussian_exponent a t)) = true ->
  calculateZHR a t = Some (qRound (S754_zero false)).
Proof.
  intros Hz He. unfold calculateZHR. rewrite Hz. simpl.
  unfold gaussian_exponent, half_span in He.
  match goal with |- context [qExp ?x] =>
    match type of He with SFfinite (qExp ?y) = true =>
      replace x with y by (by destruct (D.geb _ _ && D.ltb _ _)) end end.
  destruct (qExp _) as [s|s| |s m e]; try done; by destruct s.
Qed.

(** X21.  [update], lines 278-283, for a current window without a rate
    ([zhr] 0), the empty window of an INACTIVE shower among them: the
    rate is the rounding of zero, so the tick creates no meteor and
    draws no random number, where [qRound] takes zero to less than 1
    and the exponential of line 459 is a finite number. *)
Theorem X21_update_without_rate mgr core dt s rng s' rng' :
  qRound (S754_zero false) < 1 ->
  update mgr core dt s rng = Some (s', rng') ->
  zhr (m_activity s') = 0 ->
  SFfinite (qExp (gaussian_exponent (m_activity s') (getJD core))) = true ->
  rng' = rng
  /\ m_activeMeteors s'
     = (if enabled mgr s' then age_meteors (m_activeMeteors s) dt
        else m_activeMeteors s).
Proof.
  intros Hround Hup Hz Hexp.
  destruct (decide (m_status s = INVALID)) as [Hi|Hi].
  { rewrite update_invalid in Hup by done. injection Hup as <- <-.
    by rewrite enabled_invalid. }
  destruct (update_cases _ _ _ _ _ _ _ Hi Hup)
    as (st & a & Hres & [(Hen & -> & ->)|(Hen & new & Hs' & _)]);
    [by rewrite Hen|].
  assert (m_activity s' = a /\ m_status s' = st) as [Ha Hst].
  { rewrite Hs'. simpl.
    by destruct (fix_radiant_fields (set_activity (set_status s st) a) (getJD core))
      as (-> & _ & -> & _). }
  rewrite Ha in Hz, Hexp.
  rewrite (update_resolved _ _ _ _ _ _ _ Hi Hres) in Hup. cbv zeta in Hup.
  rewrite Hen, calculateZHR_unset in Hup by done.
  apply Z.ltb_lt in Hround. rewrite Hround in Hup. simpl in Hup.
  assert (Some (set_activeMeteors
                  (fix_radiant (set_activity (set_status s st) a) (getJD core))
                  (age_meteors (m_activeMeteors s) dt), rng) = Some (s', rng')) as Hup'
    by (by destruct (getRealTimeSpeed core)).
  injection Hup' as <- <-. split; [done|].
  rewrite (enabled_status mgr _ (set_activity (set_status s st) a)); [by rewrite Hen|].
  simpl. by destruct (fix_radiant_fields (set_activity (set_status s st) a)
                        (getJD core)) as (-> & _).
Qed.

(** X22.  [update], lines 218-306: a tick writes the status, the current
    window, the radiant and the list of meteors, and nothing else. *)
Theorem X22_update_leaves_catalog mgr core dt s rng s' rng' :
  update mgr core dt s rng = Some (s', rng') ->
  m_showerID s' = m_showerID s /\ m_designation s' = m_designation s
  /\ m_speed s' = m_speed s /\ m_parentObj s' = m_parentObj s
  /\ m_pidx s' = m_pidx s /\ m_colors s' = m_colors s
  /\ m_activities s' = m_activities s
  /\ m_rAlphaPeak s' = m_rAlphaPeak s /\ m_rDeltaPeak s' = m_rDeltaPeak s
  /\ m_driftAlpha s' = m_driftAlpha s /\ m_driftDelta s' = m_driftDelta s.
Proof.
  intros Hup. destruct (decide (m_status s = INVALID)) as [Hi|Hi].
  { rewrite update_invalid in Hup by done. by injection Hup as <- <-. }
  destruct (update_cases _ _ _ _ _ _ _ Hi Hup)
    as (st & a & _ & [(_ & -> & _)|(_ & new & -> & _)]); [done|].
  unfold fix_radiant. by destruct (bool_decide _).
Qed.

(** X23.  [update] tick after tick, lines 218-244: a shower that is not
    INVALID is UNDEFINED only until its first tick; after any number of
    ticks, one at least, its status is INACTIVE, ACTIVE_GENERIC or
    ACTIVE_CONFIRMED. *)
Theorem X23_run_status ticks s rng s' rng' :
  m_status s <> INVALID -> ticks <> [] ->
  run ticks s rng = Some (s', rng') ->
  m_status s' = INACTIVE \/ m_status s' = ACTIVE_GENERIC
  \/ m_status s' = ACTIVE_CONFIRMED.
Proof.
  intros Hst Hne. destruct ticks as [|t ticks]; [done|]. clear Hne.
  revert t s rng Hst. induction ticks as [|t' ticks IH]; intros t s rng Hst; simpl.
  - destruct (update _ _ _ s rng) as [[s1 rng1]|] eqn:Hup; simpl; [|done].
    intros [= <- <-]. apply update_decides in Hup as [? ?]; [|done].
    destruct (m_status s1); tauto.
  - destruct (update _ _ _ s rng) as [[s1 rng1]|] eqn:Hup; simpl; [|done].
    apply (IH t' s1 rng1). by apply (update_keeps _ _ _ _ _ _ _ Hup).
Qed.

(** ** [getDesignation] *)

(** X24.  [getDesignation], lines 480-487: an identifier that starts with a
    character other than a blank, a sign or a digit is no number, and
    is its own designation. *)
Theorem X24_getDesignation_named (s : Shower) c r :
  m_showerID s = String c r ->
  QString.is_space c = false -> QDate.digit c = None ->
  c <> "-"%char -> c <> "+"%char ->
  getDesignation s = m_showerID s.
Proof.
  intros Hid Hsp Hd Hm Hp. unfold getDesignation. rewrite Hid.
  unfold QString.toInt. simpl. rewrite Hsp.
  apply Ascii.eqb_neq in Hm, Hp. rewrite Hm, Hp. simpl. by rewrite Hd.
Qed.

End Further.

(** ** Draws that cannot miss *)

Section Saturated.
Context {P : Platform}.
Hypothesis HRAND : RAND_MAX = 32767.

(** X25.  [update], lines 292-300: with [RAND_MAX] = 32767 the quotient
    [qrand() / RAND_MAX] never exceeds 1, so a threshold above
    1 + 2^-14, which [meteorsPerFrame] between 1 and 1.5 gives, lets
    every draw of the loop create a meteor. *)
Theorem X25_spawn_log_saturated n rate s rng :
  rng_in_range -> above_one rate ->
  Forall (fun x => is_Some x.2) (spawn_log n rate s rng).
Proof.
  intros Hrng Hrate. destruct rate as [| | |[|] m e]; try done.
  destruct Hrate as [_ Hrate].
  revert rng. induction n as [|n IH]; intros rng; simpl; [done|].
  pose proof (Hrng rng) as Hr. destruct (qrand rng) as [r rng1]. simpl in Hr.
  rewrite (draw_spawns_above_one HRAND) by (done || lia).
  destruct (MeteorObj_new _ _ _ _ _ rng1) as [mo rng2].
  constructor; [by eexists|apply IH].
Qed.

End Saturated.

(** * The properties on the sample records *)

#[local] Existing Instance Reference.platform.

Lemma reference_rng_in_range : rng_in_range.
Proof.
  intros g. destruct g as [|r g]; simpl; [lia|].
  pose proof (Z.mod_pos_bound r 32768). lia.
Qed.

Lemma bad_window_malformed : malformed_variable Samples.bad_window.
Proof.
  split; [reflexivity|].
  intros (a & b & x & y & H & _). vm_compute in H. discriminate H.
Qed.

Lemma no_peak_unresolved : unresolved_date Samples.no_peak.
Proof.
  eexists _, 1%nat, _. split; [lia|].
  split; [vm_compute; reflexivity|]. split; [vm_compute; reflexivity|].
  vm_compute. reflexivity.
Qed.

(** The three ways of C1 to an INVALID shower: no right ascension, a
    variable range of one number, a confirmed window left without peak. *)
Lemma C1_witness :
  (mandatory_missing Samples.no_alpha = true
   /\ exists s, MeteorShower_new Samples.no_alpha = Some s
                /\ m_status s = INVALID
                /\ (forall mgr, enabled mgr s = false)
                /\ (forall ticks rng, run ticks s rng = Some (s, rng)))
  /\ (exists s, MeteorShower_new Samples.bad_variable = Some s
                /\ m_status s = INVALID
                /\ (forall mgr, enabled mgr s = false)
                /\ (forall ticks rng, run ticks s rng = Some (s, rng)))
  /\ (exists s, MeteorShower_new Samples.no_peak = Some s
                /\ m_status s = INVALID
                /\ (forall mgr, enabled mgr s = false)
                /\ (forall ticks rng, run ticks s rng = Some (s, rng))).
Proof.
  split; [split; [vm_compute; reflexivity|]|split].
  - apply (C1_fails_closed Samples.no_alpha). left. vm_compute. reflexivity.
  - apply (C1_fails_closed Samples.bad_variable). right. left.
    exists Samples.bad_window. split; [|exact bad_window_malformed].
    change (Samples.bad_window ∈ [Samples.bad_window]). apply list_elem_of_here.
  - apply (C1_fails_closed Samples.no_peak). right. right.
    exact no_peak_unresolved.
Defined.

(** C1 as stated fails: the record has its mandatory fields and its only
    window, the generic one, has no valid date; the shower is constructed
    UNDEFINED and is enabled, even when only active radiants are shown. *)
Lemma C1_generic_window_unchecked :
  mandatory_missing Samples.undated = false
  /\ exists s, MeteorShower_new Samples.undated = Some s
               /\ some_invalid_date (m_activities s)
               /\ m_status s = UNDEFINED
               /\ enabled Samples.mgr_active_only s = true.
Proof.
  split; [vm_compute; reflexivity|].
  eexists. split; [vm_compute; reflexivity|]. split; [|split; reflexivity].
  exists 0%nat. eexists. split; reflexivity.
Qed.

Lemma C9_witness :
  mandatory_missing Samples.no_activity = false
  /\ (MeteorShower_new Samples.no_activity = None
      <-> QVariant.toList (value Samples.no_activity "activity") = []).
Proof.
  split; [vm_compute; reflexivity|].
  apply (C9_empty_activity_list Samples.no_activity). vm_compute. reflexivity.
Defined.

Lemma C10_witness :
  exists s, MeteorShower_new Samples.quadrantids = Some s
    /\ m_status s <> INVALID
    /\ exists g, windows Samples.quadrantids !! 0%nat = Some g /\
         forall (i : nat) ms,
           (1 <= i)%nat ->
           QVariant.toList (value Samples.quadrantids "activity") !! i = Some ms ->
           exists a a', windows Samples.quadrantids !! i = Some a
                        /\ m_activities s !! i = Some a' /\ gap_filled g ms a a'.
Proof.
  eexists. split; [vm_compute; reflexivity|]. split; [discriminate|].
  apply (C10_gap_filling Samples.quadrantids); [vm_compute; reflexivity|discriminate].
Defined.

Lemma C6_witness :
  exists s ms, MeteorShower_new Samples.january = Some s
    /\ m_status s <> INVALID
    /\ QVariant.toList (value Samples.january "activity") !! 0%nat = Some ms
    /\ dates_valid (raw_activity ms).1 = true
    /\ exists a, m_activities s !! 0%nat = Some a
                 /\ QDate.leb (start a) (finish a) = true
                 /\ QDate.leb (start a) (peak a) = true.
Proof.
  eexists _, _. split; [vm_compute; reflexivity|]. split; [discriminate|].
  split; [vm_compute; reflexivity|]. split; [vm_compute; reflexivity|].
  eapply (C6_dated_windows_ordered Samples.january);
    [vm_compute; reflexivity|discriminate|vm_compute; reflexivity|vm_compute; reflexivity].
Defined.

(** C6 as stated fails twice: a generic window catalogued with its peak
    after its finish keeps it there, and the confirmed window of 2014 of
    [quadrantids], which names only its peak (3 January), inherits a start
    of 28 December 2014 that lies after it. *)
Lemma C6_order_not_kept :
  (exists s a, MeteorShower_new Samples.late_peak = Some s
               /\ m_status s = UNDEFINED
               /\ m_activities s !! 0%nat = Some a
               /\ QDate.leb (peak a) (finish a) = false)
  /\ (exists s a, MeteorShower_new Samples.quadrantids = Some s
                  /\ m_status s = UNDEFINED
                  /\ m_activities s !! 1%nat = Some a
                  /\ QDate.leb (start a) (peak a) = false).
Proof.
  split; eexists _, _; (split; [vm_compute; reflexivity|]);
    (split; [reflexivity|]); (split; [reflexivity|]); vm_compute; reflexivity.
Qed.

(** On 2 January 2015 the confirmed window of [quadrantids] and its
    generic template both hold the date; the resolver reports the
    confirmed one. *)
Lemma C2_witness :
  exists s a, MeteorShower_new Samples.quadrantids = Some s
    /\ first_confirmed (m_activities s) (Date 2015 1 2) 1 a
    /\ snd <$> hasGenericShower (m_activities s) (Date 2015 1 2) = Some true
    /\ resolve (m_activities s) (Date 2015 1 2) = Some (ACTIVE_CONFIRMED, a).
Proof.
  eexists _, _. split; [vm_compute; reflexivity|].
  assert (first_confirmed
            [Samples.quadrantids_generic;
             {| year := 2014; zhr := 120; variable := [];
                start := Date 2014 12 28; finish := Date 2015 1 12;
                peak := Date 2014 1 3 |}] (Date 2015 1 2) 1
            {| year := 2014; zhr := 120; variable := [];
               start := Date 2014 12 28; finish := Date 2015 1 12;
               peak := Date 2014 1 3 |}) as H.
  { split; [lia|]. split; [reflexivity|]. split; [vm_compute; reflexivity|].
    intros j b Hj. lia. }
  split; [exact H|]. split; [vm_compute; reflexivity|].
  exact (proj1 (C2_confirmed_precedence _ _) _ _ H).
Defined.

(** Claim C3 at a failing input.  The generic window of [quadrantids]
    runs from 28 December to 12 January.  On 2 January of the year -1 the
    alignment (year - 1, year) of the claim, 28 December -2 to 12 January
    -1, holds the date.  The code first tries (year, year + 1): year + 1 is
    0, which is no year, so the finish becomes the null date; the second
    attempt then reads month 0 and day 0 from it, finds no date again, and
    the shower is reported inactive. *)
Theorem C3_alignment_lost_before_era :
  exists s g,
    MeteorShower_new Samples.quadrantids = Some s
    /\ m_activities s !! 0%nat = Some g
    /\ currentDate (Samples.core_at (Date (-1) 1 2)) = Date (-1) 1 2
    /\ generic_window g (Date (-1) 1 2)
       = ({| year := -2; zhr := 120; variable := [];
             start := Date (-2) 12 28; finish := Date (-1) 1 12;
             peak := Date (-1) 1 4 |}, true)
    /\ hasGenericShower (m_activities s) (Date (-1) 1 2)
       = Some (Activity_default, false)
    /\ resolve (m_activities s) (Date (-1) 1 2) = Some (INACTIVE, Activity_default).
Proof.
  eexists _, _. split; [vm_compute; reflexivity|]. split; [reflexivity|].
  repeat split; vm_compute; reflexivity.
Qed.

Lemma C4_witness :
  let a := Samples.january_2015 in
  let t := getJD (Samples.core_at (Date 2015 1 5)) in
  zhr a <> -1
  /\ calculateZHR a t
     = Some (gaussian_rate (F.of_Z 0) (F.of_Z 10)
               (spread_from_start a t) (julian (peak a)) t)
  /\ spread_from_start a t = half_span (start a) (peak a)
  /\ calculateZHR a t = Some 3.
Proof.
  split; [discriminate|]. split; [|split; vm_compute; reflexivity].
  apply (C4_rate_model Samples.january_2015). discriminate.
Defined.

(** Claim C4 as stated fails.  [update] takes the date of a tick from the
    Julian day truncated toward zero, so at the Julian day -10.5 the date
    is the one of the Julian day -10, the first day of the window of
    [ancient]: the window is resolved and the shower is active, while the
    time is before the start of the window (and before its peak, on the
    rising side of the curve).  [calculateZHR] then takes half the span
    from peak to finish, 4.5 days, and returns 9; with half the span from
    start to peak, 0.5 days, as the claim has it on the rising side, the
    rate is 0. *)
Lemma C4_rising_side_before_start :
  let core := Samples.core_before_epoch in
  let t := getJD core in
  exists s s' rng',
    MeteorShower_new Samples.ancient = Some s
    /\ update Samples.mgr_all core (D.of_Z 1) s [7; 11] = Some (s', rng')
    /\ Qred <$> SFtoQ t = Some (-21 # 2)
    /\ m_status s' = ACTIVE_GENERIC
    /\ m_activity s'
       = {| year := -4714; zhr := 10; variable := [];
            start := Date (-4714) 11 14; finish := Date (-4714) 11 24;
            peak := Date (-4714) 11 15 |}
    /\ D.geb t (julian (start (m_activity s'))) = false
    /\ D.ltb t (julian (peak (m_activity s'))) = true
    /\ calculateZHR (m_activity s') t = Some 9
    /\ gaussian_rate (F.of_Z 0) (F.of_Z 10) (spread (m_activity s') t)
         (julian (peak (m_activity s'))) t = 0
    /\ length (m_activeMeteors s') = 1%nat.
Proof.
  eexists _, _, _. split; [vm_compute; reflexivity|].
  split; [vm_compute; reflexivity|].
  repeat split; vm_compute; reflexivity.
Qed.

Lemma C7_witness :
  exists s, MeteorShower_new Samples.january = Some s
            /\ m_status s <> INVALID
            /\ forall ticks rng, is_Some (run ticks s rng).
Proof.
  eexists. split; [vm_compute; reflexivity|]. split; [discriminate|].
  apply (C7_ticks_complete Samples.january); [vm_compute; reflexivity|discriminate].
Defined.

Lemma C8_witness :
  rng_in_range
  /\ exists s0 s rng,
       MeteorShower_new Samples.january = Some s0
       /\ m_status s0 <> INVALID
       /\ run [Samples.tick_january] s0 [7; 11] = Some (s, rng)
       /\ exists s1 rng1,
            update Samples.mgr_all (Samples.core_at (Date 2015 1 12))
              Samples.dt_zero s rng = Some (s1, rng1)
            /\ settled {| tick_mgr := Samples.mgr_all;
                          tick_core := Samples.core_at (Date 2015 1 12);
                          tick_deltaTime := Samples.dt_zero |} s s1.
Proof.
  split; [exact reference_rng_in_range|].
  eexists _, _, _. split; [vm_compute; reflexivity|]. split; [discriminate|].
  split; [vm_compute; reflexivity|].
  eapply (C8_update_idempotent (P := Reference.platform) Samples.january _
            [Samples.tick_january] [7; 11]);
    [exact reference_rng_in_range|vm_compute; reflexivity|discriminate
    |vm_compute; reflexivity].
Defined.

(** Claim C5 at a failing input.  At the peak of [strong] the rate is 100
    an hour; over 50.4 seconds [meteorsPerFrame] is 1.4 (the nearest
    [float]) and its rounding makes [maxThisFrame] 1, so the threshold of
    the one draw is 1.4, which is no probability: every one of the 32768
    values of [qrand] spawns, the mean number of meteors is 1 and not 1.4.
    The bound of line 288 is below the average of line 285 whenever the
    rounding goes down. *)
Lemma C5_mean_is_not_meteorsPerFrame :
  let core := Samples.core_at (Date 2015 8 10) in
  let mpf := meteorsPerFrame 100 Samples.dt_50_4 in
  let rate := F.div mpf (F.of_Z (maxThisFrame mpf)) in
  (exists s, MeteorShower_new Samples.strong = Some s
             /\ resolve (m_activities s) (currentDate core)
                = Some (ACTIVE_GENERIC, Samples.strong_2015))
  /\ getRealTimeSpeed core = true
  /\ calculateZHR Samples.strong_2015 (getJD core) = Some 100
  /\ maxThisFrame mpf = 1
  /\ SFtoQ mpf = Some (11744051 # 8388608)
  /\ SFtoQ rate = Some (11744051 # 8388608)
  /\ (forall r, 0 <= r <= RAND_MAX -> draw_spawns rate r = true)
  /\ mean_spawned (maxThisFrame mpf) rate = (32768 # 32768)
  /\ ~ (mean_spawned (maxThisFrame mpf) rate == 11744051 # 8388608)%Q.
Proof.
  assert (F.div (meteorsPerFrame 100 Samples.dt_50_4)
            (F.of_Z (maxThisFrame (meteorsPerFrame 100 Samples.dt_50_4)))
          = S754_finite false 11744051 (-23)) as Hrate by (vm_compute; reflexivity).
  assert (maxThisFrame (meteorsPerFrame 100 Samples.dt_50_4) = 1) as Hmax
    by (vm_compute; reflexivity).
  cbv zeta. rewrite Hrate, Hmax.
  split; [eexists; split; [vm_compute; reflexivity|]; vm_compute; reflexivity|].
  split; [reflexivity|]. split; [vm_compute; reflexivity|].
  split; [reflexivity|]. split; [vm_compute; reflexivity|].
  split; [vm_compute; reflexivity|].
  split.
  { intros r Hr. apply draw_spawns_above_one; [reflexivity| |exact Hr].
    right. split; [reflexivity|]. simpl. lia. }
  assert (mean_spawned 1 (S754_finite false 11744051 (-23)) = (32768 # 32768))
    as Hmean.
  { unfold mean_spawned.
    rewrite spawning_draws_above_one; [reflexivity|reflexivity|].
    right. split; [reflexivity|]. simpl. lia. }
  rewrite Hmean. split; [reflexivity|].
  unfold Qeq. simpl. lia.
Qed.

(** ** The further properties on the sample records *)

Lemma X1_witness :
  exists s, MeteorShower_new Samples.bad_variable = Some s
    /\ (m_status s = INVALID \/ m_status s = UNDEFINED)
    /\ m_activeMeteors s = []
    /\ m_radiantAlpha s = m_rAlphaPeak s /\ m_radiantDelta s = m_rDeltaPeak s
    /\ (m_status s = INVALID -> m_colors s = []).
Proof.
  eexists. split; [vm_compute; reflexivity|].
  apply (X1_constructed_initial Samples.bad_variable). vm_compute; reflexivity.
Defined.

Lemma X2_witness :
  exists s, MeteorShower_new Samples.quadrantids = Some s
    /\ m_status s <> INVALID
    /\ length (m_activities s)
       = length (QVariant.toList (value Samples.quadrantids "activity"))
    /\ forall (i : nat) ms,
         QVariant.toList (value Samples.quadrantids "activity") !! i = Some ms ->
         exists a, m_activities s !! i = Some a
                   /\ year a = QVariant.toInt (value (QVariant.toMap ms) "year").
Proof.
  eexists. split; [vm_compute; reflexivity|]. split; [discriminate|].
  apply (X2_constructed_windows Samples.quadrantids);
    [vm_compute; reflexivity|discriminate].
Defined.

Lemma X3_witness :
  exists s a, MeteorShower_new Samples.variable_shower = Some s
    /\ m_status s <> INVALID
    /\ m_activities s !! 0%nat = Some a
    /\ zhr a = -1 /\ range_nonneg a.
Proof.
  eexists _, _. split; [vm_compute; reflexivity|]. split; [discriminate|].
  split; [vm_compute; reflexivity|]. split; [reflexivity|].
  eapply (X3_constructed_range Samples.variable_shower _ 0%nat);
    [vm_compute; reflexivity|discriminate|vm_compute; reflexivity].
Defined.

Lemma X4_witness :
  exists s ms, MeteorShower_new Samples.january = Some s
    /\ m_status s <> INVALID
    /\ QVariant.toList (value Samples.january "activity") !! 0%nat = Some ms
    /\ dates_valid (raw_activity ms).1 = true
    /\ exists a,
         m_activities s !! 0%nat = Some a
         /\ (let y := if year a =? 0 then genericYear else year a in
             1000 <= y <= 9999
             /\ QDate.year (start a) = y
             /\ (QDate.year (finish a) = y \/ QDate.year (finish a) = y + 1)
             /\ (QDate.year (peak a) = y \/ QDate.year (peak a) = y + 1)).
Proof.
  eexists _, _. split; [vm_compute; reflexivity|]. split; [discriminate|].
  split; [vm_compute; reflexivity|]. split; [vm_compute; reflexivity|].
  eapply (X4_constructed_dated_years Samples.january);
    [vm_compute; reflexivity|discriminate|vm_compute; reflexivity|vm_compute; reflexivity].
Defined.

Lemma X5_witness :
  exists s ms0 ms,
    MeteorShower_new Samples.late_start = Some s
    /\ m_status s <> INVALID
    /\ QVariant.toList (value Samples.late_start "activity") !! 0%nat = Some ms0
    /\ QVariant.toInt (value (QVariant.toMap ms0) "year") = 0
    /\ dates_valid (raw_activity ms0).1 = true
    /\ QVariant.toList (value Samples.late_start "activity") !! 1%nat = Some ms
    /\ 1 <= QVariant.toInt (value (QVariant.toMap ms) "year")
    /\ exists g a,
         m_activities s !! 0%nat = Some g /\ m_activities s !! 1%nat = Some a
         /\ (let moved (own inherited template : QDate) :=
               QDate.isValid own = false ->
               inherited = Date (year a + (QDate.year template - genericYear))
                             (QDate.month template) (QDate.day template) in
             moved (start (raw_activity ms).1) (start a) (start g)
             /\ moved (finish (raw_activity ms).1) (finish a) (finish g)
             /\ moved (peak (raw_activity ms).1) (peak a) (peak g)).
Proof.
  eexists _, _, _. split; [vm_compute; reflexivity|]. split; [discriminate|].
  split; [vm_compute; reflexivity|]. split; [vm_compute; reflexivity|].
  split; [vm_compute; reflexivity|]. split; [vm_compute; reflexivity|].
  split; [vm_compute; discriminate|].
  eapply (X5_constructed_inherited_dates Samples.late_start _ 1%nat);
    [vm_compute; reflexivity|discriminate|vm_compute; reflexivity
    |vm_compute; reflexivity|vm_compute; reflexivity|lia
    |vm_compute; reflexivity|vm_compute; discriminate].
Defined.

Lemma X6_witness :
  exists s, MeteorShower_new Samples.pale = Some s
    /\ m_status s <> INVALID
    /\ m_colors s <> [] /\ totalIntensity (m_colors s) = 100
    /\ (contains Samples.pale "colors" = false
        -> m_colors s = [("white"%string, 100)]).
Proof.
  eexists. split; [vm_compute; reflexivity|]. split; [discriminate|].
  apply (X6_constructed_colors Samples.pale);
    [vm_compute; reflexivity|discriminate].
Defined.

Lemma X9_witness :
  let acts := [Samples.quadrantids_generic] in
  let date := Date 2015 1 2 in
  exists a,
    acts !! 0%nat = Some Samples.quadrantids_generic
    /\ hasGenericShower acts date = Some (a, true)
    /\ in_window date a = true /\ zhr a = zhr Samples.quadrantids_generic
    /\ variable a = variable Samples.quadrantids_generic
    /\ year a = QDate.year (start a).
Proof.
  eexists. split; [reflexivity|]. split; [vm_compute; reflexivity|].
  exact (X9_hasGenericShower_result [Samples.quadrantids_generic]
           Samples.quadrantids_generic (Date 2015 1 2) _ true
           eq_refl eq_refl).
Defined.

Lemma X10_witness :
  let acts := [Samples.leap_template] in
  let jd := 2457038 in
  let date := QDate.fromJulianDay jd in
  date = Date 2015 1 15
  /\ acts !! 0%nat = Some Samples.leap_template
  /\ QDate.year (start Samples.leap_template)
     = QDate.year (finish Samples.leap_template)
  /\ QDate.isValid (project (start Samples.leap_template) (QDate.year date)) = false
  /\ exists a,
       hasGenericShower acts date
       = Some (a, QDate.leb date
                    (project (finish Samples.leap_template) (QDate.year date))).
Proof.
  split; [vm_compute; reflexivity|]. split; [reflexivity|].
  split; [reflexivity|]. split; [vm_compute; reflexivity|].
  apply (X10_hasGenericShower_open_start [Samples.leap_template]
           Samples.leap_template 2457038);
    [reflexivity|reflexivity|vm_compute; reflexivity].
Defined.

Lemma X11_witness :
  let g := Samples.quadrantids_generic in
  let g' := Samples.quadrantids_2000 in
  (QDate.year (start g') =? QDate.year (finish g'))
  = (QDate.year (start g) =? QDate.year (finish g))
  /\ (QDate.year (peak g') =? QDate.year (start g'))
     = (QDate.year (peak g) =? QDate.year (start g))
  /\ hasGenericShower [g'] (Date 2015 1 2)
     = hasGenericShower [g; Samples.january_2015] (Date 2015 1 2).
Proof.
  split; [reflexivity|]. split; [reflexivity|].
  apply (X11_hasGenericShower_template_years Samples.quadrantids_generic
           Samples.quadrantids_2000 [Samples.january_2015] [] (Date 2015 1 2));
    reflexivity.
Defined.

Lemma X12_witness :
  let acts := [Samples.quadrantids_generic] in
  let g := Samples.quadrantids_generic in
  let date := Date 2015 1 2 in
  acts !! 0%nat = Some g
  /\ INT_MIN < QDate.year date < INT_MAX
  /\ 1 < QDate.year date
  /\ hasGenericShower acts date = Some (generic_window g date)
  /\ generic_window g date
     = ({| year := 2014; zhr := 120; variable := [];
           start := Date 2014 12 28; finish := Date 2015 1 12;
           peak := Date 2015 1 4 |}, true).
Proof.
  split; [reflexivity|]. split; [vm_compute; split; reflexivity|].
  split; [reflexivity|].
  split; [|vm_compute; reflexivity].
  apply (X12_hasGenericShower_alignments [Samples.quadrantids_generic]
           Samples.quadrantids_generic (Date 2015 1 2));
    [reflexivity|vm_compute; split; reflexivity|right; reflexivity|simpl; lia..].
Defined.

Lemma X14_witness :
  let a := Samples.january_2015 in
  let t := getJD (Samples.core_at (Date 2014 12 25)) in
  D.geb t (julian (start a)) = false
  /\ calculateZHR a t
     = Some (gaussian_rate (F.of_Z 0) (F.of_Z (zhr a))
               (half_span (peak a) (finish a)) (julian (peak a)) t).
Proof.
  split; [vm_compute; reflexivity|].
  apply (proj1 (X14_calculateZHR_before_start Samples.january_2015
                  (getJD (Samples.core_at (Date 2014 12 25)))
                  ltac:(vm_compute; reflexivity))).
  discriminate.
Defined.

Lemma X15_witness :
  let q := (5276534289989632 # 2147483648)%Q in
  SFtoQ (getJD Samples.core_morning) = Some q
  /\ (0 <= q)%Q /\ (q < inject_Z (2 ^ 63))%Q
  /\ currentDate Samples.core_morning = QDate.fromJulianDay (Qround.Qfloor q)
  /\ currentDate Samples.core_morning = Date 2015 2 23.
Proof.
  split; [vm_compute; reflexivity|]. split; [discriminate|].
  split; [reflexivity|]. split; [|vm_compute; reflexivity].
  apply (X15_currentDate_floor Samples.core_morning);
    [vm_compute; reflexivity|discriminate|reflexivity].
Defined.

Lemma X16_witness :
  exists s s' rng',
    MeteorShower_new Samples.january = Some s
    /\ m_status s <> INVALID
    /\ update Samples.mgr_all (Samples.core_at (Date 2015 1 5)) Samples.dt_10_8
         s [7; 11] = Some (s', rng')
    /\ m_status s' = ACTIVE_GENERIC
    /\ match m_status s' with
       | ACTIVE_CONFIRMED | ACTIVE_GENERIC =>
           in_window (currentDate (Samples.core_at (Date 2015 1 5)))
             (m_activity s') = true
       | INACTIVE => m_activity s' = Activity_default
       | INVALID | UNDEFINED => False
       end.
Proof.
  eexists _, _, _. split; [vm_compute; reflexivity|]. split; [discriminate|].
  match goal with |- update _ _ _ ?s _ = _ /\ _ =>
    split; [vm_compute; reflexivity|]; split; [reflexivity|];
    eapply (X16_update_status_window (P := Reference.platform) Samples.mgr_all
              (Samples.core_at (Date 2015 1 5)) Samples.dt_10_8 s [7; 11]);
      [discriminate|vm_compute; reflexivity]
  end.
Defined.

Lemma X17_witness :
  exists s s' rng',
    MeteorShower_new Samples.january = Some s
    /\ update Samples.mgr_active_only (Samples.core_at (Date 2015 3 1))
         Samples.dt_10_8 s [7; 11] = Some (s', rng')
    /\ enabled Samples.mgr_active_only s' = false
    /\ rng' = [7; 11] /\ m_activeMeteors s' = m_activeMeteors s
    /\ m_radiantAlpha s' = m_radiantAlpha s
    /\ m_radiantDelta s' = m_radiantDelta s.
Proof.
  eexists _, _, _. split; [vm_compute; reflexivity|].
  match goal with |- update _ _ _ ?s _ = _ /\ _ =>
    split; [vm_compute; reflexivity|]; split; [reflexivity|];
    eapply (X17_update_hidden (P := Reference.platform) Samples.mgr_active_only
              (Samples.core_at (Date 2015 3 1)) Samples.dt_10_8 s [7; 11]);
      [vm_compute; reflexivity|reflexivity]
  end.
Defined.

Lemma X18_witness :
  exists s s' rng',
    MeteorShower_new Samples.january = Some s
    /\ update Samples.mgr_all (Samples.core_at (Date 2015 3 1))
         Samples.dt_10_8 s [7; 11] = Some (s', rng')
    /\ m_status s' = INACTIVE /\ enabled Samples.mgr_all s' = true
    /\ m_radiantAlpha s' = m_rAlphaPeak s' /\ m_radiantDelta s' = m_rDeltaPeak s'.
Proof.
  eexists _, _, _. split; [vm_compute; reflexivity|].
  match goal with |- update _ _ _ ?s _ = _ /\ _ =>
    split; [vm_compute; reflexivity|]; split; [reflexivity|];
    split; [reflexivity|];
    eapply (X18_update_inactive_radiant (P := Reference.platform) Samples.mgr_all
              (Samples.core_at (Date 2015 3 1)) Samples.dt_10_8 s [7; 11]);
      [vm_compute; reflexivity|reflexivity|reflexivity]
  end.
Defined.

Lemma X19_witness :
  let core := Samples.core_at (Date 2015 1 10) in
  exists s s' rng',
    MeteorShower_new Samples.january = Some s
    /\ update Samples.mgr_all core Samples.dt_10_8 s [7; 11] = Some (s', rng')
    /\ m_status s' = ACTIVE_GENERIC
    /\ getJD core = julian (peak (m_activity s'))
    /\ SFcompare (m_radiantAlpha s') (m_rAlphaPeak s') = Some Eq
    /\ SFcompare (m_radiantDelta s') (m_rDeltaPeak s') = Some Eq.
Proof.
  eexists _, _, _. split; [vm_compute; reflexivity|].
  match goal with |- update _ _ _ ?s _ = _ /\ _ =>
    split; [vm_compute; reflexivity|]; split; [reflexivity|];
    split; [vm_compute; reflexivity|];
    eapply (X19_update_at_peak (P := Reference.platform) Samples.mgr_all
              (Samples.core_at (Date 2015 1 10)) Samples.dt_10_8 s [7; 11]);
      [reflexivity|reflexivity|reflexivity|reflexivity
      |vm_compute; reflexivity|reflexivity|reflexivity|vm_compute; reflexivity]
  end.
Defined.

Lemma X20_witness :
  exists s s' rng',
    MeteorShower_new Samples.strong = Some s
    /\ getRealTimeSpeed (Samples.core_paused (Date 2015 8 10)) = false
    /\ update Samples.mgr_all (Samples.core_paused (Date 2015 8 10))
         Samples.dt_50_4 s [7; 11] = Some (s', rng')
    /\ rng' = [7; 11]
    /\ m_activeMeteors s'
       = (if enabled Samples.mgr_all s'
          then age_meteors (m_activeMeteors s) Samples.dt_50_4
          else m_activeMeteors s)
    /\ (length (m_activeMeteors s') <= length (m_activeMeteors s))%nat.
Proof.
  eexists _, _, _. split; [vm_compute; reflexivity|]. split; [reflexivity|].
  match goal with |- update _ _ _ ?s _ = _ /\ _ =>
    split; [vm_compute; reflexivity|];
    eapply (X20_update_off_real_time (P := Reference.platform) Samples.mgr_all
              (Samples.core_paused (Date 2015 8 10)) Samples.dt_50_4 s [7; 11]);
      [reflexivity|vm_compute; reflexivity]
  end.
Defined.

Lemma X21_witness :
  let core := Samples.core_at (Date 2015 3 1) in
  exists s s' rng',
    MeteorShower_new Samples.january = Some s
    /\ qRound (S754_zero false) < 1
    /\ update Samples.mgr_all core Samples.dt_10_8 s [7; 11] = Some (s', rng')
    /\ m_status s' = INACTIVE /\ zhr (m_activity s') = 0
    /\ SFfinite (qExp (gaussian_exponent (m_activity s') (getJD core))) = true
    /\ rng' = [7; 11]
    /\ m_activeMeteors s'
       = (if enabled Samples.mgr_all s'
          then age_meteors (m_activeMeteors s) Samples.dt_10_8
          else m_activeMeteors s).
Proof.
  eexists _, _, _. split; [vm_compute; reflexivity|]. split; [reflexivity|].
  match goal with |- update _ _ _ ?s _ = _ /\ _ =>
    split; [vm_compute; reflexivity|]; split; [reflexivity|];
    split; [reflexivity|]; split; [vm_compute; reflexivity|];
    eapply (X21_update_without_rate (P := Reference.platform) Samples.mgr_all
              (Samples.core_at (Date 2015 3 1)) Samples.dt_10_8 s [7; 11]);
      [reflexivity|vm_compute; reflexivity|reflexivity|vm_compute; reflexivity]
  end.
Defined.

Lemma X22_witness :
  exists s s' rng',
    MeteorShower_new Samples.strong = Some s
    /\ update Samples.mgr_all (Samples.core_at (Date 2015 8 10))
         Samples.dt_50_4 s [7; 11] = Some (s', rng')
    /\ m_activeMeteors s' <> m_activeMeteors s
    /\ m_showerID s' = m_showerID s /\ m_designation s' = m_designation s
    /\ m_speed s' = m_speed s /\ m_parentObj s' = m_parentObj s
    /\ m_pidx s' = m_pidx s /\ m_colors s' = m_colors s
    /\ m_activities s' = m_activities s
    /\ m_rAlphaPeak s' = m_rAlphaPeak s /\ m_rDeltaPeak s' = m_rDeltaPeak s
    /\ m_driftAlpha s' = m_driftAlpha s /\ m_driftDelta s' = m_driftDelta s.
Proof.
  eexists _, _, _. split; [vm_compute; reflexivity|].
  match goal with |- update _ _ _ ?s _ = _ /\ _ =>
    split; [vm_compute; reflexivity|]; split; [discriminate|];
    eapply (X22_update_leaves_catalog (P := Reference.platform) Samples.mgr_all
              (Samples.core_at (Date 2015 8 10)) Samples.dt_50_4 s [7; 11]);
    vm_compute; reflexivity
  end.
Defined.

Lemma X23_witness :
  exists s s' rng',
    MeteorShower_new Samples.january = Some s
    /\ m_status s = UNDEFINED
    /\ run [Samples.tick_january; Samples.tick_january] s [7; 11] = Some (s', rng')
    /\ (m_status s' = INACTIVE \/ m_status s' = ACTIVE_GENERIC
        \/ m_status s' = ACTIVE_CONFIRMED).
Proof.
  eexists _, _, _. split; [vm_compute; reflexivity|]. split; [reflexivity|].
  match goal with |- run _ ?s _ = _ /\ _ =>
    split; [vm_compute; reflexivity|];
    eapply (X23_run_status (P := Reference.platform)
              [Samples.tick_january; Samples.tick_january] s [7; 11]);
      [discriminate|discriminate|vm_compute; reflexivity]
  end.
Defined.

Lemma X24_witness :
  let s := read_header Samples.quadrantids in
  m_showerID s = "QUA"%string
  /\ getDesignation s = m_showerID s.
Proof.
  split; [reflexivity|].
  apply (X24_getDesignation_named (read_header Samples.quadrantids) "Q" "UA");
    [reflexivity|reflexivity|reflexivity|discriminate|discriminate].
Defined.

Lemma X25_witness :
  RAND_MAX = 32767 /\ rng_in_range /\ above_one Samples.rate_1_4
  /\ Forall (fun x => is_Some x.2)
       (spawn_log 3 Samples.rate_1_4 MeteorShower_init [1; 2; 3]).
Proof.
  split; [reflexivity|]. split; [exact reference_rng_in_range|].
  split; [vm_compute; split; [split; [discriminate|reflexivity]|right; split; reflexivity]|].
  apply (X25_spawn_log_saturated (P := Reference.platform) eq_refl 3
           Samples.rate_1_4 MeteorShower_init [1; 2; 3]
           reference_rng_in_range).
  vm_compute; split; [split; [discriminate|reflexivity]|right; split; reflexivity].
Defined.

Lemma X26_witness :
  exists s,
    MeteorShower_new Samples.strong = Some s
    /\ m_status s <> INVALID
    /\ resolve (m_activities s) (currentDate (Samples.core_at (Date 2015 8 10)))
       = Some (ACTIVE_GENERIC, Samples.strong_2015)
    /\ enabled Samples.mgr_all (set_status s ACTIVE_GENERIC) = true
    /\ getRealTimeSpeed (Samples.core_at (Date 2015 8 10)) = true
    /\ calculateZHR Samples.strong_2015 (getJD (Samples.core_at (Date 2015 8 10)))
       = Some 100
    /\ thinned Samples.mgr_all (Samples.core_at (Date 2015 8 10)) Samples.dt_50_4
         s [7; 11] ACTIVE_GENERIC Samples.strong_2015 100.
Proof.
  eexists. split; [vm_compute; reflexivity|]. split; [discriminate|].
  split; [vm_compute; reflexivity|]. split; [reflexivity|]. split; [reflexivity|].
  split; [vm_compute; reflexivity|].
  apply X26_update_spawning;
    [discriminate|vm_compute; reflexivity|reflexivity|reflexivity|vm_compute; reflexivity].
Defined.

(** ** The examples of the specification *)

Example fromString_ok : QDate.fromString "12.28 1000" = Date 1000 12 28.
Proof. reflexivity. Qed.

Example fromString_empty : QDate.fromString "" = NullDate.
Proof. reflexivity. Qed.

Example addYears_leap : QDate.addYears (Date 2016 2 29) 1 = Date 2017 2 28.
Proof. reflexivity. Qed.

Example julian_day_2000 :
  QDate.toJulianDay (Date 2000 1 1) = 2451545
  /\ QDate.fromJulianDay 2451545 = Date 2000 1 1.
Proof. split; reflexivity. Qed.

Example split_range : QString.split_dash "5-10" = ["5"; "10"]%string.
Proof. reflexivity. Qed.

Example toInt_examples :
  QString.toInt "2015" = Some 2015 /\ QString.toInt "-1" = Some (-1)
  /\ QString.toInt "generic" = None /\ QString.toInt "" = None.
Proof. repeat split; reflexivity. Qed.

(** Example 1: at its peak the shower of January gives its [zhr]. *)
Example rate_at_peak :
  calculateZHR Samples.january_2015 (getJD (Samples.core_at (Date 2015 1 10)))
  = Some 10.
Proof. vm_compute. reflexivity. Qed.

(** Example 2: a day of December and a day of the following January fall
    in the same generic window. *)
Example window_over_new_year :
  exists a,
    hasGenericShower [Samples.quadrantids_generic] (Date 2015 12 30) = Some (a, true)
    /\ hasGenericShower [Samples.quadrantids_generic] (Date 2016 1 2) = Some (a, true)
    /\ start a = Date 2015 12 28 /\ finish a = Date 2016 1 12
    /\ peak a = Date 2016 1 4.
Proof. eexists. repeat split; vm_compute; reflexivity. Qed.

(** Example 4: intensities that sum to 90 are replaced by white. *)
Example pale_colors :
  m_colors <$> MeteorShower_new Samples.pale = Some [("white"%string, 100)].
Proof. vm_compute. reflexivity. Qed.

(** Example 5: a mean of 0.3 meteor a frame is one draw. *)
Example one_draw :
  SFtoQ (meteorsPerFrame 100 Samples.dt_10_8) = Some (10066330 # 33554432)
  /\ maxThisFrame (meteorsPerFrame 100 Samples.dt_10_8) = 1.
Proof. split; vm_compute; reflexivity. Qed.

(** A variable shower at its peak: the floor and the amplitude of its
    range. *)
Example variable_rate :
  calculateZHR
    {| year := 2015; zhr := -1; variable := [5; 20];
       start := Date 2015 6 1; finish := Date 2015 6 30; peak := Date 2015 6 10 |}
    (getJD (Samples.core_at (Date 2015 6 10))) = Some 25.
Proof. vm_compute. reflexivity. Qed.
